(** * Static evaluation (evaluate.cpp) of the multi-variant Stockfish fork

    A shallow embedding of [Evaluation<T>] from [src/evaluate.cpp], with all
    variant [#ifdef]s enabled, and the properties of its specification that
    concern the blending driver, the lazy exit, the attack maps, the king
    ring, the initiative correction, the scale factor, the king-danger gate,
    the passed-pawn bonus and the king-tropism geometry.

    Conventions.
    - [int] and [Value] arithmetic is carried out in [Z]; signed overflow is
      undefined behaviour in C++ and is not modelled.  Integer division is
      C division, [Z.quot] (truncation toward zero).
    - A [Bitboard] is a [uint64_t]: it is a [Z] and every operation that can
      leave the 64-bit range ([~], [<<]) is truncated explicitly.
    - The collaborators (Position, Material::Entry, Pawns::Entry, the attack
      tables of bitboard.cpp) are not part of evaluate.cpp; they appear as
      records of query results.
    - The class is taken at [T = NO_TRACE]: the [Trace::add] calls, which
      only fill the table printed by [Eval::trace], are left out.
    - Where C++ leaves the order of two calls open (the operands of
      [evaluate_pieces<WHITE, Pt>() - evaluate_pieces<BLACK, Pt>()]), White's
      call is taken first; the two calls write disjoint slots.  *)

From Stdlib Require Import ZArith List Bool Lia Btauto.
Import ListNotations.
Local Open Scope Z_scope.

(** ** Enumerations of types.h, as evaluate.cpp uses them *)

Inductive Color : Type := WHITE | BLACK.

(** [operator~] on [Color]; evaluate.cpp also spells it
    [Us == WHITE ? BLACK : WHITE]. *)
Definition opp (c : Color) : Color :=
  match c with WHITE => BLACK | BLACK => WHITE end.

Definition Color_eqb (a b : Color) : bool :=
  match a, b with
  | WHITE, WHITE | BLACK, BLACK => true
  | _, _ => false
  end.

(** The slots of [attackedBy[color][...]].  In types.h [ALL_PIECES] and
    [NO_PIECE_TYPE] are the same enumerator value, 0. *)
Inductive PieceType : Type :=
  | ALL_PIECES | PAWN | KNIGHT | BISHOP | ROOK | QUEEN | KING | QUEEN_DIAGONAL.

Definition NO_PIECE_TYPE : PieceType := ALL_PIECES.

Definition PieceType_idx (pt : PieceType) : Z :=
  match pt with
  | ALL_PIECES => 0 | PAWN => 1 | KNIGHT => 2 | BISHOP => 3
  | ROOK => 4 | QUEEN => 5 | KING => 6 | QUEEN_DIAGONAL => 7
  end.

Definition PieceType_eqb (a b : PieceType) : bool :=
  PieceType_idx a =? PieceType_idx b.

(** The variants, in the order in which the per-variant tables of
    evaluate.cpp list their rows. *)
Inductive Variant : Type :=
  | CHESS_VARIANT | ANTI_VARIANT | ATOMIC_VARIANT | CRAZYHOUSE_VARIANT
  | EXTINCTION_VARIANT | GRID_VARIANT | HORDE_VARIANT | KOTH_VARIANT
  | LOSERS_VARIANT | RACE_VARIANT | RELAY_VARIANT | THREECHECK_VARIANT
  | TWOKINGS_VARIANT.

Definition Variant_idx (v : Variant) : nat :=
  match v with
  | CHESS_VARIANT => 0 | ANTI_VARIANT => 1 | ATOMIC_VARIANT => 2
  | CRAZYHOUSE_VARIANT => 3 | EXTINCTION_VARIANT => 4 | GRID_VARIANT => 5
  | HORDE_VARIANT => 6 | KOTH_VARIANT => 7 | LOSERS_VARIANT => 8
  | RACE_VARIANT => 9 | RELAY_VARIANT => 10 | THREECHECK_VARIANT => 11
  | TWOKINGS_VARIANT => 12
  end%nat.

Definition Variant_eqb (a b : Variant) : bool :=
  Nat.eqb (Variant_idx a) (Variant_idx b).

Definition Value := Z.
Definition Square := Z.
Definition Bitboard := Z.

Definition SQ_NONE : Square := 64.

(** C++ integer division and [bool]-to-[int] conversion. *)
Definition cdiv (a b : Z) : Z := Z.quot a b.
Definition b2z (b : bool) : Z := if b then 1 else 0.

(** ** Score *)

(** Modelled from the spec: the type [Score] and its operators live in
    types.h, which is not among the sources.  The specification describes it
    as "a packed pair (mg, eg) of 16-bit signed components manipulated by
    component-wise addition and by multiplication by small integers";
    division by an integer is component-wise C division.  The model does not
    pack: it keeps the two halves as unbounded integers.  Sums, differences
    and products of packed scores are the packed sums, differences and
    products of the halves, so the model has the halves of the code for
    every [Score] whose halves lie within 16 bits ([score_fits] below);
    beyond that the halves that the code reads back wrap around, and the
    model's do not. *)
Record Score : Type := make_score { mg_value : Value; eg_value : Value }.

Definition SCORE_ZERO : Score := make_score 0 0.

Definition score_add (a b : Score) : Score :=
  make_score (mg_value a + mg_value b) (eg_value a + eg_value b).
Definition score_sub (a b : Score) : Score :=
  make_score (mg_value a - mg_value b) (eg_value a - eg_value b).
Definition score_mul (a : Score) (i : Z) : Score :=
  make_score (mg_value a * i) (eg_value a * i).
Definition score_div (a : Score) (i : Z) : Score :=
  make_score (cdiv (mg_value a) i) (cdiv (eg_value a) i).

Infix "+!" := score_add (at level 50, left associativity).
Infix "-!" := score_sub (at level 50, left associativity).
Infix "*!" := score_mul (at level 40, left associativity).
Infix "/!" := score_div (at level 40, left associativity).


(** ** Bitboards *)

Definition All64 : Bitboard := 0xFFFFFFFFFFFFFFFF.

(** [~b], [b << n] and [b >> n] on [uint64_t]. *)
Definition bb_not (b : Bitboard) : Bitboard := Z.land (Z.lnot b) All64.
Definition shl (b : Bitboard) (n : Z) : Bitboard := Z.land (Z.shiftl b n) All64.
Definition shr (b : Bitboard) (n : Z) : Bitboard := Z.shiftr b n.

(** A bitboard in a condition: non-zero is true. *)
Definition nz (b : Bitboard) : bool := negb (b =? 0).

Fixpoint popcount_pos (p : positive) : Z :=
  match p with
  | xH => 1
  | xO q => popcount_pos q
  | xI q => 1 + popcount_pos q
  end.

(** Modelled from the spec: [popcount] is a primitive of bitboard.h, which
    is not among the sources; it counts the bits set in a bitboard. *)
Definition popcount (b : Bitboard) : Z :=
  match b with
  | Zpos p => popcount_pos p
  | _ => 0
  end.

(** Modelled from the spec: [more_than_one] is a primitive of bitboard.h,
    which is not among the sources; it tells whether at least two bits are
    set, computed as [b & (b - 1)]. *)
Definition more_than_one (b : Bitboard) : bool := nz (Z.land b (b - 1)).

(** Modelled from the spec: the file and rank masks of bitboard.h, which is
    not among the sources.  Square A1 is bit 0, H1 bit 7, A8 bit 56, the
    layout that the four-bit shifts in [evaluate_king] rely on. *)
Definition FileABB : Bitboard := 0x0101010101010101.
Definition FileBBB : Bitboard := Z.shiftl FileABB 1.
Definition FileCBB : Bitboard := Z.shiftl FileABB 2.
Definition FileDBB : Bitboard := Z.shiftl FileABB 3.
Definition FileEBB : Bitboard := Z.shiftl FileABB 4.
Definition FileFBB : Bitboard := Z.shiftl FileABB 5.
Definition FileGBB : Bitboard := Z.shiftl FileABB 6.
Definition FileHBB : Bitboard := Z.shiftl FileABB 7.

Definition Rank1BB : Bitboard := 0xFF.
Definition Rank2BB : Bitboard := Z.shiftl Rank1BB 8.
Definition Rank3BB : Bitboard := Z.shiftl Rank1BB 16.
Definition Rank4BB : Bitboard := Z.shiftl Rank1BB 24.
Definition Rank5BB : Bitboard := Z.shiftl Rank1BB 32.
Definition Rank6BB : Bitboard := Z.shiftl Rank1BB 40.
Definition Rank7BB : Bitboard := Z.shiftl Rank1BB 48.
Definition Rank8BB : Bitboard := Z.shiftl Rank1BB 56.

Definition AllSquares : Bitboard := All64.

(** Modelled from the spec: [SquareBB[s]], used whenever evaluate.cpp
    combines a [Bitboard] with a [Square] ([b & s], [b | s]). *)
Definition SquareBB (s : Square) : Bitboard := Z.shiftl 1 s.

(** Modelled from the spec: [file_of], [rank_of], [relative_rank] and
    [relative_square] of types.h, for the layout above.  Files and ranks
    are numbered from 0 ([FILE_A], [RANK_1]). *)
Definition file_of (s : Square) : Z := Z.land s 7.
Definition rank_of (s : Square) : Z := Z.shiftr s 3.
Definition relative_rank_r (c : Color) (r : Z) : Z :=
  match c with WHITE => r | BLACK => Z.lxor r 7 end.
Definition relative_rank (c : Color) (s : Square) : Z :=
  relative_rank_r c (rank_of s).
Definition relative_square (c : Color) (s : Square) : Square :=
  match c with WHITE => s | BLACK => Z.lxor s 56 end.

Definition FileBB (f : Z) : Bitboard := Z.shiftl FileABB f.
Definition RankBB (r : Z) : Bitboard := Z.shiftl Rank1BB (8 * r).
Definition file_bb (f : Z) : Bitboard := FileBB f.
Definition rank_bb (r : Z) : Bitboard := RankBB r.

(** Modelled from the spec: the directional shifts [shift<D>] of
    bitboard.h. *)
Inductive Direction : Type :=
  | NORTH | SOUTH | NORTH_EAST | SOUTH_EAST | NORTH_WEST | SOUTH_WEST.

Definition shift (d : Direction) (b : Bitboard) : Bitboard :=
  match d with
  | NORTH => shl b 8
  | SOUTH => shr b 8
  | NORTH_EAST => shl (Z.land b (bb_not FileHBB)) 9
  | SOUTH_EAST => shr (Z.land b (bb_not FileHBB)) 7
  | NORTH_WEST => shl (Z.land b (bb_not FileABB)) 7
  | SOUTH_WEST => shr (Z.land b (bb_not FileABB)) 9
  end.

(** Modelled from the spec: [pawn_push] of types.h, the square offset of a
    pawn move ([NORTH] is +8, [SOUTH] is -8). *)
Definition pawn_push (c : Color) : Z :=
  match c with WHITE => 8 | BLACK => -8 end.

(** Modelled from the spec: [distance<File>], [distance<Rank>] and
    [distance] (Chebyshev) of bitboard.h. *)
Definition distance_file (a b : Square) : Z := Z.abs (file_of a - file_of b).
Definition distance_rank (a b : Square) : Z := Z.abs (rank_of a - rank_of b).
Definition distance (a b : Square) : Z :=
  Z.max (distance_file a b) (distance_rank a b).

(** The squares of a bitboard in the order in which repeated [pop_lsb]
    delivers them: least significant bit first. *)
Fixpoint squares_pos (p : positive) (i : Z) : list Square :=
  match p with
  | xH => [i]
  | xO q => squares_pos q (i + 1)
  | xI q => i :: squares_pos q (i + 1)
  end.

Definition squares (b : Bitboard) : list Square :=
  match b with
  | Zpos p => squares_pos p 0
  | _ => []
  end.


(** ** The collaborators, as evaluate.cpp queries them *)

(** A [Piece] as [piece_on] returns it; [None] is [NO_PIECE]. *)
Definition Piece : Type := option (Color * PieceType).

Definition make_piece (c : Color) (pt : PieceType) : Piece := Some (c, pt).

Definition type_of (pc : Piece) : PieceType :=
  match pc with Some (_, pt) => pt | None => NO_PIECE_TYPE end.

Definition Piece_eqb (a b : Piece) : bool :=
  match a, b with
  | None, None => true
  | Some (c1, p1), Some (c2, p2) => Color_eqb c1 c2 && PieceType_eqb p1 p2
  | _, _ => false
  end.

(** Modelled from the spec: position.h is not among the sources.  Each field
    is the answer of the position to one of the queries listed in the
    specification ("Required operations on the Position collaborator"). *)
Record Position : Type := {
  byTypeBB : PieceType -> Bitboard;
  byColorBB : Color -> Bitboard;
  squares_of : PieceType -> Color -> list Square;  (* squares<Pt>(c) *)
  square_KING : Color -> Square;                   (* square<KING>(c) *)
  piece_on : Square -> Piece;
  count : PieceType -> Color -> Z;                 (* count<Pt>(c) *)
  count_in_hand : PieceType -> Color -> Z;
  attacks_from : PieceType -> Square -> Bitboard;  (* attacks_from<Pt>(s) *)
  attackers_to : Square -> Bitboard;
  pinned_pieces : Color -> Bitboard;
  slider_blockers : Bitboard -> Square -> Bitboard;
  side_to_move : Color;
  can_castle : Color -> bool;
  is_chess960 : bool;
  variant : Variant;
  checks_given : Color -> Z;
  is_horde_color : Color -> bool;
  grid_bb : Square -> Bitboard;
  opposite_bishops : bool;
  pawn_passed : Color -> Square -> bool;
  non_pawn_material_c : Color -> Value;            (* non_pawn_material(c) *)
  psq_score : Score;
  checkers : Bitboard;
  is_variant_end : bool;
  variant_result : Value
}.

(** The overloads of [Position::pieces]. *)
Definition pieces (pos : Position) : Bitboard := byTypeBB pos ALL_PIECES.
Definition pieces_pt (pos : Position) (pt : PieceType) : Bitboard := byTypeBB pos pt.
Definition pieces_pt2 (pos : Position) (pt1 pt2 : PieceType) : Bitboard :=
  Z.lor (byTypeBB pos pt1) (byTypeBB pos pt2).
Definition pieces_c (pos : Position) (c : Color) : Bitboard := byColorBB pos c.
Definition pieces_c_pt (pos : Position) (c : Color) (pt : PieceType) : Bitboard :=
  Z.land (byColorBB pos c) (byTypeBB pos pt).
Definition pieces_c_pt2 (pos : Position) (c : Color) (pt1 pt2 : PieceType) : Bitboard :=
  Z.land (byColorBB pos c) (Z.lor (byTypeBB pos pt1) (byTypeBB pos pt2)).

Definition empty (pos : Position) (s : Square) : bool :=
  Piece_eqb (piece_on pos s) None.

(** [count<Pt>()] and [non_pawn_material()] without a colour: both sides. *)
Definition count_both (pos : Position) (pt : PieceType) : Z :=
  count pos pt WHITE + count pos pt BLACK.
Definition non_pawn_material (pos : Position) : Value :=
  non_pawn_material_c pos WHITE + non_pawn_material_c pos BLACK.

Definition is_variant (pos : Position) (v : Variant) : bool :=
  Variant_eqb (variant pos) v.
Definition is_anti (pos : Position) : bool := is_variant pos ANTI_VARIANT.
Definition is_atomic (pos : Position) : bool := is_variant pos ATOMIC_VARIANT.
Definition is_house (pos : Position) : bool := is_variant pos CRAZYHOUSE_VARIANT.
Definition is_extinction (pos : Position) : bool := is_variant pos EXTINCTION_VARIANT.
Definition is_grid (pos : Position) : bool := is_variant pos GRID_VARIANT.
Definition is_horde (pos : Position) : bool := is_variant pos HORDE_VARIANT.
Definition is_koth (pos : Position) : bool := is_variant pos KOTH_VARIANT.
Definition is_losers (pos : Position) : bool := is_variant pos LOSERS_VARIANT.
Definition is_race (pos : Position) : bool := is_variant pos RACE_VARIANT.
Definition is_three_check (pos : Position) : bool := is_variant pos THREECHECK_VARIANT.

(** Modelled from the spec: material.h is not among the sources.  The fields
    are the operations the specification requires of a material-table entry,
    already applied to the position. *)
Record MaterialEntry : Type := {
  specialized_eval_exists : bool;
  me_evaluate : Value;                 (* me->evaluate(pos) *)
  imbalance : Score;
  scale_factor : Color -> Z;           (* me->scale_factor(pos, c) *)
  game_phase : Z
}.

(** Modelled from the spec: pawns.h is not among the sources.  The fields are
    the operations the specification requires of a pawn-table entry. *)
Record PawnEntry : Type := {
  pawn_attacks : Color -> Bitboard;
  pawn_attacks_span : Color -> Bitboard;
  passed_pawns : Color -> Bitboard;
  king_safety : Color -> Square -> Score;   (* pe->king_safety<Us>(pos, ksq) *)
  pawns_score : Score;
  semiopen_file : Color -> Z -> bool;
  semiopen_side : Color -> Z -> bool -> bool;
  weak_unopposed : Color -> Z;
  open_files : Z;
  pawn_asymmetry : Z;
  pawns_on_same_color_squares : Color -> Square -> Z
}.

(** What evaluate.cpp takes from bitboard.cpp, types.h, material.cpp and
    pawns.cpp and from the engine's globals: the attack tables, the piece
    values, the two scale-factor sentinels, the two hash-table probes, the
    contempt and the tempo. *)
Record Extern : Type := {
  attacks_bb : PieceType -> Square -> Bitboard -> Bitboard;
  PseudoAttacks : PieceType -> Square -> Bitboard;
  LineBB : Square -> Square -> Bitboard;
  DistanceRingBB : Square -> Z -> Bitboard;
  forward_file_bb : Color -> Square -> Bitboard;
  KnightValueMg : Value;
  BishopValueMg : Value;
  BishopValueEg : Value;
  RookValueMg : Value;
  QueenValueMg : Value;
  SCALE_FACTOR_ONEPAWN : Z;
  Material_probe : Position -> MaterialEntry;
  Pawns_probe : Position -> PawnEntry;
  Contempt : Score;
  Tempo : Variant -> Value
}.

(** Modelled from the spec: [SCALE_FACTOR_NORMAL], [PHASE_MIDGAME] and
    [VALUE_DRAW] of types.h ("normal = 64", "midgame (128)"). *)
Definition SCALE_FACTOR_NORMAL : Z := 64.
Definition PHASE_MIDGAME : Z := 128.
Definition VALUE_DRAW : Value := 0.

(** ** The parameter tables of evaluate.cpp *)

(** Table look-up.  A C++ array shorter than its declared bound is
    zero-filled, which the default of [nth] reproduces. *)
Definition at1 {A : Type} (d : A) (t : list A) (i : Z) : A :=
  nth (Z.to_nat i) t d.
Definition at2 {A : Type} (d : A) (t : list (list A)) (i j : Z) : A :=
  at1 d (at1 [] t i) j.
Definition at3 {A : Type} (d : A) (t : list (list (list A))) (i j k : Z) : A :=
  at2 d (at1 [] t i) j k.

Definition vidx (v : Variant) : Z := Z.of_nat (Variant_idx v).

Definition ThreeCheckKSFactors : list Z :=
  [571; 619; 858; 0].

Definition LazyThreshold : Value := 1500.

Definition SpaceThreshold : list Value :=
  [12222; 12222; 12222; 12222; 12222; 12222; 0; 0; 12222; 12222; 12222;
   12222; 12222].

Definition MobilityBonus : list (list (list Score)) :=
  [
    [
      [make_score (-75) (-76); make_score (-57) (-54); make_score (-9) (-28);
       make_score (-2) (-10); make_score 6 5; make_score 14 12;
       make_score 22 26; make_score 29 29; make_score 36 29];
      [make_score (-48) (-59); make_score (-20) (-23); make_score 16 (-3);
       make_score 26 13; make_score 38 24; make_score 51 42;
       make_score 55 54; make_score 63 57; make_score 63 65;
       make_score 68 73; make_score 81 78; make_score 81 86;
       make_score 91 88; make_score 98 97];
      [make_score (-58) (-76); make_score (-27) (-18); make_score (-15) 28;
       make_score (-10) 55; make_score (-5) 69; make_score (-2) 82;
       make_score 9 112; make_score 16 118; make_score 30 132;
       make_score 29 142; make_score 32 155; make_score 38 165;
       make_score 46 166; make_score 48 169; make_score 58 171];
      [make_score (-39) (-36); make_score (-21) (-15); make_score 3 8;
       make_score 3 18; make_score 14 34; make_score 22 54; make_score 28 61;
       make_score 41 73; make_score 43 79; make_score 48 92;
       make_score 56 94; make_score 60 104; make_score 60 113;
       make_score 66 120; make_score 67 123; make_score 70 126;
       make_score 71 133; make_score 73 136; make_score 79 140;
       make_score 88 143; make_score 88 148; make_score 99 166;
       make_score 102 170; make_score 102 175; make_score 106 184;
       make_score 109 191; make_score 113 206; make_score 116 212]
    ];
    [
      [make_score (-150) (-152); make_score (-112) (-108);
       make_score (-18) (-52); make_score (-4) (-20); make_score 12 10;
       make_score 30 22; make_score 44 52; make_score 60 56; make_score 72 58];
      [make_score (-96) (-116); make_score (-42) (-38); make_score 32 (-4);
       make_score 52 24; make_score 74 44; make_score 102 84;
       make_score 108 108; make_score 126 116; make_score 130 126;
       make_score 142 140; make_score 158 148; make_score 162 172;
       make_score 184 180; make_score 194 188];
      [make_score (-112) (-156); make_score (-50) (-36); make_score (-22) 52;
       make_score (-10) 110; make_score (-8) 140; make_score (-2) 162;
       make_score 16 218; make_score 28 240; make_score 42 256;
       make_score 46 286; make_score 62 308; make_score 64 320;
       make_score 86 330; make_score 98 336; make_score 118 338];
      [make_score (-80) (-70); make_score (-50) (-24); make_score 4 14;
       make_score 8 38; make_score 28 74; make_score 48 110;
       make_score 50 124; make_score 80 152; make_score 86 158;
       make_score 94 174; make_score 108 188; make_score 112 204;
       make_score 120 222; make_score 140 232; make_score 144 236;
       make_score 146 244; make_score 150 256; make_score 154 260;
       make_score 170 266; make_score 188 272; make_score 198 280;
       make_score 216 314; make_score 224 316; make_score 226 322;
       make_score 236 348; make_score 238 354; make_score 246 382;
       make_score 256 398]
    ];
    [
      [make_score (-85) (-78); make_score (-78) (-63);
       make_score (-35) (-40); make_score (-2) (-24); make_score 14 8;
       make_score 23 25; make_score 39 26; make_score 30 23; make_score 36 29];
      [make_score (-55) (-64); make_score (-17) (-34); make_score 13 (-9);
       make_score 24 20; make_score 22 25; make_score 57 38;
       make_score 32 52; make_score 67 66; make_score 52 52;
       make_score 57 74; make_score 73 77; make_score 85 81;
       make_score 92 90; make_score 110 86];
      [make_score (-60) (-73); make_score (-33) (-28); make_score (-18) 9;
       make_score (-19) 30; make_score (-19) 58; make_score 20 77;
       make_score 12 106; make_score 11 133; make_score 21 134;
       make_score 33 165; make_score 34 169; make_score 39 183;
       make_score 25 171; make_score 61 181; make_score 58 158];
      [make_score (-43) (-43); make_score (-14) (-16); make_score (-5) 1;
       make_score 0 23; make_score 6 24; make_score 24 58; make_score 20 55;
       make_score 31 67; make_score 47 90; make_score 28 79;
       make_score 47 89; make_score 69 104; make_score 64 111;
       make_score 75 128; make_score 72 114; make_score 48 132;
       make_score 58 130; make_score 76 134; make_score 84 124;
       make_score 109 131; make_score 114 143; make_score 103 140;
       make_score 105 146; make_score 109 165; make_score 116 156;
       make_score 127 176; make_score 130 174; make_score 129 204]
    ];
    [
      [make_score (-126) (-96); make_score (-103) (-31);
       make_score (-90) (-27); make_score (-40) 3; make_score 0 3;
       make_score 4 0; make_score 20 12; make_score 15 33; make_score 50 46];
      [make_score (-156) (-79); make_score (-115) (-43); make_score 42 (-14);
       make_score 35 26; make_score 64 26; make_score 74 38;
       make_score 70 46; make_score 83 71; make_score 70 68;
       make_score 66 80; make_score 64 68; make_score 70 77;
       make_score 97 92; make_score 89 98];
      [make_score (-53) (-53); make_score (-22) (-8); make_score (-48) 30;
       make_score (-14) 57; make_score (-4) 77; make_score 11 87;
       make_score 7 115; make_score 12 123; make_score 27 120;
       make_score 6 140; make_score 55 156; make_score 18 161;
       make_score 51 161; make_score 54 171; make_score 52 166];
      [make_score (-26) (-56); make_score (-24) (-14); make_score 7 14;
       make_score 8 15; make_score 18 34; make_score 14 41; make_score 28 58;
       make_score 33 66; make_score 40 70; make_score 47 74;
       make_score 50 100; make_score 52 106; make_score 59 111;
       make_score 50 95; make_score 60 115; make_score 61 126;
       make_score 75 144; make_score 82 119; make_score 95 137;
       make_score 102 138; make_score 100 142; make_score 119 154;
       make_score 129 156; make_score 107 156; make_score 111 177;
       make_score 115 181; make_score 124 197; make_score 124 199]
    ];
    [
      [make_score (-123) (-90); make_score (-91) (-32);
       make_score (-61) (-29); make_score (-38) 3; make_score 0 3;
       make_score 4 0; make_score 19 12; make_score 15 33; make_score 52 45];
      [make_score (-153) (-80); make_score (-112) (-41); make_score 41 (-14);
       make_score 35 24; make_score 62 26; make_score 75 41;
       make_score 72 48; make_score 85 74; make_score 74 65;
       make_score 66 79; make_score 64 69; make_score 73 80;
       make_score 107 92; make_score 96 101];
      [make_score (-59) (-51); make_score (-20) (-8); make_score (-54) 32;
       make_score (-15) 54; make_score (-4) 70; make_score 11 84;
       make_score 6 113; make_score 13 123; make_score 27 114;
       make_score 6 144; make_score 60 162; make_score 19 162;
       make_score 48 170; make_score 57 170; make_score 52 177];
      [make_score (-27) (-56); make_score (-24) (-14); make_score 7 13;
       make_score 9 16; make_score 18 37; make_score 14 40; make_score 29 56;
       make_score 34 64; make_score 39 73; make_score 49 65;
       make_score 50 98; make_score 50 106; make_score 60 107;
       make_score 53 92; make_score 62 119; make_score 69 130;
       make_score 77 145; make_score 84 120; make_score 90 153;
       make_score 98 131; make_score 106 139; make_score 116 147;
       make_score 127 157; make_score 112 154; make_score 121 174;
       make_score 124 167; make_score 126 194; make_score 130 190]
    ];
    [
      [make_score (-75) (-76); make_score (-57) (-54); make_score (-9) (-28);
       make_score (-2) (-10); make_score 6 5; make_score 14 12;
       make_score 22 26; make_score 29 29; make_score 36 29];
      [make_score (-48) (-59); make_score (-20) (-23); make_score 16 (-3);
       make_score 26 13; make_score 38 24; make_score 51 42;
       make_score 55 54; make_score 63 57; make_score 63 65;
       make_score 68 73; make_score 81 78; make_score 81 86;
       make_score 91 88; make_score 98 97];
      [make_score (-58) (-76); make_score (-27) (-18); make_score (-15) 28;
       make_score (-10) 55; make_score (-5) 69; make_score (-2) 82;
       make_score 9 112; make_score 16 118; make_score 30 132;
       make_score 29 142; make_score 32 155; make_score 38 165;
       make_score 46 166; make_score 48 169; make_score 58 171];
      [make_score (-39) (-36); make_score (-21) (-15); make_score 3 8;
       make_score 3 18; make_score 14 34; make_score 22 54; make_score 28 61;
       make_score 41 73; make_score 43 79; make_score 48 92;
       make_score 56 94; make_score 60 104; make_score 60 113;
       make_score 66 120; make_score 67 123; make_score 70 126;
       make_score 71 133; make_score 73 136; make_score 79 140;
       make_score 88 143; make_score 88 148; make_score 99 166;
       make_score 102 170; make_score 102 175; make_score 106 184;
       make_score 109 191; make_score 113 206; make_score 116 212]
    ];
    [
      [make_score (-126) (-90); make_score (-7) (-22);
       make_score (-46) (-25); make_score 19 7; make_score (-53) 71;
       make_score 31 (-1); make_score (-6) 51; make_score (-12) 47;
       make_score (-9) (-56)];
      [make_score (-46) (-2); make_score 30 66; make_score 18 (-27);
       make_score 86 21; make_score 65 11; make_score 147 45;
       make_score 98 38; make_score 95 52; make_score 122 45;
       make_score 95 33; make_score 89 103; make_score 85 (-9);
       make_score 105 70; make_score 131 82];
      [make_score (-56) (-78); make_score (-25) (-18); make_score (-11) 26;
       make_score (-5) 55; make_score (-4) 70; make_score (-1) 81;
       make_score 8 109; make_score 14 120; make_score 21 128;
       make_score 23 143; make_score 31 154; make_score 32 160;
       make_score 43 165; make_score 49 168; make_score 59 169];
      [make_score (-40) (-35); make_score (-25) (-12); make_score 2 7;
       make_score 4 19; make_score 14 37; make_score 24 55; make_score 25 62;
       make_score 40 76; make_score 43 79; make_score 47 87;
       make_score 54 94; make_score 56 102; make_score 60 111;
       make_score 70 116; make_score 72 118; make_score 73 122;
       make_score 75 128; make_score 77 130; make_score 85 133;
       make_score 94 136; make_score 99 140; make_score 108 157;
       make_score 112 158; make_score 113 161; make_score 118 174;
       make_score 119 177; make_score 123 191; make_score 128 199]
    ];
    [
      [make_score (-75) (-76); make_score (-56) (-54); make_score (-9) (-26);
       make_score (-2) (-10); make_score 6 5; make_score 15 11;
       make_score 22 26; make_score 30 28; make_score 36 29];
      [make_score (-48) (-58); make_score (-21) (-19); make_score 16 (-2);
       make_score 26 12; make_score 37 22; make_score 51 42;
       make_score 54 54; make_score 63 58; make_score 65 63;
       make_score 71 70; make_score 79 74; make_score 81 86;
       make_score 92 90; make_score 97 94];
      [make_score (-56) (-78); make_score (-25) (-18); make_score (-11) 26;
       make_score (-5) 55; make_score (-4) 70; make_score (-1) 81;
       make_score 8 109; make_score 14 120; make_score 21 128;
       make_score 23 143; make_score 31 154; make_score 32 160;
       make_score 43 165; make_score 49 168; make_score 59 169];
      [make_score (-40) (-35); make_score (-25) (-12); make_score 2 7;
       make_score 4 19; make_score 14 37; make_score 24 55; make_score 25 62;
       make_score 40 76; make_score 43 79; make_score 47 87;
       make_score 54 94; make_score 56 102; make_score 60 111;
       make_score 70 116; make_score 72 118; make_score 73 122;
       make_score 75 128; make_score 77 130; make_score 85 133;
       make_score 94 136; make_score 99 140; make_score 108 157;
       make_score 112 158; make_score 113 161; make_score 118 174;
       make_score 119 177; make_score 123 191; make_score 128 199]
    ];
    [
      [make_score (-150) (-152); make_score (-112) (-108);
       make_score (-18) (-52); make_score (-4) (-20); make_score 12 10;
       make_score 30 22; make_score 44 52; make_score 60 56; make_score 72 58];
      [make_score (-96) (-116); make_score (-42) (-38); make_score 32 (-4);
       make_score 52 24; make_score 74 44; make_score 102 84;
       make_score 108 108; make_score 126 116; make_score 130 126;
       make_score 142 140; make_score 158 148; make_score 162 172;
       make_score 184 180; make_score 194 188];
      [make_score (-112) (-156); make_score (-50) (-36); make_score (-22) 52;
       make_score (-10) 110; make_score (-8) 140; make_score (-2) 162;
       make_score 16 218; make_score 28 240; make_score 42 256;
       make_score 46 286; make_score 62 308; make_score 64 320;
       make_score 86 330; make_score 98 336; make_score 118 338];
      [make_score (-80) (-70); make_score (-50) (-24); make_score 4 14;
       make_score 8 38; make_score 28 74; make_score 48 110;
       make_score 50 124; make_score 80 152; make_score 86 158;
       make_score 94 174; make_score 108 188; make_score 112 204;
       make_score 120 222; make_score 140 232; make_score 144 236;
       make_score 146 244; make_score 150 256; make_score 154 260;
       make_score 170 266; make_score 188 272; make_score 198 280;
       make_score 216 314; make_score 224 316; make_score 226 322;
       make_score 236 348; make_score 238 354; make_score 246 382;
       make_score 256 398]
    ];
    [
      [make_score (-132) (-117); make_score (-89) (-110);
       make_score (-13) (-49); make_score (-11) (-15);
       make_score (-10) (-30); make_score 29 17; make_score 13 32;
       make_score 79 69; make_score 109 79];
      [make_score (-101) (-119); make_score (-19) (-27); make_score 27 (-9);
       make_score 35 30; make_score 62 31; make_score 115 72;
       make_score 91 99; make_score 138 122; make_score 129 119;
       make_score 158 156; make_score 153 162; make_score 143 189;
       make_score 172 181; make_score 196 204];
      [make_score (-131) (-162); make_score (-57) (-37); make_score (-8) 47;
       make_score 12 93; make_score 3 127; make_score 10 139;
       make_score 3 240; make_score 18 236; make_score 44 251;
       make_score 44 291; make_score 49 301; make_score 67 316;
       make_score 100 324; make_score 97 340; make_score 110 324];
      [make_score (-87) (-68); make_score (-73) (-2); make_score (-7) 9;
       make_score (-5) 16; make_score 39 76; make_score 39 118;
       make_score 64 131; make_score 86 169; make_score 86 175;
       make_score 78 166; make_score 97 195; make_score 123 216;
       make_score 137 200; make_score 155 247; make_score 159 260;
       make_score 136 252; make_score 156 279; make_score 160 251;
       make_score 165 251; make_score 194 267; make_score 204 271;
       make_score 216 331; make_score 226 304; make_score 223 295;
       make_score 239 316; make_score 228 365; make_score 240 385;
       make_score 249 377]
    ];
    [
      [make_score (-75) (-76); make_score (-56) (-54); make_score (-9) (-26);
       make_score (-2) (-10); make_score 6 5; make_score 15 11;
       make_score 22 26; make_score 30 28; make_score 36 29];
      [make_score (-48) (-58); make_score (-21) (-19); make_score 16 (-2);
       make_score 26 12; make_score 37 22; make_score 51 42;
       make_score 54 54; make_score 63 58; make_score 65 63;
       make_score 71 70; make_score 79 74; make_score 81 86;
       make_score 92 90; make_score 97 94];
      [make_score (-56) (-78); make_score (-25) (-18); make_score (-11) 26;
       make_score (-5) 55; make_score (-4) 70; make_score (-1) 81;
       make_score 8 109; make_score 14 120; make_score 21 128;
       make_score 23 143; make_score 31 154; make_score 32 160;
       make_score 43 165; make_score 49 168; make_score 59 169];
      [make_score (-40) (-35); make_score (-25) (-12); make_score 2 7;
       make_score 4 19; make_score 14 37; make_score 24 55; make_score 25 62;
       make_score 40 76; make_score 43 79; make_score 47 87;
       make_score 54 94; make_score 56 102; make_score 60 111;
       make_score 70 116; make_score 72 118; make_score 73 122;
       make_score 75 128; make_score 77 130; make_score 85 133;
       make_score 94 136; make_score 99 140; make_score 108 157;
       make_score 112 158; make_score 113 161; make_score 118 174;
       make_score 119 177; make_score 123 191; make_score 128 199]
    ];
    [
      [make_score (-74) (-76); make_score (-55) (-54); make_score (-9) (-26);
       make_score (-2) (-10); make_score 6 5; make_score 15 11;
       make_score 22 26; make_score 31 27; make_score 37 29];
      [make_score (-49) (-56); make_score (-23) (-18); make_score 15 (-2);
       make_score 25 12; make_score 36 22; make_score 50 42;
       make_score 53 54; make_score 64 57; make_score 67 63;
       make_score 71 68; make_score 84 76; make_score 79 87;
       make_score 95 91; make_score 98 93];
      [make_score (-57) (-76); make_score (-25) (-18); make_score (-11) 25;
       make_score (-5) 53; make_score (-4) 70; make_score (-1) 78;
       make_score 8 111; make_score 14 116; make_score 22 125;
       make_score 24 148; make_score 31 159; make_score 31 173;
       make_score 44 163; make_score 50 162; make_score 56 168];
      [make_score (-42) (-35); make_score (-25) (-12); make_score 2 7;
       make_score 4 19; make_score 14 37; make_score 24 53; make_score 26 63;
       make_score 39 80; make_score 42 77; make_score 48 88;
       make_score 53 96; make_score 57 96; make_score 61 108;
       make_score 71 116; make_score 70 116; make_score 74 125;
       make_score 75 133; make_score 78 133; make_score 85 137;
       make_score 97 135; make_score 103 141; make_score 107 165;
       make_score 109 153; make_score 115 162; make_score 119 164;
       make_score 121 184; make_score 121 192; make_score 131 203]
    ];
    [
      [make_score (-75) (-76); make_score (-57) (-54); make_score (-9) (-28);
       make_score (-2) (-10); make_score 6 5; make_score 14 12;
       make_score 22 26; make_score 29 29; make_score 36 29];
      [make_score (-48) (-59); make_score (-20) (-23); make_score 16 (-3);
       make_score 26 13; make_score 38 24; make_score 51 42;
       make_score 55 54; make_score 63 57; make_score 63 65;
       make_score 68 73; make_score 81 78; make_score 81 86;
       make_score 91 88; make_score 98 97];
      [make_score (-58) (-76); make_score (-27) (-18); make_score (-15) 28;
       make_score (-10) 55; make_score (-5) 69; make_score (-2) 82;
       make_score 9 112; make_score 16 118; make_score 30 132;
       make_score 29 142; make_score 32 155; make_score 38 165;
       make_score 46 166; make_score 48 169; make_score 58 171];
      [make_score (-39) (-36); make_score (-21) (-15); make_score 3 8;
       make_score 3 18; make_score 14 34; make_score 22 54; make_score 28 61;
       make_score 41 73; make_score 43 79; make_score 48 92;
       make_score 56 94; make_score 60 104; make_score 60 113;
       make_score 66 120; make_score 67 123; make_score 70 126;
       make_score 71 133; make_score 73 136; make_score 79 140;
       make_score 88 143; make_score 88 148; make_score 99 166;
       make_score 102 170; make_score 102 175; make_score 106 184;
       make_score 109 191; make_score 113 206; make_score 116 212]
    ]
  ].

Definition Outpost : list (list Score) :=
  [
    [make_score 22 6; make_score 36 12];
    [make_score 9 2; make_score 15 5]
  ].

Definition RookOnFile : list Score :=
  [make_score 20 7; make_score 45 20].

Definition ThreatByMinor : list Score :=
  [make_score 0 0; make_score 0 33; make_score 45 43; make_score 46 47;
   make_score 72 107; make_score 48 118].

Definition ThreatByRook : list Score :=
  [make_score 0 0; make_score 0 25; make_score 40 62; make_score 40 59;
   make_score 0 34; make_score 35 48].

Definition ThreatByKing : list Score :=
  [make_score 3 62; make_score 9 138].

Definition Passed : list (list (list Value)) :=
  [
    [
      [5; 5; 31; 73; 166; 252];
      [7; 14; 38; 73; 166; 252]
    ];
    [
      [5; 5; 31; 73; 166; 252];
      [7; 14; 38; 73; 166; 252]
    ];
    [
      [95; 118; 94; 142; 196; 204];
      [86; 43; 61; 62; 150; 256]
    ];
    [
      [15; 23; 13; 88; 177; 229];
      [27; 13; 19; 111; 140; 203]
    ];
    [
      [5; 5; 31; 73; 166; 252];
      [7; 14; 38; 73; 166; 252]
    ];
    [
      [11; 4; 27; 58; 168; 251];
      [2; 0; 34; 17; 165; 253]
    ];
    [
      [(-66); (-25); 66; 68; 72; 250];
      [10; 7; (-12); 81; 210; 258]
    ];
    [
      [5; 5; 31; 73; 166; 252];
      [7; 14; 38; 73; 166; 252]
    ];
    [
      [5; 5; 31; 73; 166; 252];
      [7; 14; 38; 73; 166; 252]
    ];
    [];
    [
      [5; 5; 31; 73; 166; 252];
      [7; 14; 38; 73; 166; 252]
    ];
    [
      [5; 5; 31; 73; 166; 252];
      [7; 14; 38; 73; 166; 252]
    ];
    [
      [5; 5; 31; 73; 166; 252];
      [7; 14; 38; 73; 166; 252]
    ]
  ].

(** Modelled from the spec: [RANK_NB] of types.h, the number of ranks. *)
Definition RANK_NB : Z := 8.

(** A list filled up to [n] elements, as an initialiser shorter than its
    array is. *)
Definition filled {A : Type} (d : A) (n : nat) (l : list A) : list A :=
  l ++ repeat d (n - length l).

(** [Passed] as it lies in memory: [Passed[VARIANT_NB][2][RANK_NB]] is one
    block of values, each row of six bonuses filled with zeros up to
    [RANK_NB], and the empty initialiser of the Race variant with two rows
    of zeros. *)
Definition Passed_block : list Value :=
  concat (map (fun rows => concat (map (filled 0 8) (filled [] 2 rows))) Passed).

(** The look-up [Passed[v][p][r]] as the code makes it, without a bounds
    check: [r] is [relative_rank(Us, s) - RANK_2], which is -1 for a Horde
    pawn on its own first rank, and the element read is then the last one of
    the row before, a zero of the filling.  Only for the first row of the
    first variant does -1 leave the block; standard chess has no pawn on a
    first rank, and the model answers 0 there as well. *)
Definition Passed_at (v p r : Z) : Value :=
  let i := (v * 2 + p) * RANK_NB + r in
  if i <? 0 then 0 else at1 0 Passed_block i.

Definition ChecksGivenBonus : list Score :=
  [make_score 0 0; make_score 444 181; make_score 2425 603; make_score 0 0].

Definition KothDistanceBonus : list Score :=
  [make_score 1949 1934; make_score 454 364; make_score 151 158;
   make_score 75 85; make_score 42 49; make_score 0 0].

Definition KothSafeCenter : Score := make_score 163 207.

Definition PieceCountAnti : Score := make_score 119 123.

Definition ThreatsAnti : list Score :=
  [make_score 192 203; make_score 411 322].

Definition AttacksAnti : list (list (list Score)) :=
  [
    [
      [make_score 30 141; make_score 26 94; make_score 161 105;
       make_score 70 123; make_score 61 72; make_score 78 12;
       make_score 139 115];
      [make_score 56 89; make_score 82 107; make_score 114 93;
       make_score 110 115; make_score 188 112; make_score 73 59;
       make_score 122 59]
    ];
    [
      [make_score 119 142; make_score 99 105; make_score 123 193;
       make_score 142 37; make_score 118 96; make_score 50 12;
       make_score 91 85];
      [make_score 58 81; make_score 66 110; make_score 105 153;
       make_score 100 143; make_score 140 113; make_score 145 73;
       make_score 153 154]
    ]
  ].

Definition ThreatsLosers : list Score :=
  [make_score 216 279; make_score 441 341].

Definition AttacksLosers : list (list (list Score)) :=
  [
    [
      [make_score 27 140; make_score 23 95; make_score 160 112;
       make_score 78 129; make_score 65 75; make_score 70 13;
       make_score 146 123];
      [make_score 58 82; make_score 80 112; make_score 124 87;
       make_score 103 110; make_score 185 107; make_score 72 60;
       make_score 126 62]
    ];
    [
      [make_score 111 127; make_score 102 95; make_score 121 183;
       make_score 140 37; make_score 120 99; make_score 55 11;
       make_score 88 93];
      [make_score 56 69; make_score 72 124; make_score 109 154;
       make_score 98 149; make_score 129 113; make_score 147 72;
       make_score 157 152]
    ]
  ].

Definition KingDangerInHand : list Z :=
  [79; 16; 200; 61; 138; 152].

Definition KingRaceBonus : list Score :=
  [make_score 14282 14493; make_score 6369 5378; make_score 4224 3557;
   make_score 2633 2219; make_score 1614 1456; make_score 975 885;
   make_score 528 502; make_score 0 0].

Definition PassedFile : list Score :=
  [make_score 9 10; make_score 2 10; make_score 1 (-8);
   make_score (-20) (-12); make_score (-20) (-12); make_score 1 (-8);
   make_score 2 10; make_score 9 10].

Definition KingProtector : list Score :=
  [make_score (-3) (-5); make_score (-4) (-3); make_score (-3) 0;
   make_score (-1) 1].

Definition MinorBehindPawn : Score := make_score 16 0.

Definition BishopPawns : Score := make_score 8 12.

Definition LongRangedBishop : Score := make_score 22 0.

Definition RookOnPawn : Score := make_score 8 24.

Definition TrappedRook : Score := make_score 92 0.

Definition WeakQueen : Score := make_score 50 10.

Definition CloseEnemies : list Score :=
  [make_score 7 0; make_score 0 0; make_score 17 0; make_score 14 20;
   make_score 0 0; make_score 7 0; make_score 7 0; make_score 7 0;
   make_score 7 0; make_score 0 0; make_score 7 0; make_score 16 9;
   make_score 7 0].

Definition PawnlessFlank : Score := make_score 20 80.

Definition ThreatByHangingPawn : Score := make_score 71 61.

Definition ThreatBySafePawn : Score := make_score 192 175.

Definition ThreatByRank : Score := make_score 16 3.

Definition Hanging : Score := make_score 48 27.

Definition WeakUnopposedPawn : Score := make_score 5 25.

Definition ThreatByPawnPush : Score := make_score 38 22.

Definition ThreatByAttackOnQueen : Score := make_score 38 22.

Definition HinderPassedPawn : Score := make_score 7 0.

Definition TrappedBishopA1H1 : Score := make_score 50 50.

Definition KingAttackWeights : list (list Z) :=
  [
    [0; 0; 78; 56; 45; 11];
    [];
    [0; 0; 76; 64; 46; 11];
    [0; 0; 112; 87; 63; 2];
    [];
    [0; 0; 89; 62; 47; 11];
    [0; 0; 78; 56; 45; 11];
    [0; 0; 76; 48; 44; 10];
    [0; 0; 78; 56; 45; 11];
    [];
    [0; 0; 78; 56; 45; 11];
    [0; 0; 115; 64; 62; 35];
    [0; 0; 78; 56; 45; 11]
  ].

Definition KingDangerParams : list (list Z) :=
  [
    [102; 191; 143; (-848); (-9); 40; 0];
    [];
    [274; 166; 146; (-654); (-12); (-7); 29];
    [119; 439; 130; (-613); (-6); (-1); 320];
    [];
    [119; 211; 158; (-722); (-9); 41; 0];
    [101; 235; 134; (-717); (-11); (-5); 0];
    [85; 229; 131; (-658); (-9); (-5); 0];
    [101; 235; 134; (-717); (-357); (-5); 0];
    [];
    [101; 235; 134; (-717); (-11); (-5); 0];
    [85; 136; 106; (-613); (-7); (-73); 181];
    [92; 155; 136; (-967); (-8); 38; 0]
  ].

Definition QueenSafeCheck : Z := 780.

Definition RookSafeCheck : Z := 880.

Definition BishopSafeCheck : Z := 435.

Definition KnightSafeCheck : Z := 790.

Definition IndirectKingAttack : Z := 883.

(** ** The state of an [Evaluation] object *)

(** The array members of [class Evaluation].  [pos], [me] and [pe] are fixed
    during a call and are kept outside the record. *)
Record EvalState : Type := {
  mobilityArea : Color -> Bitboard;
  mobility : Color -> Score;
  attackedBy : Color -> PieceType -> Bitboard;
  attackedBy2 : Color -> Bitboard;
  kingRing : Color -> Bitboard;
  kingAttackersCount : Color -> Z;
  kingAttackersWeight : Color -> Z;
  kingAdjacentZoneAttacksCount : Color -> Z
}.

(** Assignment to one cell of an array indexed by colour, or by colour and
    piece type. *)
Definition upd {A : Type} (f : Color -> A) (c : Color) (v : A) : Color -> A :=
  fun c' => if Color_eqb c' c then v else f c'.

Definition upd2 {A : Type} (f : Color -> PieceType -> A)
  (c : Color) (pt : PieceType) (v : A) : Color -> PieceType -> A :=
  fun c' pt' => if Color_eqb c' c && PieceType_eqb pt' pt then v else f c' pt'.

Definition set_mobilityArea (st : EvalState) (c : Color) (v : Bitboard) : EvalState :=
  {| mobilityArea := upd (mobilityArea st) c v;
     mobility := mobility st;
     attackedBy := attackedBy st;
     attackedBy2 := attackedBy2 st;
     kingRing := kingRing st;
     kingAttackersCount := kingAttackersCount st;
     kingAttackersWeight := kingAttackersWeight st;
     kingAdjacentZoneAttacksCount := kingAdjacentZoneAttacksCount st |}.

Definition set_mobility (st : EvalState) (c : Color) (v : Score) : EvalState :=
  {| mobilityArea := mobilityArea st;
     mobility := upd (mobility st) c v;
     attackedBy := attackedBy st;
     attackedBy2 := attackedBy2 st;
     kingRing := kingRing st;
     kingAttackersCount := kingAttackersCount st;
     kingAttackersWeight := kingAttackersWeight st;
     kingAdjacentZoneAttacksCount := kingAdjacentZoneAttacksCount st |}.

Definition set_attackedBy (st : EvalState) (c : Color) (pt : PieceType)
  (v : Bitboard) : EvalState :=
  {| mobilityArea := mobilityArea st;
     mobility := mobility st;
     attackedBy := upd2 (attackedBy st) c pt v;
     attackedBy2 := attackedBy2 st;
     kingRing := kingRing st;
     kingAttackersCount := kingAttackersCount st;
     kingAttackersWeight := kingAttackersWeight st;
     kingAdjacentZoneAttacksCount := kingAdjacentZoneAttacksCount st |}.

Definition set_attackedBy2 (st : EvalState) (c : Color) (v : Bitboard) : EvalState :=
  {| mobilityArea := mobilityArea st;
     mobility := mobility st;
     attackedBy := attackedBy st;
     attackedBy2 := upd (attackedBy2 st) c v;
     kingRing := kingRing st;
     kingAttackersCount := kingAttackersCount st;
     kingAttackersWeight := kingAttackersWeight st;
     kingAdjacentZoneAttacksCount := kingAdjacentZoneAttacksCount st |}.

Definition set_kingRing (st : EvalState) (c : Color) (v : Bitboard) : EvalState :=
  {| mobilityArea := mobilityArea st;
     mobility := mobility st;
     attackedBy := attackedBy st;
     attackedBy2 := attackedBy2 st;
     kingRing := upd (kingRing st) c v;
     kingAttackersCount := kingAttackersCount st;
     kingAttackersWeight := kingAttackersWeight st;
     kingAdjacentZoneAttacksCount := kingAdjacentZoneAttacksCount st |}.

Definition set_kingAttackersCount (st : EvalState) (c : Color) (v : Z) : EvalState :=
  {| mobilityArea := mobilityArea st;
     mobility := mobility st;
     attackedBy := attackedBy st;
     attackedBy2 := attackedBy2 st;
     kingRing := kingRing st;
     kingAttackersCount := upd (kingAttackersCount st) c v;
     kingAttackersWeight := kingAttackersWeight st;
     kingAdjacentZoneAttacksCount := kingAdjacentZoneAttacksCount st |}.

Definition set_kingAttackersWeight (st : EvalState) (c : Color) (v : Z) : EvalState :=
  {| mobilityArea := mobilityArea st;
     mobility := mobility st;
     attackedBy := attackedBy st;
     attackedBy2 := attackedBy2 st;
     kingRing := kingRing st;
     kingAttackersCount := kingAttackersCount st;
     kingAttackersWeight := upd (kingAttackersWeight st) c v;
     kingAdjacentZoneAttacksCount := kingAdjacentZoneAttacksCount st |}.

Definition set_kingAdjacentZoneAttacksCount (st : EvalState) (c : Color) (v : Z)
  : EvalState :=
  {| mobilityArea := mobilityArea st;
     mobility := mobility st;
     attackedBy := attackedBy st;
     attackedBy2 := attackedBy2 st;
     kingRing := kingRing st;
     kingAttackersCount := kingAttackersCount st;
     kingAttackersWeight := kingAttackersWeight st;
     kingAdjacentZoneAttacksCount := upd (kingAdjacentZoneAttacksCount st) c v |}.

(** The constructor [Evaluation(const Position& p)] initialises [mobility]
    only; the other arrays start with whatever the memory [garbage] holds. *)
Definition Evaluation_ctor (garbage : EvalState) : EvalState :=
  {| mobilityArea := mobilityArea garbage;
     mobility := fun _ => SCORE_ZERO;
     attackedBy := attackedBy garbage;
     attackedBy2 := attackedBy2 garbage;
     kingRing := kingRing garbage;
     kingAttackersCount := kingAttackersCount garbage;
     kingAttackersWeight := kingAttackersWeight garbage;
     kingAdjacentZoneAttacksCount := kingAdjacentZoneAttacksCount garbage |}.

(** Rank and file enumerators used below. *)
Definition RANK_1 : Z := 0.
Definition RANK_2 : Z := 1.
Definition RANK_5 : Z := 4.
Definition RANK_8 : Z := 7.
Definition FILE_A : Z := 0.
Definition FILE_E : Z := 4.
Definition FILE_H : Z := 7.
Definition SQ_A1 : Square := 0.
Definition SQ_H1 : Square := 7.
Definition SQ_D4 : Square := 27.
Definition SQ_E4 : Square := 28.
Definition SQ_D5 : Square := 35.
Definition SQ_E5 : Square := 36.
Definition EAST : Z := 1.
Definition WEST : Z := -1.

(** The constants at the head of evaluate.cpp. *)
Definition Center : Bitboard :=
  Z.land (Z.lor FileDBB FileEBB) (Z.lor Rank4BB Rank5BB).
Definition QueenSide : Bitboard :=
  Z.lor (Z.lor (Z.lor FileABB FileBBB) FileCBB) FileDBB.
Definition CenterFiles : Bitboard :=
  Z.lor (Z.lor (Z.lor FileCBB FileDBB) FileEBB) FileFBB.
Definition KingSide : Bitboard :=
  Z.lor (Z.lor (Z.lor FileEBB FileFBB) FileGBB) FileHBB.

Definition KingFlank : list Bitboard :=
  [QueenSide; QueenSide; QueenSide; CenterFiles; CenterFiles;
   KingSide; KingSide; KingSide].

Definition up_of (Us : Color) : Direction :=
  match Us with WHITE => NORTH | BLACK => SOUTH end.
Definition down_of (Us : Color) : Direction :=
  match Us with WHITE => SOUTH | BLACK => NORTH end.

Section Evaluation.

Variable X : Extern.
Variable pos : Position.

(** [me] and [pe], as [value] sets them before any helper runs. *)
Definition me : MaterialEntry := Material_probe X pos.
Definition pe : PawnEntry := Pawns_probe X pos.

(** *** initialize<Us> *)

(** The union of [attacks_from<KING>] over all kings of [Us] (the Anti and
    Extinction branches, where a side may own several kings). *)
Definition all_king_attacks (Us : Color) : Bitboard :=
  fold_left (fun acc s => Z.lor acc (attacks_from pos KING s))
            (squares (pieces_c_pt pos Us KING)) 0.

(** The condition of "Init our king safety tables only if we are going to
    use them". *)
Definition king_safety_enabled (Us : Color) : bool :=
  (negb (is_anti pos) && negb (is_extinction pos)
   && (RookValueMg X + KnightValueMg X <=? non_pawn_material_c pos (opp Us)))
  || is_house pos.

Definition initialize (Us : Color) (st : EvalState) : EvalState :=
  let Them := opp Us in
  let LowRanks := match Us with
                  | WHITE => Z.lor Rank2BB Rank3BB
                  | BLACK => Z.lor Rank7BB Rank6BB
                  end in
  let b := Z.land (pieces_c_pt pos Us PAWN)
                  (Z.lor (shift (down_of Us) (pieces pos)) LowRanks) in
  let st := set_mobilityArea st Us
              (if is_anti pos then All64
               else bb_not (Z.lor (Z.lor b (SquareBB (square_KING pos Us)))
                                  (pawn_attacks pe Them))) in
  let st := set_attackedBy st Us KING
              (if is_anti pos then all_king_attacks Us
               else if is_extinction pos then all_king_attacks Us
               else attacks_from pos KING (square_KING pos Us)) in
  let b := attackedBy st Us KING in
  let st := set_attackedBy st Us PAWN (pawn_attacks pe Us) in
  let st := set_attackedBy2 st Us (Z.land b (attackedBy st Us PAWN)) in
  let st := set_attackedBy st Us ALL_PIECES (Z.lor b (attackedBy st Us PAWN)) in
  if king_safety_enabled Us then
    let st := set_kingRing st Us b in
    let st := if relative_rank Us (square_KING pos Us) =? RANK_1
              then set_kingRing st Us (Z.lor (kingRing st Us) (shift (up_of Us) b))
              else st in
    let st := set_kingAttackersCount st Them
                (popcount (Z.land b (pawn_attacks pe Them))) in
    let st := set_kingAttackersWeight st Them 0 in
    set_kingAdjacentZoneAttacksCount st Them 0
  else
    let st := set_kingAttackersCount st Them 0 in
    set_kingRing st Us 0.

(** *** evaluate_pieces<Us, Pt> *)

(** The attack set [b] of the piece of type [Pt] on [s]. *)
Definition piece_attacks (Us : Color) (Pt : PieceType) (s : Square) : Bitboard :=
  let b := match Pt with
           | BISHOP => attacks_bb X BISHOP s
                         (Z.lxor (pieces pos) (pieces_pt pos QUEEN))
           | ROOK => attacks_bb X ROOK s
                       (Z.lxor (Z.lxor (pieces pos) (pieces_pt pos QUEEN))
                               (pieces_c_pt pos Us ROOK))
           | _ => attacks_from pos Pt s
           end in
  let b := if is_grid pos then Z.land b (bb_not (grid_bb pos s)) else b in
  if nz (Z.land (pinned_pieces pos Us) (SquareBB s))
  then Z.land b (LineBB X (square_KING pos Us) s)
  else b.

(** The merge of [b] into the attack maps:
    [attackedBy2[Us] |= attackedBy[Us][ALL_PIECES] & b;]
    [attackedBy[Us][ALL_PIECES] |= attackedBy[Us][Pt] |= b;]
    and, for queens, the [QUEEN_DIAGONAL] slot. *)
Definition merge_attacks (Us : Color) (Pt : PieceType) (s : Square)
  (b : Bitboard) (st : EvalState) : EvalState :=
  let st := set_attackedBy2 st Us
              (Z.lor (attackedBy2 st Us)
                     (Z.land (attackedBy st Us ALL_PIECES) b)) in
  let st := set_attackedBy st Us Pt (Z.lor (attackedBy st Us Pt) b) in
  let st := set_attackedBy st Us ALL_PIECES
              (Z.lor (attackedBy st Us ALL_PIECES) (attackedBy st Us Pt)) in
  if PieceType_eqb Pt QUEEN
  then set_attackedBy st Us QUEEN_DIAGONAL
         (Z.lor (attackedBy st Us QUEEN_DIAGONAL)
                (Z.land b (PseudoAttacks X BISHOP s)))
  else st.

(** The king-ring accumulators. *)
Definition king_ring_pressure (Us : Color) (Pt : PieceType) (b : Bitboard)
  (st : EvalState) : EvalState :=
  let Them := opp Us in
  if nz (Z.land b (kingRing st Them)) then
    let st := set_kingAttackersCount st Us (kingAttackersCount st Us + 1) in
    let st := set_kingAttackersWeight st Us
                (kingAttackersWeight st Us
                 + at2 0 KingAttackWeights (vidx (variant pos)) (PieceType_idx Pt)) in
    set_kingAdjacentZoneAttacksCount st Us
      (kingAdjacentZoneAttacksCount st Us
       + popcount (Z.land b (attackedBy st Them KING)))
  else st.

(** The bonuses of a knight or a bishop. *)
Definition minor_terms (Us : Color) (Pt : PieceType) (s : Square)
  (b : Bitboard) (st : EvalState) (score : Score) : Score :=
  let Them := opp Us in
  let OutpostRanks := match Us with
                      | WHITE => Z.lor (Z.lor Rank4BB Rank5BB) Rank6BB
                      | BLACK => Z.lor (Z.lor Rank5BB Rank4BB) Rank3BB
                      end in
  let isB := b2z (PieceType_eqb Pt BISHOP) in
  let bb := Z.land OutpostRanks (bb_not (pawn_attacks_span pe Them)) in
  let score :=
    if nz (Z.land bb (SquareBB s)) then
      (score +! at2 SCORE_ZERO Outpost isB
                  (b2z (nz (Z.land (attackedBy st Us PAWN) (SquareBB s)))) *! 2)
    else
      let bb := Z.land bb (Z.land b (bb_not (pieces_c pos Us))) in
      if nz bb then
        (score +! at2 SCORE_ZERO Outpost isB
                    (b2z (nz (Z.land (attackedBy st Us PAWN) bb))))
      else score in
  let score :=
    if (relative_rank Us s <? RANK_5)
       && nz (Z.land (pieces_pt pos PAWN) (SquareBB (s + pawn_push Us)))
    then (score +! MinorBehindPawn) else score in
  let score :=
    if PieceType_eqb Pt BISHOP then
      let score := (score -! BishopPawns *! pawns_on_same_color_squares pe Us s) in
      if more_than_one
           (Z.land Center (Z.lor (attacks_bb X BISHOP s (pieces_pt pos PAWN))
                                 (SquareBB s)))
      then (score +! LongRangedBishop) else score
    else score in
  if PieceType_eqb Pt BISHOP && is_chess960 pos
     && ((s =? relative_square Us SQ_A1) || (s =? relative_square Us SQ_H1))
  then
    let d := pawn_push Us + (if file_of s =? FILE_A then EAST else WEST) in
    if Piece_eqb (piece_on pos (s + d)) (make_piece Us PAWN) then
      (score -! (if negb (empty pos (s + d + pawn_push Us))
                 then TrappedBishopA1H1 *! 4
                 else if Piece_eqb (piece_on pos (s + d + d)) (make_piece Us PAWN)
                      then TrappedBishopA1H1 *! 2
                      else TrappedBishopA1H1))
    else score
  else score.

(** The bonuses of a rook with mobility [mob]. *)
Definition rook_terms (Us : Color) (s : Square) (mob : Z) (score : Score) : Score :=
  let Them := opp Us in
  let score :=
    if RANK_5 <=? relative_rank Us s
    then (score +! RookOnPawn
                   *! popcount (Z.land (pieces_c_pt pos Them PAWN)
                                       (PseudoAttacks X ROOK s)))
    else score in
  if semiopen_file pe Us (file_of s) then
    (score +! at1 SCORE_ZERO RookOnFile (b2z (semiopen_file pe Them (file_of s))))
  else if mob <=? 3 then
    let ksq := square_KING pos Us in
    if Bool.eqb (file_of ksq <? FILE_E) (file_of s <? file_of ksq)
       && negb (semiopen_side pe Us (file_of ksq) (file_of s <? file_of ksq))
    then (score -! (TrappedRook -! make_score (mob * 22) 0)
                   *! (1 + b2z (negb (can_castle pos Us))))
    else score
  else score.

(** The penalty of a queen. *)
Definition queen_terms (Us : Color) (s : Square) (score : Score) : Score :=
  if nz (slider_blockers pos (pieces_c_pt2 pos (opp Us) ROOK BISHOP) s)
  then (score -! WeakQueen) else score.

(** One iteration of the [while ((s = *pl++) != SQ_NONE)] loop. *)
Definition pieces_body (Us : Color) (Pt : PieceType) (s : Square)
  (acc : EvalState * Score) : EvalState * Score :=
  let '(st, score) := acc in
  let b := piece_attacks Us Pt s in
  let st := merge_attacks Us Pt s b st in
  let st := king_ring_pressure Us Pt b st in
  let mob := popcount (Z.land b (mobilityArea st Us)) in
  let st := set_mobility st Us
              (mobility st Us
               +! at3 SCORE_ZERO MobilityBonus (vidx (variant pos))
                      (PieceType_idx Pt - 2) mob) in
  if is_anti pos then (st, score)
  else
    let score :=
      if is_horde pos && is_horde_color pos Us then score
      else (score +! at1 SCORE_ZERO KingProtector (PieceType_idx Pt - 2)
                     *! distance s (square_KING pos Us)) in
    let score :=
      if PieceType_eqb Pt BISHOP || PieceType_eqb Pt KNIGHT
      then minor_terms Us Pt s b st score else score in
    let score :=
      if PieceType_eqb Pt ROOK then rook_terms Us s mob score else score in
    let score :=
      if PieceType_eqb Pt QUEEN then queen_terms Us s score else score in
    (st, score).

(** The loop over the piece list, which [SQ_NONE] terminates. *)
Fixpoint pieces_loop (Us : Color) (Pt : PieceType) (pl : list Square)
  (acc : EvalState * Score) : EvalState * Score :=
  match pl with
  | [] => acc
  | s :: pl' =>
      if s =? SQ_NONE then acc
      else pieces_loop Us Pt pl' (pieces_body Us Pt s acc)
  end.

(** The statements before the loop: [attackedBy[Us][Pt] = 0] and, for
    queens, [attackedBy[Us][QUEEN_DIAGONAL] = 0]. *)
Definition pieces_entry (Us : Color) (Pt : PieceType) (st : EvalState)
  : EvalState :=
  let st := set_attackedBy st Us Pt 0 in
  if PieceType_eqb Pt QUEEN
  then set_attackedBy st Us QUEEN_DIAGONAL 0 else st.

Definition evaluate_pieces (Us : Color) (Pt : PieceType) (st : EvalState)
  : EvalState * Score :=
  pieces_loop Us Pt (squares_of pos Pt Us) (pieces_entry Us Pt st, SCORE_ZERO).

(** *** evaluate_king<Us> *)

Definition Camp (Us : Color) : Bitboard :=
  match Us with
  | WHITE => Z.lxor (Z.lxor (Z.lxor AllSquares Rank6BB) Rank7BB) Rank8BB
  | BLACK => Z.lxor (Z.lxor (Z.lxor AllSquares Rank1BB) Rank2BB) Rank3BB
  end.

(** The condition of the "Main king safety evaluation" block. *)
Definition king_danger_active (Us : Color) (st : EvalState) : bool :=
  (1 - count pos QUEEN (opp Us) <? kingAttackersCount st (opp Us))
  && negb (is_horde pos && (square_KING pos Us =? SQ_NONE)).

(** [weak]: the squares the enemy attacks and we defend at most with the king
    or the queen. *)
Definition king_weak (Us : Color) (st : EvalState) : Bitboard :=
  let Them := opp Us in
  if is_atomic pos then
    Z.land (Z.lor (attackedBy st Them ALL_PIECES)
                  (Z.lxor (pieces_c pos Them) (pieces_c_pt pos Them KING)))
           (Z.lor (Z.lor (attackedBy st Us KING)
                         (Z.land (attackedBy st Us QUEEN) (bb_not (attackedBy2 st Us))))
                  (bb_not (attackedBy st Us ALL_PIECES)))
  else
    Z.land (Z.land (attackedBy st Them ALL_PIECES) (bb_not (attackedBy2 st Us)))
           (Z.lor (Z.lor (attackedBy st Us KING) (attackedBy st Us QUEEN))
                  (bb_not (attackedBy st Us ALL_PIECES))).

(** The drop squares [h] of Crazyhouse for the piece type [pt] in hand. *)
Definition hand_squares (Us : Color) (pt : PieceType) : Bitboard :=
  if is_house pos && negb (count_in_hand pos pt (opp Us) =? 0)
  then bb_not (pieces pos) else 0.

(** One of the rook, bishop and knight check tests: [line] holds the squares
    from which a piece of type [pt] would give check.  Returns the increment
    of [kingDanger] and the new [unsafeChecks]. *)
Definition safe_check (Us : Color) (st : EvalState) (pt : PieceType)
  (penalty : Z) (line safe dropSafe : Bitboard) (acc : Z * Bitboard)
  : Z * Bitboard :=
  let '(kingDanger, unsafeChecks) := acc in
  let h := hand_squares Us pt in
  if nz (Z.land line (Z.lor (Z.land (attackedBy st (opp Us) pt) safe)
                            (Z.land h dropSafe)))
  then (kingDanger + penalty, unsafeChecks)
  else (kingDanger,
        Z.lor unsafeChecks (Z.land line (Z.lor (attackedBy st (opp Us) pt) h))).

(** [kingDanger] and [unsafeChecks] after the four safe-check tests. *)
Definition king_checks (Us : Color) (st : EvalState) (weak : Bitboard)
  : Z * Bitboard :=
  let Them := opp Us in
  let ksq := square_KING pos Us in
  let h := if is_house pos
           then (if negb (count_in_hand pos QUEEN Them =? 0)
                 then Z.land weak (bb_not (pieces pos)) else 0)
           else 0 in
  let safe := bb_not (pieces_c pos Them) in
  let safe := Z.land safe
                (Z.lor (bb_not (attackedBy st Us ALL_PIECES))
                       (Z.land weak (attackedBy2 st Them))) in
  let safe := if is_atomic pos then Z.lor safe (attackedBy st Us KING) else safe in
  let dqko := Z.land (bb_not (attackedBy2 st Us))
                     (Z.lor (attackedBy st Us QUEEN) (attackedBy st Us KING)) in
  let dropSafe := Z.land (Z.lor safe (Z.land (attackedBy st Them ALL_PIECES) dqko))
                         (bb_not (pieces_c pos Us)) in
  let occ := Z.lxor (pieces pos) (pieces_c_pt pos Us QUEEN) in
  let b1 := attacks_bb X ROOK ksq occ in
  let b2 := attacks_bb X BISHOP ksq occ in
  let kingDanger :=
    if nz (Z.land (Z.land (Z.land (Z.lor b1 b2)
                                  (Z.lor h (attackedBy st Them QUEEN)))
                          safe)
                  (bb_not (attackedBy st Us QUEEN)))
    then QueenSafeCheck else 0 in
  let safe := if is_three_check pos && negb (checks_given pos Them =? 0)
              then bb_not (pieces_c pos Them) else safe in
  let acc := safe_check Us st ROOK RookSafeCheck b1 safe dropSafe (kingDanger, 0) in
  let acc := safe_check Us st BISHOP BishopSafeCheck b2 safe dropSafe acc in
  let acc := safe_check Us st KNIGHT KnightSafeCheck
               (attacks_from pos KNIGHT ksq) safe dropSafe acc in
  (fst acc, Z.land (snd acc) (mobilityArea st Them)).

(** The body of the "Main king safety evaluation" block: the new [score]. *)
Definition king_danger_block (Us : Color) (st : EvalState) (score : Score) : Score :=
  let Them := opp Us in
  let weak := king_weak Us st in
  let '(kingDanger, unsafeChecks) := king_checks Us st weak in
  let KDP := at1 [] KingDangerParams (vidx (variant pos)) in
  let kingDanger :=
    kingDanger
    + (kingAttackersCount st Them * kingAttackersWeight st Them
       + at1 0 KDP 0 * kingAdjacentZoneAttacksCount st Them
       + at1 0 KDP 1 * popcount (Z.land (kingRing st Us) weak)
       + at1 0 KDP 2 * popcount (Z.lor (pinned_pieces pos Us) unsafeChecks)
       + at1 0 KDP 3 * b2z (count pos QUEEN Them =? 0)
       + cdiv (at1 0 KDP 4 * mg_value score) 8
       + at1 0 KDP 5) in
  let kingDanger :=
    if is_house pos then
      kingDanger
      + at1 0 KingDangerInHand (PieceType_idx ALL_PIECES) * count_in_hand pos ALL_PIECES Them
      + at1 0 KingDangerInHand (PieceType_idx PAWN) * count_in_hand pos PAWN Them
      + at1 0 KingDangerInHand (PieceType_idx KNIGHT) * count_in_hand pos KNIGHT Them
      + at1 0 KingDangerInHand (PieceType_idx BISHOP) * count_in_hand pos BISHOP Them
      + at1 0 KingDangerInHand (PieceType_idx ROOK) * count_in_hand pos ROOK Them
      + at1 0 KingDangerInHand (PieceType_idx QUEEN) * count_in_hand pos QUEEN Them
    else kingDanger in
  let kingDanger :=
    if is_atomic pos then
      kingDanger
      + IndirectKingAttack
        * popcount (Z.land (Z.land (attacks_from pos KING (square_KING pos Us))
                                   (pieces_c pos Us))
                           (attackedBy st Them ALL_PIECES))
    else kingDanger in
  let score :=
    if is_atomic pos then
      score -! make_score 100 100
               *! popcount (Z.land (attackedBy st Us KING) (pieces pos))
    else score in
  if 0 <? kingDanger then
    let kingDanger :=
      if is_three_check pos
      then cdiv (at1 0 ThreeCheckKSFactors (checks_given pos Them) * kingDanger) 256
      else kingDanger in
    let v := cdiv (kingDanger * kingDanger) 4096 in
    let v := if is_atomic pos && (QueenValueMg X <? v) then QueenValueMg X else v in
    let v := if is_house pos && Color_eqb Us (side_to_move pos)
             then v - cdiv v 10 else v in
    let v := if is_house pos && (QueenValueMg X <? v) then QueenValueMg X else v in
    let v := if is_three_check pos && (QueenValueMg X <? v) then QueenValueMg X else v in
    score -! make_score v (cdiv kingDanger 16 + cdiv (at1 0 KDP 6 * v) 256)
  else score.

(** King tropism: the squares the opponent attacks in our king flank and in
    our camp, and that set moved four bits toward the enemy. *)
Definition king_flank_attacks (Us : Color) (st : EvalState) : Bitboard :=
  let kf := file_of (square_KING pos Us) in
  Z.land (Z.land (attackedBy st (opp Us) ALL_PIECES) (at1 0 KingFlank kf))
         (Camp Us).

Definition shift4 (Us : Color) (b : Bitboard) : Bitboard :=
  match Us with WHITE => shl b 4 | BLACK => shr b 4 end.

(** The two [assert]s of the king tropism. *)
Definition king_tropism_asserts (Us : Color) (st : EvalState) : bool :=
  let b := king_flank_attacks Us st in
  (Z.land (shift4 Us b) b =? 0) && (popcount (shift4 Us b) =? popcount b).

Definition king_tropism (Us : Color) (st : EvalState) (score : Score) : Score :=
  let Them := opp Us in
  let kf := file_of (square_KING pos Us) in
  let b := king_flank_attacks Us st in
  let b := Z.lor (shift4 Us b)
                 (Z.land (Z.land b (attackedBy2 st Them))
                         (bb_not (attackedBy st Us PAWN))) in
  let score := score -! at1 SCORE_ZERO CloseEnemies (vidx (variant pos)) *! popcount b in
  if negb (nz (Z.land (pieces_pt pos PAWN) (at1 0 KingFlank kf)))
  then score -! PawnlessFlank else score.

Definition evaluate_king (Us : Color) (st : EvalState) : Score :=
  let ksq := square_KING pos Us in
  let score := king_safety pe Us ksq in
  let score := if king_danger_active Us st
               then king_danger_block Us st score else score in
  king_tropism Us st score.

(** *** evaluate_passed_pawns<Us> *)

(** A [Direction] added to a [Square]. *)
Definition delta (d : Direction) : Z :=
  match d with
  | NORTH => 8 | SOUTH => -8
  | NORTH_EAST => 9 | SOUTH_EAST => -7
  | NORTH_WEST => 7 | SOUTH_WEST => -9
  end.

(** The ranks [RANK_1 .. RANK_8] and the files [FILE_A .. FILE_H]. *)
Definition ranks_1_8 : list Z := [0; 1; 2; 3; 4; 5; 6; 7].
Definition files_A_H : list Z := [0; 1; 2; 3; 4; 5; 6; 7].

(** The Race variant: a bonus for the rank the king can reach. *)
Definition king_race_score (Us : Color) (st : EvalState) : Score :=
  let Them := opp Us in
  let ksq := square_KING pos Us in
  let kr := rank_of ksq in
  let s :=
    fold_left
      (fun s r =>
         if (kr + 1 <=? r)
            && negb (nz (Z.land (Z.land (Z.land (rank_bb r)
                                                (DistanceRingBB X ksq (r - 1 - kr)))
                                        (bb_not (attackedBy st Them ALL_PIECES)))
                                (bb_not (pieces_c pos Us))))
         then s + 1 else s)
      ranks_1_8 (relative_rank BLACK ksq) in
  at1 SCORE_ZERO KingRaceBonus (Z.min s 7).

(** King of the Hill: a bonus for the distance of our king to each of the
    four centre squares. *)
Definition koth_score (Us : Color) (score : Score) : Score :=
  let Them := opp Us in
  let ksq := square_KING pos Us in
  fold_left
    (fun score c =>
       let dist := distance ksq c
                   + popcount (Z.land (attackers_to pos c) (pieces_c pos Them))
                   + popcount (Z.land (pieces_c pos Us) (SquareBB c)) in
       score +! at1 SCORE_ZERO KothDistanceBonus (Z.min (dist - 1) 5))
    [SQ_E4; SQ_D4; SQ_D5; SQ_E5] score.

(** The adjustment of [ebonus] by the kings' proximity to [blockSq]. *)
Definition passer_king_proximity (Us : Color) (rr : Z) (blockSq : Square)
  (ebonus : Value) : Value :=
  let Them := opp Us in
  let Up := delta (up_of Us) in
  if is_horde pos then
    if is_horde_color pos Us
    then ebonus + (distance (square_KING pos Them) blockSq * 5 * rr - 10 * rr)
    else ebonus + (25 * rr - distance (square_KING pos Us) blockSq * 2 * rr)
  else if is_anti pos then ebonus
  else if is_atomic pos then
    ebonus + distance (square_KING pos Them) blockSq * 5 * rr
  else
    let ebonus := ebonus + (distance (square_KING pos Them) blockSq * 5 * rr
                            - distance (square_KING pos Us) blockSq * 2 * rr) in
    if negb (relative_rank Us blockSq =? RANK_8)
    then ebonus - distance (square_KING pos Us) (blockSq + Up) * rr
    else ebonus.

(** The factor [k] of a passer whose block square is empty. *)
Definition passer_free_k (Us : Color) (st : EvalState) (s blockSq : Square) : Z :=
  let Them := opp Us in
  let squaresToQueen := forward_file_bb X Us s in
  let bb := Z.land (Z.land (forward_file_bb X Them s) (pieces_pt2 pos ROOK QUEEN))
                   (attacks_from pos ROOK s) in
  let defendedSquares :=
    if negb (nz (Z.land (pieces_c pos Us) bb))
    then Z.land squaresToQueen (attackedBy st Us ALL_PIECES)
    else squaresToQueen in
  let unsafeSquares :=
    if negb (nz (Z.land (pieces_c pos Them) bb))
    then Z.land squaresToQueen
                (Z.lor (attackedBy st Them ALL_PIECES) (pieces_c pos Them))
    else squaresToQueen in
  let k := if negb (nz unsafeSquares) then 18
           else if negb (nz (Z.land unsafeSquares (SquareBB blockSq))) then 8
           else 0 in
  if defendedSquares =? squaresToQueen then k + 6
  else if nz (Z.land defendedSquares (SquareBB blockSq)) then k + 4
  else k.

(** [mbonus] and [ebonus] of the passed pawn on [s] as they stand just before
    the "Scale down bonus for candidate passers" statement. *)
Definition passer_bonus (Us : Color) (st : EvalState) (s : Square) : Value * Value :=
  let Up := delta (up_of Us) in
  let r := relative_rank Us s - RANK_2 in
  let rr := r * (r - 1) in
  let mbonus := Passed_at (vidx (variant pos)) 0 r in
  let ebonus := Passed_at (vidx (variant pos)) 1 r in
  if negb (rr =? 0) then
    let blockSq := s + Up in
    let ebonus := passer_king_proximity Us rr blockSq ebonus in
    if empty pos blockSq then
      let k := passer_free_k Us st s blockSq in
      (mbonus + k * rr, ebonus + k * rr)
    else if nz (Z.land (pieces_c pos Us) (SquareBB blockSq)) then
      (mbonus + (rr + r * 2), ebonus + (rr + r * 2))
    else (mbonus, ebonus)
  else (mbonus, ebonus).

(** The condition under which both bonuses are scaled down. *)
Definition passer_scaled_down (Us : Color) (s : Square) : bool :=
  negb (pawn_passed pos Us (s + delta (up_of Us)))
  || nz (Z.land (pieces_pt pos PAWN) (forward_file_bb X Us s)).

(** [mbonus] and [ebonus] as they enter [make_score]. *)
Definition passer_final_bonus (Us : Color) (st : EvalState) (s : Square)
  : Value * Value :=
  let '(mbonus, ebonus) := passer_bonus Us st s in
  if passer_scaled_down Us s then (cdiv mbonus 2, cdiv ebonus 2)
  else (mbonus, ebonus).

(** The [assert] at the head of the loop body. *)
Definition passer_assert (Us : Color) (s : Square) : bool :=
  negb (nz (Z.land (pieces_c_pt pos (opp Us) PAWN)
                   (forward_file_bb X Us (s + delta (up_of Us))))).

(** One iteration of the [while (b)] loop over the passed pawns. *)
Definition passed_pawn_body (Us : Color) (st : EvalState) (score : Score)
  (s : Square) : Score :=
  let Them := opp Us in
  let bb := Z.land (forward_file_bb X Us s)
                   (Z.lor (attackedBy st Them ALL_PIECES) (pieces_c pos Them)) in
  let score := score -! HinderPassedPawn *! popcount bb in
  let '(mbonus, ebonus) := passer_final_bonus Us st s in
  score +! (make_score mbonus ebonus +! at1 SCORE_ZERO PassedFile (file_of s)).

Definition evaluate_passed_pawns (Us : Color) (st : EvalState) : Score :=
  if is_race pos then king_race_score Us st
  else
    let score := SCORE_ZERO in
    let score := if is_koth pos then koth_score Us score else score in
    fold_left (passed_pawn_body Us st) (squares (passed_pawns pe Us)) score.

(** *** evaluate_space<Us> *)

Definition evaluate_space (Us : Color) (st : EvalState) : Score :=
  let Them := opp Us in
  let SpaceMask :=
    match Us with
    | WHITE => Z.land CenterFiles (Z.lor (Z.lor Rank2BB Rank3BB) Rank4BB)
    | BLACK => Z.land CenterFiles (Z.lor (Z.lor Rank7BB Rank6BB) Rank5BB)
    end in
  let safe :=
    Z.land (Z.land (Z.land SpaceMask (bb_not (pieces_c_pt pos Us PAWN)))
                   (bb_not (attackedBy st Them PAWN)))
           (Z.lor (attackedBy st Us ALL_PIECES)
                  (bb_not (attackedBy st Them ALL_PIECES))) in
  let behind := pieces_c_pt pos Us PAWN in
  let behind := Z.lor behind (match Us with
                              | WHITE => shr behind 8
                              | BLACK => shl behind 8
                              end) in
  let behind := Z.lor behind (match Us with
                              | WHITE => shr behind 16
                              | BLACK => shl behind 16
                              end) in
  let bonus := popcount (Z.lor (match Us with
                                | WHITE => shl safe 32
                                | BLACK => shr safe 32
                                end)
                               (Z.land behind safe)) in
  let weight := count pos ALL_PIECES Us - 2 * open_files pe in
  if is_koth pos then
    make_score (cdiv (bonus * weight * weight) 22) 0
    +! KothSafeCenter
       *! popcount (Z.land (Z.land (Z.land safe behind) (Z.lor Rank4BB Rank5BB))
                           (Z.lor FileDBB FileEBB))
  else make_score (cdiv (bonus * weight * weight) 16) 0.

(** *** evaluate_initiative *)

(** The [initiative] bonus before it is capped. *)
Definition initiative_bonus : Z :=
  let kingDistance :=
    distance_file (square_KING pos WHITE) (square_KING pos BLACK)
    - distance_rank (square_KING pos WHITE) (square_KING pos BLACK) in
  let bothFlanks :=
    nz (Z.land (pieces_pt pos PAWN) QueenSide)
    && nz (Z.land (pieces_pt pos PAWN) KingSide) in
  8 * (pawn_asymmetry pe + kingDistance - 17)
  + 12 * count_both pos PAWN + 16 * b2z bothFlanks.

Definition evaluate_initiative (eg : Value) : Score :=
  let initiative := initiative_bonus in
  let v := (b2z (0 <? eg) - b2z (eg <? 0)) * Z.max initiative (- Z.abs eg) in
  make_score 0 v.

(** *** evaluate_scale_factor *)

(** The [return] statements inside the block that looks for drawish
    endgames; [None] when control falls through to the end of the function. *)
Definition drawish_scale_factor (eg : Value) (strongSide : Color) (sf : Z)
  : option Z :=
  if is_atomic pos then None
  else if (sf =? SCALE_FACTOR_NORMAL) || (sf =? SCALE_FACTOR_ONEPAWN X) then
    if opposite_bishops pos then
      if (non_pawn_material_c pos WHITE =? BishopValueMg X)
         && (non_pawn_material_c pos BLACK =? BishopValueMg X)
      then Some (if more_than_one (pieces_pt pos PAWN) then 31 else 9)
      else Some 46
    else if (Z.abs eg <=? BishopValueEg X)
            && (count pos PAWN strongSide <=? 2)
            && negb (pawn_passed pos (opp strongSide)
                                 (square_KING pos (opp strongSide)))
    then Some (37 + 7 * count pos PAWN strongSide)
    else None
  else None.

Definition evaluate_scale_factor (eg : Value) : Z :=
  let strongSide := if VALUE_DRAW <? eg then WHITE else BLACK in
  let sf := scale_factor me strongSide in
  match drawish_scale_factor eg strongSide sf with
  | Some r => r
  | None =>
      if is_horde pos
         && (QueenValueMg X <=?
             non_pawn_material_c pos
               (if is_horde_color pos WHITE then WHITE else BLACK))
         && negb (is_horde_color pos strongSide)
      then 10 else sf
  end.

(** *** evaluate_threats<Us> *)

Definition left_of (Us : Color) : Direction :=
  match Us with WHITE => NORTH_WEST | BLACK => SOUTH_EAST end.
Definition right_of (Us : Color) : Direction :=
  match Us with WHITE => NORTH_EAST | BLACK => SOUTH_WEST end.

Definition PAWN_to_KING : list PieceType := [PAWN; KNIGHT; BISHOP; ROOK; QUEEN; KING].

(** The Anti and the Losers branch, which differ in their tables and in the
    piece-count penalty ([pieceCount], Anti only). *)
Definition forced_capture_threats (Attacks : list (list (list Score)))
  (Threats : list Score) (pieceCount : bool) (Us : Color) (st : EvalState)
  : Score :=
  let Them := opp Us in
  let TRank2BB := match Us with WHITE => Rank2BB | BLACK => Rank7BB end in
  let weCapture := nz (Z.land (attackedBy st Us ALL_PIECES) (pieces_c pos Them)) in
  let theyCapture := nz (Z.land (attackedBy st Them ALL_PIECES) (pieces_c pos Us)) in
  let score := SCORE_ZERO in
  let score :=
    if weCapture then
      let theyDefended :=
        nz (Z.land (Z.land (attackedBy st Us ALL_PIECES) (pieces_c pos Them))
                   (attackedBy st Them ALL_PIECES)) in
      let score :=
        fold_left
          (fun score pt =>
             if nz (Z.land (Z.land (attackedBy st Us pt) (pieces_c pos Them))
                           (bb_not (attackedBy2 st Us)))
             then score -! at3 SCORE_ZERO Attacks (b2z theyCapture)
                               (b2z theyDefended) (PieceType_idx pt)
             else if nz (Z.land (attackedBy st Us pt) (pieces_c pos Them))
             then score -! at3 SCORE_ZERO Attacks (b2z theyCapture)
                               (b2z theyDefended) (PieceType_idx NO_PIECE_TYPE)
             else score)
          PAWN_to_KING score in
      if pieceCount && theyCapture
      then score -! PieceCountAnti *! count pos ALL_PIECES Us
      else score
    else score in
  if negb weCapture || theyCapture then
    let b := pieces_c_pt pos Us PAWN in
    let pawnPushes :=
      Z.land (shift (up_of Us)
                    (Z.lor b (Z.land (shift (up_of Us) (Z.land b TRank2BB))
                                     (bb_not (pieces pos)))))
             (bb_not (pieces pos)) in
    let pieceMoves :=
      Z.land (Z.lor (Z.lor (Z.lor (Z.lor (attackedBy st Us KNIGHT)
                                         (attackedBy st Us BISHOP))
                                  (attackedBy st Us ROOK))
                           (attackedBy st Us QUEEN))
                    (attackedBy st Us KING))
             (bb_not (pieces pos)) in
    let threats := Z.lor pawnPushes pieceMoves in
    let unprotectedPawnPushes :=
      Z.land pawnPushes (bb_not (attackedBy st Us ALL_PIECES)) in
    let unprotectedPieceMoves := Z.land pieceMoves (bb_not (attackedBy2 st Us)) in
    let safeThreats := Z.lor unprotectedPawnPushes unprotectedPieceMoves in
    let score := score +! at1 SCORE_ZERO Threats 0
                          *! popcount (Z.land (attackedBy st Them ALL_PIECES) threats) in
    score +! at1 SCORE_ZERO Threats 1
             *! popcount (Z.land (attackedBy st Them ALL_PIECES) safeThreats)
  else score.

(** The two loops that add [ThreatByMinor] or [ThreatByRook]. *)
Definition threat_by (Table : list Score) (Us : Color) (b : Bitboard)
  (score : Score) : Score :=
  fold_left
    (fun score s =>
       let pt := type_of (piece_on pos s) in
       let score := score +! at1 SCORE_ZERO Table (PieceType_idx pt) in
       if negb (PieceType_eqb pt PAWN)
       then score +! ThreatByRank *! relative_rank (opp Us) s
       else score)
    (squares b) score.

(** Horde: how close we are to breaking through the pawn wall. *)
Definition horde_wall_min (Us : Color) (st : EvalState) : Z :=
  let Them := opp Us in
  if nz (Z.land (Z.lor (attackedBy st Us QUEEN) (attackedBy st Us ROOK))
                (rank_bb RANK_1))
  then 0
  else
    fold_left
      (fun m f =>
         let pawns := popcount (Z.land (pieces_c_pt pos Them PAWN) (file_bb f)) in
         let pawnsl :=
           if FILE_A <? f
           then Z.min (popcount (Z.land (pieces_c_pt pos Them PAWN) (FileBB (f - 1))))
                      pawns
           else 0 in
         let pawnsr :=
           if f <? FILE_H
           then Z.min (popcount (Z.land (pieces_c_pt pos Them PAWN) (FileBB (f + 1))))
                      pawns
           else 0 in
         Z.min m (pawnsl + pawnsr))
      files_A_H 8.

Definition standard_threats (Us : Color) (st : EvalState) : Score :=
  let Them := opp Us in
  let Up := up_of Us in
  let Left := left_of Us in
  let Right := right_of Us in
  let TRank3BB := match Us with WHITE => Rank3BB | BLACK => Rank6BB end in
  let score := SCORE_ZERO in
  let weak := Z.land (Z.lxor (pieces_c pos Them) (pieces_c_pt pos Them PAWN))
                     (attackedBy st Us PAWN) in
  let score :=
    if nz weak then
      let b := Z.land (pieces_c_pt pos Us PAWN)
                      (Z.lor (bb_not (attackedBy st Them ALL_PIECES))
                             (attackedBy st Us ALL_PIECES)) in
      let safeThreats := Z.land (Z.lor (shift Right b) (shift Left b)) weak in
      let score := score +! ThreatBySafePawn *! popcount safeThreats in
      if nz (Z.lxor weak safeThreats) then score +! ThreatByHangingPawn else score
    else score in
  let stronglyProtected :=
    Z.lor (attackedBy st Them PAWN)
          (Z.land (attackedBy2 st Them) (bb_not (attackedBy2 st Us))) in
  let defended := Z.land (Z.lxor (pieces_c pos Them) (pieces_c_pt pos Them PAWN))
                         stronglyProtected in
  let weak := Z.land (Z.land (pieces_c pos Them) (bb_not stronglyProtected))
                     (attackedBy st Us ALL_PIECES) in
  let score :=
    if nz (Z.lor defended weak) then
      let score :=
        threat_by ThreatByMinor Us
          (Z.land (Z.lor defended weak)
                  (Z.lor (attackedBy st Us KNIGHT) (attackedBy st Us BISHOP)))
          score in
      let score :=
        threat_by ThreatByRook Us
          (Z.land (Z.lor (pieces_c_pt pos Them QUEEN) weak) (attackedBy st Us ROOK))
          score in
      let score :=
        score +! Hanging
                 *! popcount (Z.land weak (bb_not (attackedBy st Them ALL_PIECES))) in
      let b := Z.land weak (attackedBy st Us KING) in
      if nz b
      then score +! at1 SCORE_ZERO ThreatByKing (b2z (more_than_one b))
      else score
    else score in
  let score :=
    if nz (pieces_c_pt2 pos Us ROOK QUEEN)
    then score +! WeakUnopposedPawn *! weak_unopposed pe Them
    else score in
  let b := Z.land (shift Up (pieces_c_pt pos Us PAWN)) (bb_not (pieces pos)) in
  let b := Z.lor b (Z.land (shift Up (Z.land b TRank3BB)) (bb_not (pieces pos))) in
  let b := Z.land b
             (Z.land (bb_not (attackedBy st Them PAWN))
                     (Z.lor (attackedBy st Us ALL_PIECES)
                            (bb_not (attackedBy st Them ALL_PIECES)))) in
  let b := Z.land (Z.land (Z.lor (shift Left b) (shift Right b)) (pieces_c pos Them))
                  (bb_not (attackedBy st Us PAWN)) in
  let score := score +! ThreatByPawnPush *! popcount b in
  let score :=
    if is_three_check pos
    then score +! at1 SCORE_ZERO ChecksGivenBonus (checks_given pos Us)
    else score in
  let score :=
    if is_horde pos && is_horde_color pos Them then
      if nz (Z.lor (pieces_c_pt pos Us ROOK) (pieces_c_pt pos Us QUEEN)) then
        let min := horde_wall_min Us st in
        score +! ThreatByHangingPawn *! count pos PAWN Them /! (1 + min)
                 /! (if nz (pieces_c_pt pos Us QUEEN) then 2 else 4)
      else score
    else score in
  let safeThreats :=
    Z.land (Z.land (bb_not (pieces_c pos Us)) (bb_not (attackedBy2 st Them)))
           (attackedBy2 st Us) in
  let b := Z.lor (Z.land (attackedBy st Us BISHOP) (attackedBy st Them QUEEN_DIAGONAL))
                 (Z.land (Z.land (attackedBy st Us ROOK) (attackedBy st Them QUEEN))
                         (bb_not (attackedBy st Them QUEEN_DIAGONAL))) in
  score +! ThreatByAttackOnQueen *! popcount (Z.land b safeThreats).

Definition evaluate_threats (Us : Color) (st : EvalState) : Score :=
  if is_anti pos then forced_capture_threats AttacksAnti ThreatsAnti true Us st
  else if is_atomic pos then SCORE_ZERO
  else if is_losers pos then forced_capture_threats AttacksLosers ThreatsLosers false Us st
  else standard_threats Us st.

(** *** value *)

(** Which of the [return] statements of [value] produced the result. *)
Inductive Exit : Type :=
  | ReturnVariantEnd | ReturnSpecialized | ReturnLazy | ReturnBlended.

(** The score on which the lazy test is made: PSQ, imbalance, contempt and
    pawn-structure score. *)
Definition seed_score : Score :=
  psq_score pos +! imbalance me +! Contempt X +! pawns_score pe.

(** [initialize] for both colours and the eight [evaluate_pieces] calls, in
    the order of [value]: the state they leave and [score] with the piece
    terms added. *)
Definition run_pieces (st : EvalState) (score : Score) : EvalState * Score :=
  let st := initialize WHITE st in
  let st := initialize BLACK st in
  let '(st, w) := evaluate_pieces WHITE KNIGHT st in
  let '(st, b) := evaluate_pieces BLACK KNIGHT st in
  let score := score +! (w -! b) in
  let '(st, w) := evaluate_pieces WHITE BISHOP st in
  let '(st, b) := evaluate_pieces BLACK BISHOP st in
  let score := score +! (w -! b) in
  let '(st, w) := evaluate_pieces WHITE ROOK st in
  let '(st, b) := evaluate_pieces BLACK ROOK st in
  let score := score +! (w -! b) in
  let '(st, w) := evaluate_pieces WHITE QUEEN st in
  let '(st, b) := evaluate_pieces BLACK QUEEN st in
  let score := score +! (w -! b) in
  (st, score).

(** "Main evaluation begins here": the score just before the interpolation. *)
Definition main_score (st : EvalState) (score : Score) : Score :=
  let '(st, score) := run_pieces st score in
  let score := score +! (mobility st WHITE -! mobility st BLACK) in
  let score :=
    if is_anti pos then score
    else if is_extinction pos then score
    else if is_race pos then score
    else score +! (evaluate_king WHITE st -! evaluate_king BLACK st) in
  let score := score +! (evaluate_threats WHITE st -! evaluate_threats BLACK st) in
  let score :=
    score +! (evaluate_passed_pawns WHITE st -! evaluate_passed_pawns BLACK st) in
  let score :=
    if is_horde pos then score
    else if at1 0 SpaceThreshold (vidx (variant pos)) <=? non_pawn_material pos
    then score +! (evaluate_space WHITE st -! evaluate_space BLACK st)
    else score in
  if is_anti pos then score
  else if is_horde pos then score
  else score +! evaluate_initiative (eg_value score).

(** The interpolation between the middlegame and the scaled endgame score. *)
Definition blend (score : Score) : Value :=
  let sf := evaluate_scale_factor (eg_value score) in
  let v := mg_value score * game_phase me
           + cdiv (eg_value score * (PHASE_MIDGAME - game_phase me) * sf)
                  SCALE_FACTOR_NORMAL in
  cdiv v PHASE_MIDGAME.

(** [Evaluation<NO_TRACE>::value], together with the [return] statement
    taken.  [garbage] is the content of the members that the constructor
    leaves uninitialised. *)
Definition value_exit (garbage : EvalState) : Exit * Value :=
  if is_variant_end pos then (ReturnVariantEnd, variant_result pos)
  else if specialized_eval_exists me then (ReturnSpecialized, me_evaluate me)
  else
    let score := seed_score in
    let v := cdiv (mg_value score + eg_value score) 2 in
    if Variant_eqb (variant pos) CHESS_VARIANT && (LazyThreshold <? Z.abs v)
    then (ReturnLazy, if Color_eqb (side_to_move pos) WHITE then v else - v)
    else
      let score := main_score (Evaluation_ctor garbage) score in
      let v := blend score in
      (ReturnBlended, if Color_eqb (side_to_move pos) WHITE then v else - v).

Definition value (garbage : EvalState) : Value := snd (value_exit garbage).

(** [Eval::evaluate], the evaluator for the outer world. *)
Definition evaluate (garbage : EvalState) : Value :=
  value garbage + Tempo X (variant pos).

End Evaluation.

(** ** The attack maps *)

Definition piece_types : list PieceType := [KNIGHT; BISHOP; ROOK; QUEEN].

(** The union of [attackedBy[c][pt]] over the six piece types. *)
Definition union_of_attacks (st : EvalState) (c : Color) : Bitboard :=
  fold_left (fun acc pt => Z.lor acc (attackedBy st c pt))
            [PAWN; KNIGHT; BISHOP; ROOK; QUEEN; KING] 0.

(** Inclusion of bitboards. *)
Definition bb_subset (a b : Bitboard) : Prop := Z.land a b = a.

(** The states the evaluation object goes through once [initialize<c>] has
    run: what [initialize<c>] leaves, and from there what [initialize] of the
    other colour, the statements at the head of any [evaluate_pieces] and
    any iteration of its loop make of it. *)
Inductive after_initialize (X : Extern) (pos : Position) (c : Color)
  : EvalState -> Prop :=
  | ai_initialize st :
      after_initialize X pos c (initialize X pos c st)
  | ai_initialize_other st :
      after_initialize X pos c st ->
      after_initialize X pos c (initialize X pos (opp c) st)
  | ai_entry Us Pt st :
      In Pt piece_types ->
      after_initialize X pos c st ->
      after_initialize X pos c (pieces_entry Us Pt st)
  | ai_body Us Pt s st score :
      In Pt piece_types ->
      after_initialize X pos c st ->
      after_initialize X pos c (fst (pieces_body X pos Us Pt s (st, score))).

(** [same_attacks c st st']: the attack maps of colour [c] are the same in
    both states. *)
Definition same_attacks (c : Color) (st st' : EvalState) : Prop :=
  forall pt, attackedBy st' c pt = attackedBy st c pt.

(** [merged c Pt st st']: from [st] to [st'] the attacks of the pieces of
    type [Pt] of colour [c] were recomputed and merged into the all-pieces
    map, the maps of the other piece types being left alone. *)
Definition merged (c : Color) (Pt : PieceType) (st st' : EvalState) : Prop :=
  attackedBy st' c ALL_PIECES
  = Z.lor (attackedBy st c ALL_PIECES) (attackedBy st' c Pt)
  /\ (forall pt, pt <> Pt -> pt <> ALL_PIECES -> pt <> QUEEN_DIAGONAL ->
      attackedBy st' c pt = attackedBy st c pt).

(** The state after [initialize<c>] and the four [evaluate_pieces<c, Pt>]
    on their own. *)
Definition run_color (X : Extern) (pos : Position) (c : Color) (st : EvalState)
  : EvalState :=
  let st := initialize X pos c st in
  let st := fst (evaluate_pieces X pos c KNIGHT st) in
  let st := fst (evaluate_pieces X pos c BISHOP st) in
  let st := fst (evaluate_pieces X pos c ROOK st) in
  fst (evaluate_pieces X pos c QUEEN st).

(** ** Well-formed bitboards *)

(** A [Bitboard] is a [uint64_t]. *)
Definition is_bitboard (b : Z) : Prop := 0 <= b <= All64.

(** ** The mask of the king tropism *)

(** The mask that [king_flank_attacks] applies to the enemy attacks. *)
Definition flank_camp (Us : Color) (kf : Z) : Bitboard :=
  Z.land (at1 0 KingFlank kf) (Camp Us).

(** ** Concrete tables and positions for the examples *)

(** An instance of the attack tables for the usual 8x8 board, an instance of
    [Position] built from a list of pieces, and a few positions.  They serve
    as the concrete inputs of the examples below; the general statements
    hold for every instance. *)
Module Sample.

Definition on_board (f r : Z) : bool :=
  (0 <=? f) && (f <? 8) && (0 <=? r) && (r <? 8).

Definition make_square (f r : Z) : Square := 8 * r + f.

Definition is_square (s : Square) : bool := (0 <=? s) && (s <? 64).

Definition step_attacks (steps : list (Z * Z)) (s : Square) : Bitboard :=
  if is_square s then
    fold_left
      (fun acc d =>
         let f := file_of s + fst d in
         let r := rank_of s + snd d in
         if on_board f r then Z.lor acc (SquareBB (make_square f r)) else acc)
      steps 0
  else 0.

Definition king_steps : list (Z * Z) :=
  [(1, 0); (1, 1); (0, 1); (-1, 1); (-1, 0); (-1, -1); (0, -1); (1, -1)].
Definition knight_steps : list (Z * Z) :=
  [(1, 2); (2, 1); (2, -1); (1, -2); (-1, -2); (-2, -1); (-2, 1); (-1, 2)].
Definition rook_dirs : list (Z * Z) := [(1, 0); (-1, 0); (0, 1); (0, -1)].
Definition bishop_dirs : list (Z * Z) := [(1, 1); (1, -1); (-1, 1); (-1, -1)].

(** The squares seen from ([f], [r]) in direction ([df], [dr]), up to and
    including the first occupied one. *)
Fixpoint ray (fuel : nat) (f r df dr : Z) (occ : Bitboard) : Bitboard :=
  match fuel with
  | O => 0
  | S n =>
      let f' := f + df in
      let r' := r + dr in
      if on_board f' r' then
        let b := SquareBB (make_square f' r') in
        if nz (Z.land occ b) then b else Z.lor b (ray n f' r' df dr occ)
      else 0
  end.

Definition slider_attacks (dirs : list (Z * Z)) (s : Square) (occ : Bitboard)
  : Bitboard :=
  if is_square s then
    fold_left
      (fun acc d => Z.lor acc (ray 7 (file_of s) (rank_of s) (fst d) (snd d) occ))
      dirs 0
  else 0.

Definition attacks_bb_8x8 (pt : PieceType) (s : Square) (occ : Bitboard) : Bitboard :=
  match pt with
  | BISHOP => slider_attacks bishop_dirs s occ
  | ROOK => slider_attacks rook_dirs s occ
  | QUEEN => Z.lor (slider_attacks bishop_dirs s occ) (slider_attacks rook_dirs s occ)
  | _ => 0
  end.

Definition PseudoAttacks_8x8 (pt : PieceType) (s : Square) : Bitboard :=
  match pt with
  | KING => step_attacks king_steps s
  | KNIGHT => step_attacks knight_steps s
  | BISHOP | ROOK | QUEEN => attacks_bb_8x8 pt s 0
  | _ => 0
  end.

Definition all_squares : list Square := map Z.of_nat (seq 0 64).

Definition bb_of (ss : list Square) : Bitboard :=
  fold_left (fun acc s => Z.lor acc (SquareBB s)) ss 0.

Definition LineBB_8x8 (s1 s2 : Square) : Bitboard :=
  if nz (Z.land (PseudoAttacks_8x8 ROOK s1) (SquareBB s2)) then
    Z.lor (Z.lor (Z.land (PseudoAttacks_8x8 ROOK s1) (PseudoAttacks_8x8 ROOK s2))
                 (SquareBB s1)) (SquareBB s2)
  else if nz (Z.land (PseudoAttacks_8x8 BISHOP s1) (SquareBB s2)) then
    Z.lor (Z.lor (Z.land (PseudoAttacks_8x8 BISHOP s1) (PseudoAttacks_8x8 BISHOP s2))
                 (SquareBB s1)) (SquareBB s2)
  else 0.

Definition DistanceRingBB_8x8 (s : Square) (d : Z) : Bitboard :=
  bb_of (filter (fun s2 => distance s s2 =? d + 1) all_squares).

Definition forward_file_bb_8x8 (c : Color) (s : Square) : Bitboard :=
  bb_of (filter (fun s2 =>
                   (file_of s2 =? file_of s)
                   && match c with
                      | WHITE => rank_of s <? rank_of s2
                      | BLACK => rank_of s2 <? rank_of s
                      end)
                all_squares).

(** A position given by its pieces. *)
Definition Placement : Type := list (Square * (Color * PieceType)).

Definition on_type (pl : Placement) (pt : PieceType) : list Square :=
  map fst (filter (fun e => PieceType_eqb (snd (snd e)) pt) pl).
Definition on_color (pl : Placement) (c : Color) : list Square :=
  map fst (filter (fun e => Color_eqb (fst (snd e)) c) pl).
Definition on_both (pl : Placement) (c : Color) (pt : PieceType) : list Square :=
  map fst (filter (fun e => Color_eqb (fst (snd e)) c
                            && PieceType_eqb (snd (snd e)) pt) pl).

Definition lookup (pl : Placement) (s : Square) : Piece :=
  match filter (fun e => fst e =? s) pl with
  | e :: _ => Some (snd e)
  | [] => None
  end.

Definition knight_mg : Value := 764.
Definition bishop_mg : Value := 826.
Definition bishop_eg : Value := 891.
Definition rook_mg : Value := 1282.
Definition queen_mg : Value := 2526.

Definition piece_value (pt : PieceType) : Value :=
  match pt with
  | KNIGHT => knight_mg | BISHOP => bishop_mg
  | ROOK => rook_mg | QUEEN => queen_mg
  | _ => 0
  end.

Definition position (v : Variant) (stm : Color) (pl : Placement)
  (is_horde_color : Color -> bool) (opposite_bishops : bool)
  (pawn_passed : Color -> Square -> bool) (psq : Score) : Position :=
  let occ := bb_of (map fst pl) in
  {| byTypeBB := fun pt => match pt with
                           | ALL_PIECES => occ
                           | _ => bb_of (on_type pl pt)
                           end;
     byColorBB := fun c => bb_of (on_color pl c);
     squares_of := fun pt c => on_both pl c pt ++ [SQ_NONE];
     square_KING := fun c => hd SQ_NONE (on_both pl c KING);
     piece_on := lookup pl;
     count := fun pt c => match pt with
                          | ALL_PIECES => Z.of_nat (length (on_color pl c))
                          | _ => Z.of_nat (length (on_both pl c pt))
                          end;
     count_in_hand := fun _ _ => 0;
     attacks_from := fun pt s => match pt with
                                 | BISHOP | ROOK | QUEEN => attacks_bb_8x8 pt s occ
                                 | _ => PseudoAttacks_8x8 pt s
                                 end;
     attackers_to := fun _ => 0;
     pinned_pieces := fun _ => 0;
     slider_blockers := fun _ _ => 0;
     side_to_move := stm;
     can_castle := fun _ => false;
     is_chess960 := false;
     variant := v;
     checks_given := fun _ => 0;
     is_horde_color := is_horde_color;
     grid_bb := fun _ => 0;
     opposite_bishops := opposite_bishops;
     pawn_passed := pawn_passed;
     non_pawn_material_c :=
       fun c => fold_left (fun acc e => if Color_eqb (fst (snd e)) c
                                        then acc + piece_value (snd (snd e))
                                        else acc) pl 0;
     psq_score := psq;
     checkers := 0;
     is_variant_end := false;
     variant_result := 0 |}.

Definition material (sf : Color -> Z) (phase : Z) (imb : Score) : MaterialEntry :=
  {| specialized_eval_exists := false;
     me_evaluate := 0;
     imbalance := imb;
     scale_factor := sf;
     game_phase := phase |}.

Definition pawns (attacks passed : Color -> Bitboard)
  (shelter : Color -> Square -> Score) (sc : Score) (asym : Z) : PawnEntry :=
  {| pawn_attacks := attacks;
     pawn_attacks_span := attacks;
     passed_pawns := passed;
     king_safety := shelter;
     pawns_score := sc;
     semiopen_file := fun _ _ => false;
     semiopen_side := fun _ _ _ => false;
     weak_unopposed := fun _ => 0;
     open_files := 0;
     pawn_asymmetry := asym;
     pawns_on_same_color_squares := fun _ _ => 0 |}.

Definition extern (m : MaterialEntry) (p : PawnEntry) : Extern :=
  {| attacks_bb := attacks_bb_8x8;
     PseudoAttacks := PseudoAttacks_8x8;
     LineBB := LineBB_8x8;
     DistanceRingBB := DistanceRingBB_8x8;
     forward_file_bb := forward_file_bb_8x8;
     KnightValueMg := knight_mg;
     BishopValueMg := bishop_mg;
     BishopValueEg := bishop_eg;
     RookValueMg := rook_mg;
     QueenValueMg := queen_mg;
     SCALE_FACTOR_ONEPAWN := 48;
     Material_probe := fun _ => m;
     Pawns_probe := fun _ => p;
     Contempt := SCORE_ZERO;
     Tempo := fun _ => 20 |}.

(** Memory that happens to be all zero. *)
Definition zeroed : EvalState :=
  {| mobilityArea := fun _ => 0;
     mobility := fun _ => SCORE_ZERO;
     attackedBy := fun _ _ => 0;
     attackedBy2 := fun _ => 0;
     kingRing := fun _ => 0;
     kingAttackersCount := fun _ => 0;
     kingAttackersWeight := fun _ => 0;
     kingAdjacentZoneAttacksCount := fun _ => 0 |}.

(** Kings, opposite-coloured bishops and one pawn each:
    White Ke1, Bc1, a2; Black Ke8, Bc8, a7. *)
Definition kbp_kbp : Placement :=
  [(4, (WHITE, KING)); (2, (WHITE, BISHOP)); (8, (WHITE, PAWN));
   (60, (BLACK, KING)); (58, (BLACK, BISHOP)); (48, (BLACK, PAWN))].

Definition pos_kbp (v : Variant) (stm : Color) (psq : Score) : Position :=
  position v stm kbp_kbp (fun _ => false) true (fun _ _ => false) psq.

(** Its pawn entry: a2 attacks b3, a7 attacks b6, no passed pawn; and its
    material entry: normal scale factor, endgame phase. *)
Definition pe_kbp : PawnEntry :=
  pawns (fun c => match c with WHITE => SquareBB 17 | BLACK => SquareBB 41 end)
        (fun _ => 0) (fun _ _ => SCORE_ZERO) SCORE_ZERO 0.

Definition me_kbp : MaterialEntry :=
  material (fun _ => SCALE_FACTOR_NORMAL) 0 SCORE_ZERO.

Definition X_kbp : Extern := extern me_kbp pe_kbp.

(** A candidate passer with an enemy pawn in front of it:
    White Kg1, e5; Black Kg8, e6. *)
Definition candidate : Placement :=
  [(6, (WHITE, KING)); (36, (WHITE, PAWN));
   (62, (BLACK, KING)); (44, (BLACK, PAWN))].

Definition pos_candidate : Position :=
  position CHESS_VARIANT WHITE candidate (fun _ => false) false
           (fun _ _ => true) SCORE_ZERO.

Definition pe_candidate : PawnEntry :=
  pawns (fun c => match c with
                  | WHITE => Z.lor (SquareBB 43) (SquareBB 45)
                  | BLACK => Z.lor (SquareBB 35) (SquareBB 37)
                  end)
        (fun c => match c with WHITE => SquareBB 36 | BLACK => 0 end)
        (fun _ _ => SCORE_ZERO) SCORE_ZERO 0.

Definition X_candidate : Extern :=
  extern (material (fun _ => SCALE_FACTOR_NORMAL) 0 SCORE_ZERO) pe_candidate.

(** Horde: White is the horde and has no king; Black has promoted a second
    queen.  White a4, b4, c4, d4; Black Ke8, Qd8, Qa8, Rh8, Ng8. *)
Definition horde : Placement :=
  [(24, (WHITE, PAWN)); (25, (WHITE, PAWN)); (26, (WHITE, PAWN));
   (27, (WHITE, PAWN));
   (60, (BLACK, KING)); (59, (BLACK, QUEEN)); (56, (BLACK, QUEEN));
   (63, (BLACK, ROOK)); (62, (BLACK, KNIGHT))].

Definition pos_horde : Position :=
  position HORDE_VARIANT WHITE horde
           (fun c => match c with WHITE => true | BLACK => false end) false
           (fun _ _ => false) SCORE_ZERO.

(** Its pawn entry, with a shelter score of (-100, 0) for either side. *)
Definition pe_horde : PawnEntry :=
  pawns (fun c => match c with
                  | WHITE => bb_of [32; 33; 34; 35; 36]
                  | BLACK => 0
                  end)
        (fun _ => 0) (fun _ _ => make_score (-100) 0) SCORE_ZERO 0.

Definition X_horde : Extern :=
  extern (material (fun _ => SCALE_FACTOR_NORMAL) 100 SCORE_ZERO) pe_horde.

(** Standard chess, Black with a promoted second queen, neither queen near
    the white king: White Kh1, g2, h2; Black Kc8, Qa8, Qb8, b7, c7. *)
Definition two_queens : Placement :=
  [(7, (WHITE, KING)); (14, (WHITE, PAWN)); (15, (WHITE, PAWN));
   (58, (BLACK, KING)); (56, (BLACK, QUEEN)); (57, (BLACK, QUEEN));
   (49, (BLACK, PAWN)); (50, (BLACK, PAWN))].

Definition pos_two_queens : Position :=
  position CHESS_VARIANT WHITE two_queens (fun _ => false) false
           (fun _ _ => false) SCORE_ZERO.

Definition pe_two_queens : PawnEntry :=
  pawns (fun c => match c with
                  | WHITE => bb_of [21; 22; 23]
                  | BLACK => bb_of [40; 41; 42; 43]
                  end)
        (fun _ => 0) (fun _ _ => make_score 60 0) SCORE_ZERO 0.

Definition X_two_queens : Extern :=
  extern (material (fun _ => SCALE_FACTOR_NORMAL) 60 SCORE_ZERO) pe_two_queens.

End Sample.

(** ** Further names for parts of the evaluation *)

(** [SpaceMask], [safe] and [behind] of [evaluate_space<Us>], the argument of
    its [assert] and its [bonus]. *)
Definition SpaceMask (Us : Color) : Bitboard :=
  match Us with
  | WHITE => Z.land CenterFiles (Z.lor (Z.lor Rank2BB Rank3BB) Rank4BB)
  | BLACK => Z.land CenterFiles (Z.lor (Z.lor Rank7BB Rank6BB) Rank5BB)
  end.

Definition space_safe (pos : Position) (Us : Color) (st : EvalState) : Bitboard :=
  Z.land (Z.land (Z.land (SpaceMask Us) (bb_not (pieces_c_pt pos Us PAWN)))
                 (bb_not (attackedBy st (opp Us) PAWN)))
         (Z.lor (attackedBy st Us ALL_PIECES)
                (bb_not (attackedBy st (opp Us) ALL_PIECES))).

Definition space_behind (pos : Position) (Us : Color) : Bitboard :=
  let behind := pieces_c_pt pos Us PAWN in
  let behind := Z.lor behind (match Us with
                              | WHITE => shr behind 8
                              | BLACK => shl behind 8
                              end) in
  Z.lor behind (match Us with
                | WHITE => shr behind 16
                | BLACK => shl behind 16
                end).

(** The conversion [unsigned(b)]: the low 32 bits. *)
Definition to_unsigned (b : Z) : Z := Z.land b 0xFFFFFFFF.

(** [assert(unsigned(safe >> (Us == WHITE ? 32 : 0)) == 0)]. *)
Definition space_assert (pos : Position) (Us : Color) (st : EvalState) : bool :=
  to_unsigned (shr (space_safe pos Us st)
                   (match Us with WHITE => 32 | BLACK => 0 end)) =? 0.

Definition space_bonus (pos : Position) (Us : Color) (st : EvalState) : Z :=
  popcount (Z.lor (match Us with
                   | WHITE => shl (space_safe pos Us st) 32
                   | BLACK => shr (space_safe pos Us st) 32
                   end)
                  (Z.land (space_behind pos Us) (space_safe pos Us st))).

(** [dist] of the King of the Hill bonus for the centre square [c], the
    argument of [assert(dist > 0)]. *)
Definition koth_dist (pos : Position) (Us : Color) (c : Square) : Z :=
  distance (square_KING pos Us) c
  + popcount (Z.land (attackers_to pos c) (pieces_c pos (opp Us)))
  + popcount (Z.land (pieces_c pos Us) (SquareBB c)).

Definition koth_center : list Square := [SQ_E4; SQ_D4; SQ_D5; SQ_E5].

(** The squares that [king_tropism] counts: the flank squares the enemy
    attacks, moved by four bits, and those of them that are attacked twice
    and not defended by our pawns. *)
Definition close_enemies (pos : Position) (Us : Color) (st : EvalState) : Bitboard :=
  let b := king_flank_attacks pos Us st in
  Z.lor (shift4 Us b)
        (Z.land (Z.land b (attackedBy2 st (opp Us))) (bb_not (attackedBy st Us PAWN))).

(** [merged2 c Pt st st']: from [st] to [st'] the double attacks of colour
    [c] only grew, and they took in every square that was attacked by [c] in
    [st] and is attacked by a piece of type [Pt] in [st']. *)
Definition merged2 (c : Color) (Pt : PieceType) (st st' : EvalState) : Prop :=
  bb_subset (attackedBy2 st c) (attackedBy2 st' c)
  /\ bb_subset (Z.land (attackedBy st c ALL_PIECES) (attackedBy st' c Pt))
               (attackedBy2 st' c).

Definition six_piece_types : list PieceType :=
  [PAWN; KNIGHT; BISHOP; ROOK; QUEEN; KING].

(** ** What a call leaves alone *)

(** Every member of colour [c] has the same content in [st'] as in [st]. *)
Definition untouched (c : Color) (st st' : EvalState) : Prop :=
  (forall pt, attackedBy st' c pt = attackedBy st c pt)
  /\ attackedBy2 st' c = attackedBy2 st c
  /\ mobility st' c = mobility st c
  /\ kingAttackersCount st' c = kingAttackersCount st c
  /\ kingAttackersWeight st' c = kingAttackersWeight st c
  /\ kingAdjacentZoneAttacksCount st' c = kingAdjacentZoneAttacksCount st c.

(** The king rings and the mobility areas of both colours are the same. *)
Definition same_areas (st st' : EvalState) : Prop :=
  forall c, kingRing st' c = kingRing st c
            /\ mobilityArea st' c = mobilityArea st c.

(** What [evaluate_pieces<Us>] reads of the members: those of [Us], the king
    ring and the king attacks of the other colour and the own mobility
    area. *)
Definition same_view (Us : Color) (st st' : EvalState) : Prop :=
  untouched Us st st'
  /\ kingRing st' (opp Us) = kingRing st (opp Us)
  /\ mobilityArea st' Us = mobilityArea st Us
  /\ attackedBy st' (opp Us) KING = attackedBy st (opp Us) KING.

(** Equality of all the members, cell by cell. *)
Definition state_eq (st st' : EvalState) : Prop :=
  (forall c, untouched c st st') /\ same_areas st st'.

(** ** The side to move *)

(** The position that differs from [pos] in the side to move only. *)
Definition with_side_to_move (pos : Position) (c : Color) : Position :=
  {| byTypeBB := byTypeBB pos;
     byColorBB := byColorBB pos;
     squares_of := squares_of pos;
     square_KING := square_KING pos;
     piece_on := piece_on pos;
     count := count pos;
     count_in_hand := count_in_hand pos;
     attacks_from := attacks_from pos;
     attackers_to := attackers_to pos;
     pinned_pieces := pinned_pieces pos;
     slider_blockers := slider_blockers pos;
     side_to_move := c;
     can_castle := can_castle pos;
     is_chess960 := is_chess960 pos;
     variant := variant pos;
     checks_given := checks_given pos;
     is_horde_color := is_horde_color pos;
     grid_bb := grid_bb pos;
     opposite_bishops := opposite_bishops pos;
     pawn_passed := pawn_passed pos;
     non_pawn_material_c := non_pawn_material_c pos;
     psq_score := psq_score pos;
     checkers := checkers pos;
     is_variant_end := is_variant_end pos;
     variant_result := variant_result pos |}.

(** ** Signs *)

(** A [Score] that is a bonus in both game phases. *)
Definition score_nonneg (s : Score) : Prop :=
  0 <= mg_value s /\ 0 <= eg_value s.

(** ** The members the constructor leaves uninitialised *)

(** Two runs agree on what has been written so far: on the attack maps of the
    slots in [P], on the weight and the zone count of a colour whose enemy
    has king safety enabled, and on all the other members. *)
Definition same_known (enabled : Color -> bool) (P : Color -> PieceType -> Prop)
  (st st' : EvalState) : Prop :=
  (forall c pt, P c pt -> attackedBy st' c pt = attackedBy st c pt)
  /\ (forall c, attackedBy2 st' c = attackedBy2 st c)
  /\ (forall c, mobility st' c = mobility st c)
  /\ (forall c, mobilityArea st' c = mobilityArea st c)
  /\ (forall c, kingRing st' c = kingRing st c)
  /\ (forall c, kingAttackersCount st' c = kingAttackersCount st c)
  /\ (forall c, enabled (opp c) = true ->
        kingAttackersWeight st' c = kingAttackersWeight st c
        /\ kingAdjacentZoneAttacksCount st' c = kingAdjacentZoneAttacksCount st c).

(** The slots that [initialize] writes. *)
Definition seeded (c : Color) (pt : PieceType) : Prop :=
  pt = KING \/ pt = PAWN \/ pt = ALL_PIECES.

(** [P] and the slots that [evaluate_pieces<Us, Pt>] resets. *)
Definition with_slot (P : Color -> PieceType -> Prop) (Us : Color) (Pt : PieceType)
  (c : Color) (pt : PieceType) : Prop :=
  P c pt \/ (c = Us /\ (pt = Pt \/ (Pt = QUEEN /\ pt = QUEEN_DIAGONAL))).

(** * Properties *)

(** ** Decidable equalities of the enumerations *)

Lemma Color_eqb_eq a b : Color_eqb a b = true <-> a = b.
Proof. destruct a, b; simpl; split; congruence. Qed.

Lemma PieceType_eqb_eq a b : PieceType_eqb a b = true <-> a = b.
Proof.
  unfold PieceType_eqb; rewrite Z.eqb_eq.
  destruct a, b; simpl; split; intros H; try reflexivity; discriminate H.
Qed.

Lemma Variant_eqb_eq a b : Variant_eqb a b = true <-> a = b.
Proof.
  unfold Variant_eqb; rewrite Nat.eqb_eq.
  destruct a, b; simpl; split; intros H; try reflexivity; discriminate H.
Qed.

Lemma Variant_eqb_neq a b : Variant_eqb a b = false <-> a <> b.
Proof.
  rewrite <- Variant_eqb_eq. destruct (Variant_eqb a b); split; congruence.
Qed.

(** ** Bitboard algebra *)

(** Equalities between combinations of [&] and [|] are settled bit by bit. *)
Ltac bitwise :=
  apply Z.bits_inj'; intros ?i ?Hi;
  repeat (rewrite Z.lor_spec || rewrite Z.land_spec || rewrite Z.bits_0);
  btauto.

Lemma nz_true b : nz b = true <-> b <> 0.
Proof. unfold nz. destruct (Z.eqb_spec b 0); simpl; split; congruence. Qed.

Lemma land_masks_disjoint a b M N :
  Z.land M N = 0 -> Z.land (Z.land a M) (Z.land b N) = 0.
Proof.
  intros H.
  replace (Z.land (Z.land a M) (Z.land b N))
    with (Z.land (Z.land a b) (Z.land M N)) by bitwise.
  rewrite H. apply Z.land_0_r.
Qed.

Lemma popcount_pos_pos p : 0 < popcount_pos p.
Proof. induction p; cbn [popcount_pos]; lia. Qed.

Lemma popcount_shiftl4 b : 0 <= b -> popcount (Z.shiftl b 4) = popcount b.
Proof. destruct b as [|p|p]; intros _; reflexivity. Qed.

Lemma popcount_shiftr4 b :
  0 <= b -> Z.land b 15 = 0 -> popcount (Z.shiftr b 4) = popcount b.
Proof.
  destruct b as [|p|p]; intros H H15; try reflexivity.
  assert (Hb : forall i, 0 <= i < 4 -> Z.testbit (Z.pos p) i = false).
  { intros i Hi.
    pose proof (f_equal (fun z => Z.testbit z i) H15) as E.
    cbv beta in E. rewrite Z.land_spec, Z.bits_0 in E.
    assert (Z.testbit 15 i = true) as E15
      by (assert (i = 0 \/ i = 1 \/ i = 2 \/ i = 3) as [->|[->|[->| ->]]] by lia;
          reflexivity).
    rewrite E15, andb_true_r in E. exact E. }
  pose proof (Hb 0 ltac:(lia)) as H0. pose proof (Hb 1 ltac:(lia)) as H1.
  pose proof (Hb 2 ltac:(lia)) as H2. pose proof (Hb 3 ltac:(lia)) as H3.
  destruct p as [p|p|]; try discriminate H0.
  destruct p as [p|p|]; try discriminate H1.
  destruct p as [p|p|]; try discriminate H2.
  destruct p as [p|p|]; try discriminate H3.
  reflexivity.
Qed.

Lemma land_even_odd a b : Z.land (2 * a) (2 * b + 1) = 2 * Z.land a b.
Proof.
  apply Z.bits_inj'; intros n Hn. rewrite Z.land_spec.
  destruct (Z.eq_dec n 0) as [->|Hne].
  - now rewrite !Z.testbit_even_0.
  - replace n with (Z.succ (n - 1)) by lia.
    rewrite !Z.testbit_even_succ, Z.testbit_odd_succ by lia.
    now rewrite Z.land_spec.
Qed.

Lemma land_odd_even a b : Z.land (2 * a + 1) (2 * b) = 2 * Z.land a b.
Proof. rewrite Z.land_comm, land_even_odd. now rewrite Z.land_comm. Qed.

Lemma nz_double b : nz (2 * b) = nz b.
Proof.
  unfold nz. destruct (Z.eqb_spec b 0), (Z.eqb_spec (2 * b) 0); trivial; lia.
Qed.

(** [more_than_one] holds exactly of the bitboards with two bits or more. *)
Lemma more_than_one_pos p :
  more_than_one (Zpos p) = (1 <? popcount_pos p).
Proof.
  unfold more_than_one.
  induction p as [p IH|p IH|]; cbn [popcount_pos].
  - pose proof (popcount_pos_pos p) as Hp.
    replace (1 <? 1 + popcount_pos p) with true by (symmetry; apply Z.ltb_lt; lia).
    rewrite Pos2Z.inj_xI.
    replace (2 * Z.pos p + 1 - 1) with (2 * Z.pos p) by lia.
    rewrite land_odd_even, Z.land_diag. apply nz_true. lia.
  - rewrite <- IH, Pos2Z.inj_xO.
    replace (2 * Z.pos p - 1) with (2 * (Z.pos p - 1) + 1) by lia.
    rewrite land_even_odd. apply nz_double.
  - reflexivity.
Qed.

Lemma more_than_one_popcount b :
  0 <= b -> more_than_one b = (1 <? popcount b).
Proof.
  destruct b as [|p|p]; intros H;
    [reflexivity | apply more_than_one_pos | lia].
Qed.

(** ** King tropism: the geometry of the four-bit shift *)

Lemma file_of_range s : 0 <= file_of s < 8.
Proof.
  unfold file_of. change 7 with (Z.ones 3).
  rewrite Z.land_ones by lia. apply Z.mod_pos_bound. reflexivity.
Qed.

Lemma king_flank_attacks_mask pos Us st :
  king_flank_attacks pos Us st
  = Z.land (attackedBy st (opp Us) ALL_PIECES)
           (flank_camp Us (file_of (square_KING pos Us))).
Proof. unfold king_flank_attacks, flank_camp. bitwise. Qed.

Lemma eight_cases kf :
  0 <= kf < 8 ->
  kf = 0 \/ kf = 1 \/ kf = 2 \/ kf = 3 \/ kf = 4 \/ kf = 5 \/ kf = 6 \/ kf = 7.
Proof. lia. Qed.

Lemma flank_camp_white kf :
  0 <= kf < 8 ->
  let M := flank_camp WHITE kf in
  Z.land (Z.shiftl M 4) M = 0 /\ Z.land (Z.shiftl M 4) All64 = Z.shiftl M 4.
Proof.
  intros H.
  destruct (eight_cases kf H) as [->|[->|[->|[->|[->|[->|[->| ->]]]]]]];
    split; vm_compute; reflexivity.
Qed.

Lemma flank_camp_black kf :
  0 <= kf < 8 ->
  let M := flank_camp BLACK kf in
  Z.land (Z.shiftr M 4) M = 0 /\ Z.land M 15 = 0.
Proof.
  intros H.
  destruct (eight_cases kf H) as [->|[->|[->|[->|[->|[->|[->| ->]]]]]]];
    split; vm_compute; reflexivity.
Qed.

Lemma shl4_masked a M :
  Z.land (Z.shiftl M 4) All64 = Z.shiftl M 4 ->
  shl (Z.land a M) 4 = Z.shiftl (Z.land a M) 4.
Proof.
  intros H. unfold shl. rewrite Z.shiftl_land.
  rewrite <- Z.land_assoc, H. reflexivity.
Qed.

Lemma shift4_white_disjoint a M :
  Z.land (Z.shiftl M 4) M = 0 ->
  Z.land (shift4 WHITE (Z.land a M)) (Z.land a M) = 0.
Proof.
  intros H. unfold shift4, shl. rewrite Z.shiftl_land.
  replace (Z.land (Z.land (Z.shiftl a 4) (Z.shiftl M 4)) All64)
    with (Z.land (Z.land (Z.shiftl a 4) All64) (Z.shiftl M 4)) by bitwise.
  now apply land_masks_disjoint.
Qed.

Lemma shift4_black_disjoint a M :
  Z.land (Z.shiftr M 4) M = 0 ->
  Z.land (shift4 BLACK (Z.land a M)) (Z.land a M) = 0.
Proof.
  intros H. unfold shift4, shr. rewrite Z.shiftr_land.
  now apply land_masks_disjoint.
Qed.

Lemma shift4_white_popcount a M :
  0 <= M -> Z.land (Z.shiftl M 4) All64 = Z.shiftl M 4 ->
  popcount (shift4 WHITE (Z.land a M)) = popcount (Z.land a M).
Proof.
  intros HM H. unfold shift4. rewrite (shl4_masked _ _ H).
  apply popcount_shiftl4. apply Z.land_nonneg. now right.
Qed.

Lemma shift4_black_popcount a M :
  0 <= M -> Z.land M 15 = 0 ->
  popcount (shift4 BLACK (Z.land a M)) = popcount (Z.land a M).
Proof.
  intros HM H. unfold shift4, shr. apply popcount_shiftr4.
  - apply Z.land_nonneg. now right.
  - rewrite <- Z.land_assoc, H. apply Z.land_0_r.
Qed.

Lemma flank_camp_nonneg Us kf : 0 <= kf < 8 -> 0 <= flank_camp Us kf.
Proof.
  intros H.
  destruct Us, (eight_cases kf H) as [->|[->|[->|[->|[->|[->|[->| ->]]]]]]];
    vm_compute; discriminate.
Qed.

(** C9.  In [evaluate_king<Us>] the bitboard [b] of the enemy attacks in our
    king flank and our camp never meets its own shift by four bits toward
    the enemy ([b << 4] for White, [b >> 4] for Black), the shift keeps the
    number of squares, and so both [assert]s of the king tropism hold in
    every state of the evaluation. *)
Theorem king_tropism_shift_is_disjoint pos Us st :
  let b := king_flank_attacks pos Us st in
  Z.land (shift4 Us b) b = 0
  /\ popcount (shift4 Us b) = popcount b
  /\ king_tropism_asserts pos Us st = true.
Proof.
  intros b.
  assert (Hd : Z.land (shift4 Us b) b = 0 /\ popcount (shift4 Us b) = popcount b).
  { subst b. rewrite king_flank_attacks_mask.
    pose proof (file_of_range (square_KING pos Us)) as Hkf.
    pose proof (flank_camp_nonneg Us _ Hkf) as HM.
    destruct Us.
    - destruct (flank_camp_white _ Hkf) as [H1 H2]. split.
      + now apply shift4_white_disjoint.
      + now apply shift4_white_popcount.
    - destruct (flank_camp_black _ Hkf) as [H1 H2]. split.
      + now apply shift4_black_disjoint.
      + now apply shift4_black_popcount. }
  destruct Hd as [H1 H2]. repeat split; trivial.
  unfold king_tropism_asserts. fold b. rewrite H1, H2.
  now rewrite !Z.eqb_refl.
Qed.

(** ** The scale factor of opposite-coloured bishops *)

(** C6.  Outside Atomic, when the material table answers the normal or the
    one-pawn scale factor for the strong side and the bishops are of opposite
    colours, [evaluate_scale_factor] returns 9 if both sides' non-pawn
    material is exactly one bishop and at most one pawn is on the board, 31
    if both have exactly one bishop and there is more than one pawn, and 46
    otherwise; with one pawn each (two pawns on the board) it returns 31. *)
Theorem scale_factor_opposite_bishops X pos eg :
  is_atomic pos = false ->
  scale_factor (me X pos) (if VALUE_DRAW <? eg then WHITE else BLACK)
    = SCALE_FACTOR_NORMAL
  \/ scale_factor (me X pos) (if VALUE_DRAW <? eg then WHITE else BLACK)
    = SCALE_FACTOR_ONEPAWN X ->
  opposite_bishops pos = true ->
  is_bitboard (pieces_pt pos PAWN) ->
  let only_bishops :=
    non_pawn_material_c pos WHITE = BishopValueMg X
    /\ non_pawn_material_c pos BLACK = BishopValueMg X in
  (only_bishops -> popcount (pieces_pt pos PAWN) <= 1 ->
   evaluate_scale_factor X pos eg = 9)
  /\ (only_bishops -> 1 < popcount (pieces_pt pos PAWN) ->
      evaluate_scale_factor X pos eg = 31)
  /\ (~ only_bishops -> evaluate_scale_factor X pos eg = 46)
  /\ (only_bishops -> popcount (pieces_pt pos PAWN) = 2 ->
      evaluate_scale_factor X pos eg = 31).
Proof.
  intros Hat Hsf Hob [Hb0 _] only_bishops.
  assert (Hsfb :
    (scale_factor (me X pos) (if VALUE_DRAW <? eg then WHITE else BLACK)
       =? SCALE_FACTOR_NORMAL)
    || (scale_factor (me X pos) (if VALUE_DRAW <? eg then WHITE else BLACK)
          =? SCALE_FACTOR_ONEPAWN X) = true).
  { apply orb_true_iff. destruct Hsf as [H|H]; [left|right]; now apply Z.eqb_eq. }
  assert (Hmore : forall n, popcount (pieces_pt pos PAWN) = n ->
                  more_than_one (pieces_pt pos PAWN) = (1 <? n)).
  { intros n <-. now apply more_than_one_popcount. }
  assert (Hpure : only_bishops ->
    (non_pawn_material_c pos WHITE =? BishopValueMg X)
    && (non_pawn_material_c pos BLACK =? BishopValueMg X) = true).
  { intros [H1 H2]. now rewrite H1, H2, !Z.eqb_refl. }
  unfold evaluate_scale_factor, drawish_scale_factor.
  rewrite Hat, Hsfb, Hob.
  repeat split.
  - intros Hp Hc. rewrite (Hpure Hp), (Hmore _ eq_refl).
    destruct (Z.ltb_spec 1 (popcount (pieces_pt pos PAWN))); [lia | reflexivity].
  - intros Hp Hc. rewrite (Hpure Hp), (Hmore _ eq_refl).
    destruct (Z.ltb_spec 1 (popcount (pieces_pt pos PAWN))); [reflexivity | lia].
  - intros Hn.
    destruct ((non_pawn_material_c pos WHITE =? BishopValueMg X)
              && (non_pawn_material_c pos BLACK =? BishopValueMg X)) eqn:E;
      [|reflexivity].
    exfalso. apply Hn. apply andb_true_iff in E. destruct E as [E1 E2].
    split; now apply Z.eqb_eq.
  - intros Hp Hc. rewrite (Hpure Hp), (Hmore _ Hc). reflexivity.
Qed.

(** The position with kings, opposite-coloured bishops and one pawn each has
    the scale factor 31. *)
Lemma scale_factor_opposite_bishops_witness :
  evaluate_scale_factor Sample.X_kbp
    (Sample.pos_kbp CHESS_VARIANT WHITE SCORE_ZERO) 50 = 31.
Proof.
  refine (proj1 (proj2 (scale_factor_opposite_bishops Sample.X_kbp
            (Sample.pos_kbp CHESS_VARIANT WHITE SCORE_ZERO) 50 _ _ _ _)) _ _).
  - reflexivity.
  - left. reflexivity.
  - reflexivity.
  - split; vm_compute; discriminate.
  - split; reflexivity.
  - vm_compute. reflexivity.
Defined.

(** ** The initiative correction *)

Lemma sign_as_difference eg : b2z (0 <? eg) - b2z (eg <? 0) = Z.sgn eg.
Proof.
  destruct (Z.ltb_spec 0 eg), (Z.ltb_spec eg 0); simpl; lia.
Qed.

(** With the endgame value 1 in the bishop ending, the correction is -1 and
    the corrected endgame value is 0: its sign is not the sign of [eg]. *)
Lemma initiative_can_cancel_endgame :
  let X := Sample.X_kbp in
  let pos := Sample.pos_kbp CHESS_VARIANT WHITE SCORE_ZERO in
  let eg := 1 in
  eg <> 0
  /\ evaluate_initiative X pos eg = make_score 0 (-1)
  /\ Z.sgn (eg + eg_value (evaluate_initiative X pos eg)) <> Z.sgn eg.
Proof. vm_compute. repeat split; discriminate. Qed.

(** C5, amended.  [evaluate_initiative(eg)] returns the Score (0, v) with
    v = sign(eg) * max(initiative, -|eg|) and
    initiative = 8 * (pawn_asymmetry + kingDistance - 17) + 12 * pawn_count
    + 16 * bothFlanks; the corrected endgame value eg + v never has the sign
    opposite to eg: it has the sign of eg or it is 0. *)
Theorem initiative_never_flips_sign X pos eg :
  let kingDistance :=
    distance_file (square_KING pos WHITE) (square_KING pos BLACK)
    - distance_rank (square_KING pos WHITE) (square_KING pos BLACK) in
  let bothFlanks :=
    nz (Z.land (pieces_pt pos PAWN) QueenSide)
    && nz (Z.land (pieces_pt pos PAWN) KingSide) in
  let initiative :=
    8 * (pawn_asymmetry (pe X pos) + kingDistance - 17)
    + 12 * count_both pos PAWN + 16 * b2z bothFlanks in
  let v := Z.sgn eg * Z.max initiative (- Z.abs eg) in
  evaluate_initiative X pos eg = make_score 0 v
  /\ (Z.sgn (eg + v) = Z.sgn eg \/ eg + v = 0).
Proof.
  intros kingDistance bothFlanks initiative v. split.
  - unfold evaluate_initiative, initiative_bonus.
    rewrite sign_as_difference. reflexivity.
  - subst v.
    pose proof (Z.le_max_r initiative (- Z.abs eg)) as Hm.
    set (m := Z.max initiative (- Z.abs eg)) in *.
    destruct (Z.lt_trichotomy eg 0) as [H|[H|H]].
    + rewrite (Z.sgn_neg eg) by assumption.
      destruct (Z.eq_dec (eg + -1 * m) 0) as [E|E]; [now right|left].
      apply Z.sgn_neg. lia.
    + subst eg. right. reflexivity.
    + rewrite (Z.sgn_pos eg) by assumption.
      destruct (Z.eq_dec (eg + 1 * m) 0) as [E|E]; [now right|left].
      apply Z.sgn_pos. lia.
Qed.

(** ** The king ring after [initialize] *)

Lemma is_variant_true pos v : is_variant pos v = true <-> variant pos = v.
Proof. apply Variant_eqb_eq. Qed.

Lemma is_variant_false pos v : is_variant pos v = false <-> variant pos <> v.
Proof. apply Variant_eqb_neq. Qed.

(** The test of [initialize] fails exactly when king safety is disabled. *)
Lemma king_safety_disabled_iff X pos Us :
  king_safety_enabled X pos Us = false
  <-> (variant pos = ANTI_VARIANT \/ variant pos = EXTINCTION_VARIANT
       \/ (non_pawn_material_c pos (opp Us) < RookValueMg X + KnightValueMg X
           /\ variant pos <> CRAZYHOUSE_VARIANT)).
Proof.
  unfold king_safety_enabled, is_anti, is_extinction, is_house, is_variant.
  destruct (Z.leb_spec (RookValueMg X + KnightValueMg X)
                       (non_pawn_material_c pos (opp Us))) as [Hm|Hm];
    destruct (variant pos) eqn:Hv; simpl; split; intros H;
    try discriminate H; try reflexivity;
    try (first [ left; reflexivity
               | right; left; reflexivity
               | right; right; split; [assumption | discriminate] ]);
    destruct H as [H|[H|[H1 H2]]];
    try discriminate H; try lia; now elim H2.
Qed.

Lemma kingRing_initialize_enabled X pos Us st :
  king_safety_enabled X pos Us = true ->
  is_anti pos = false -> is_extinction pos = false ->
  Z.land (kingRing (initialize X pos Us st) Us)
         (attacks_from pos KING (square_KING pos Us))
  = attacks_from pos KING (square_KING pos Us).
Proof.
  intros He Ha Hx. unfold initialize. rewrite He, Ha, Hx.
  destruct (relative_rank Us (square_KING pos Us) =? RANK_1);
    destruct Us; cbn; bitwise.
Qed.

Lemma initialize_disabled X pos Us st :
  king_safety_enabled X pos Us = false ->
  kingRing (initialize X pos Us st) Us = 0
  /\ kingAttackersCount (initialize X pos Us st) (opp Us) = 0.
Proof.
  intros He. unfold initialize. rewrite He. destruct Us; split; reflexivity.
Qed.

(** On the 8x8 board every king attacks some square. *)
Lemma king_attacks_nonempty_8x8 s :
  0 <= s < 64 -> Sample.PseudoAttacks_8x8 KING s <> 0.
Proof.
  intros Hs.
  assert (Hall : forallb (fun s => nz (Sample.PseudoAttacks_8x8 KING s))
                         Sample.all_squares = true) by (vm_compute; reflexivity).
  rewrite forallb_forall in Hall. apply nz_true, Hall.
  unfold Sample.all_squares. apply in_map_iff.
  exists (Z.to_nat s). split; [lia|]. apply in_seq. lia.
Qed.

(** The king ring that [initialize<Us>] sets up when king safety is
    enabled. *)
Lemma kingRing_initialize_value X pos Us st :
  king_safety_enabled X pos Us = true ->
  kingRing (initialize X pos Us st) Us
  = let b := attacks_from pos KING (square_KING pos Us) in
    if relative_rank Us (square_KING pos Us) =? RANK_1
    then Z.lor b (shift (up_of Us) b) else b.
Proof.
  intros He.
  assert (Hv : is_anti pos = false /\ is_extinction pos = false).
  { unfold king_safety_enabled, is_anti, is_extinction, is_house, is_variant in *.
    destruct (variant pos); simpl in He; try discriminate He; now split. }
  destruct Hv as [Ha Hx].
  unfold initialize. rewrite He, Ha, Hx.
  destruct (relative_rank Us (square_KING pos Us) =? RANK_1);
    destruct Us; reflexivity.
Qed.

(** The kingless side of the Horde position: king safety is enabled for
    White, since Black has two queens, a rook and a knight, and White's king
    ring is empty all the same, [attacks_from<KING>(SQ_NONE)] being empty. *)
Lemma king_ring_zero_without_king :
  let X := Sample.X_horde in
  let pos := Sample.pos_horde in
  kingRing (initialize X pos WHITE Sample.zeroed) WHITE = 0
  /\ ~ (variant pos = ANTI_VARIANT \/ variant pos = EXTINCTION_VARIANT
        \/ (non_pawn_material_c pos (opp WHITE) < RookValueMg X + KnightValueMg X
            /\ variant pos <> CRAZYHOUSE_VARIANT)).
Proof.
  split; [vm_compute; reflexivity|].
  intros [H|[H|[H _]]]; vm_compute in H; discriminate H.
Qed.

(** C4.  After [initialize<c>], [kingRing[c]] is 0 if and only if king
    safety for [c] is disabled, that is the variant is Anti or Extinction, or
    the enemy's non-pawn material is below [RookValueMg + KnightValueMg] and
    the variant is not Crazyhouse, or the king of [c] attacks no square, as
    [attacks_from<KING>] answers for the kingless side of a Horde position
    ([square<KING>(c) == SQ_NONE]); and when king safety is disabled the
    enemy's [kingAttackersCount] is 0. *)
Theorem king_ring_zero_iff_disabled X pos c st :
  let disabled :=
    variant pos = ANTI_VARIANT \/ variant pos = EXTINCTION_VARIANT
    \/ (non_pawn_material_c pos (opp c) < RookValueMg X + KnightValueMg X
        /\ variant pos <> CRAZYHOUSE_VARIANT) in
  (kingRing (initialize X pos c st) c = 0
   <-> disabled \/ attacks_from pos KING (square_KING pos c) = 0)
  /\ (disabled -> kingAttackersCount (initialize X pos c st) (opp c) = 0).
Proof.
  intros disabled. subst disabled.
  rewrite <- king_safety_disabled_iff.
  split; [split|]; intros H.
  - destruct (king_safety_enabled X pos c) eqn:He; [right|now left].
    rewrite (kingRing_initialize_value X pos c st He) in H. cbv zeta in H.
    destruct (relative_rank c (square_KING pos c) =? RANK_1); [|exact H].
    apply Z.lor_eq_0_iff in H. apply H.
  - destruct H as [H|H]; [now apply initialize_disabled|].
    destruct (king_safety_enabled X pos c) eqn:He;
      [|now apply initialize_disabled].
    rewrite (kingRing_initialize_value X pos c st He). cbv zeta. rewrite H.
    destruct (relative_rank c (square_KING pos c) =? RANK_1); [|reflexivity].
    destruct c; reflexivity.
  - now apply initialize_disabled.
Qed.

(** In the bishop ending Black has less than a rook and a knight: White's
    king ring is empty and Black's attacker count is 0. *)
Lemma king_ring_zero_iff_disabled_witness :
  let X := Sample.X_kbp in
  let pos := Sample.pos_kbp CHESS_VARIANT WHITE SCORE_ZERO in
  kingRing (initialize X pos WHITE Sample.zeroed) WHITE = 0
  /\ kingAttackersCount (initialize X pos WHITE Sample.zeroed) BLACK = 0.
Proof.
  intros X pos.
  destruct (king_ring_zero_iff_disabled X pos WHITE Sample.zeroed) as [H1 H2].
  assert (Hd : variant pos = ANTI_VARIANT \/ variant pos = EXTINCTION_VARIANT
               \/ (non_pawn_material_c pos (opp WHITE)
                   < RookValueMg X + KnightValueMg X
                   /\ variant pos <> CRAZYHOUSE_VARIANT)).
  { right; right. split; [vm_compute; reflexivity | discriminate]. }
  split; [apply (proj2 H1 (or_introl Hd)) | apply (H2 Hd)].
Defined.

(** ** The scaling down of the passed-pawn bonus *)

(** Within a row the look-up of the block is the look-up of the table. *)
Lemma Passed_at_in_row v p r :
  0 <= p < 2 -> 0 <= r < RANK_NB ->
  Passed_at (vidx v) p r = at3 0 Passed (vidx v) p r.
Proof.
  unfold RANK_NB. intros Hp Hr.
  assert (Ep : p = 0 \/ p = 1) by lia.
  assert (Er : r = 0 \/ r = 1 \/ r = 2 \/ r = 3 \/ r = 4 \/ r = 5 \/ r = 6
               \/ r = 7) by lia.
  destruct Ep as [-> | ->];
    destruct Er as [-> |[-> |[-> |[-> |[-> |[-> |[-> | ->]]]]]]];
    destruct v; reflexivity.
Qed.

(** A pawn on its own first rank ([r = -1]) reads a zero for either
    bonus. *)
Lemma Passed_at_first_rank v p :
  0 <= p < 2 -> Passed_at (vidx v) p (-1) = 0.
Proof.
  intros Hp. assert (Ep : p = 0 \/ p = 1) by lia.
  destruct Ep as [-> | ->]; destruct v; reflexivity.
Qed.

(** C8.  For the passed pawn on [s], both the middlegame and the endgame
    bonus are halved exactly when the pawn is not passed after one push
    ([pawn_passed] fails for the square in front) or a pawn of either colour
    stands on its forward file; otherwise they are unchanged.  The halved or
    unchanged pair is what enters the score, and outside the Race variant
    the loop treats every square of [passed_pawns] in this way. *)
Theorem passed_bonus_halved_iff X pos Us st s score :
  let m := fst (passer_bonus X pos Us st s) in
  let e := snd (passer_bonus X pos Us st s) in
  let scaled :=
    pawn_passed pos Us (s + delta (up_of Us)) = false
    \/ Z.land (pieces_pt pos PAWN) (forward_file_bb X Us s) <> 0 in
  (scaled -> passer_final_bonus X pos Us st s = (cdiv m 2, cdiv e 2))
  /\ (~ scaled -> passer_final_bonus X pos Us st s = (m, e))
  /\ passed_pawn_body X pos Us st score s
     = score
       -! HinderPassedPawn
          *! popcount (Z.land (forward_file_bb X Us s)
                              (Z.lor (attackedBy st (opp Us) ALL_PIECES)
                                     (pieces_c pos (opp Us))))
       +! (make_score (fst (passer_final_bonus X pos Us st s))
                      (snd (passer_final_bonus X pos Us st s))
           +! at1 SCORE_ZERO PassedFile (file_of s))
  /\ (is_race pos = false ->
      evaluate_passed_pawns X pos Us st
      = fold_left (passed_pawn_body X pos Us st)
                  (squares (passed_pawns (pe X pos) Us))
                  (if is_koth pos then koth_score pos Us SCORE_ZERO
                   else SCORE_ZERO)).
Proof.
  intros m e scaled.
  assert (Hs : passer_scaled_down X pos Us s = true <-> scaled).
  { unfold passer_scaled_down, scaled.
    rewrite orb_true_iff, negb_true_iff, nz_true. reflexivity. }
  repeat split.
  - intros H. apply Hs in H. unfold passer_final_bonus. subst m e.
    rewrite H. now destruct (passer_bonus X pos Us st s).
  - intros H. unfold passer_final_bonus. subst m e.
    destruct (passer_scaled_down X pos Us s) eqn:E.
    + exfalso. apply H, Hs. reflexivity.
    + now destruct (passer_bonus X pos Us st s).
  - unfold passed_pawn_body.
    now destruct (passer_final_bonus X pos Us st s).
  - intros Hr. unfold evaluate_passed_pawns. now rewrite Hr.
Qed.

(** The candidate passer on e5 with the black pawn on e6 in front of it has
    its bonus (73, 37) halved to (36, 18). *)
Lemma passed_bonus_halved_iff_witness :
  passer_bonus Sample.X_candidate Sample.pos_candidate WHITE Sample.zeroed 36
    = (73, 37)
  /\ passer_final_bonus Sample.X_candidate Sample.pos_candidate WHITE
       Sample.zeroed 36 = (36, 18).
Proof.
  split; [vm_compute; reflexivity|].
  refine (proj1 (passed_bonus_halved_iff Sample.X_candidate
                   Sample.pos_candidate WHITE Sample.zeroed 36 SCORE_ZERO) _).
  right. vm_compute. discriminate.
Defined.

(** ** The gate of the king-danger block *)

Lemma king_danger_active_iff pos Us st :
  king_danger_active pos Us st = true
  <-> (1 - count pos QUEEN (opp Us) < kingAttackersCount st (opp Us)
       /\ ~ (variant pos = HORDE_VARIANT /\ square_KING pos Us = SQ_NONE)).
Proof.
  unfold king_danger_active, is_horde.
  rewrite andb_true_iff, negb_true_iff, Z.ltb_lt.
  destruct (is_variant pos HORDE_VARIANT) eqn:Hv;
    [apply is_variant_true in Hv | apply is_variant_false in Hv];
    destruct (Z.eqb_spec (square_KING pos Us) SQ_NONE) as [Hk|Hk]; simpl;
    intuition congruence.
Qed.

(** In the Horde position where Black owns two queens and White has no king,
    [kingAttackersCount[BLACK]] is 0, which exceeds 1 - 2, and yet
    [evaluate_king<WHITE>] returns shelter and tropism only: running the
    king-danger block would have taken (4, 8) more from the score. *)
Lemma king_danger_gate_skipped_in_horde :
  let X := Sample.X_horde in
  let pos := Sample.pos_horde in
  let st := fst (run_pieces X pos (Evaluation_ctor Sample.zeroed) (seed_score X pos)) in
  let shelter := king_safety (pe X pos) WHITE (square_KING pos WHITE) in
  1 - count pos QUEEN BLACK < kingAttackersCount st BLACK
  /\ evaluate_king X pos WHITE st = king_tropism pos WHITE st shelter
  /\ king_tropism pos WHITE st (king_danger_block X pos WHITE st shelter)
     = evaluate_king X pos WHITE st -! make_score 4 8
  /\ evaluate_king X pos WHITE st
     <> king_tropism pos WHITE st (king_danger_block X pos WHITE st shelter).
Proof. vm_compute. repeat split; discriminate. Qed.

(** The count test alone does not ask for an attacker: in standard chess,
    against two queens, the block runs with [kingAttackersCount[BLACK]] at 0. *)
Lemma king_danger_runs_without_attackers :
  let X := Sample.X_two_queens in
  let pos := Sample.pos_two_queens in
  let st := fst (run_pieces X pos (Evaluation_ctor Sample.zeroed) (seed_score X pos)) in
  kingRing st WHITE <> 0
  /\ kingAttackersCount st BLACK = 0
  /\ count pos QUEEN BLACK = 2
  /\ king_danger_active pos WHITE st = true.
Proof. vm_compute. repeat split; discriminate. Qed.

(** C7, amended.  In [evaluate_king<Us>] the king-danger block runs exactly
    when [kingAttackersCount[Them] > 1 - count<QUEEN>(Them)] and the position
    is not a Horde position whose side [Us] has no king ([ksq == SQ_NONE]).
    The count test asks for two attackers when the enemy has no queen, for
    one when it has exactly one queen, and for none when it has more.  When
    the block does not run, only shelter, tropism and the pawnless-flank
    penalty make up the returned Score. *)
Theorem king_danger_gate X pos Us st :
  let Them := opp Us in
  let ksq := square_KING pos Us in
  let shelter := king_safety (pe X pos) Us ksq in
  let active :=
    1 - count pos QUEEN Them < kingAttackersCount st Them
    /\ ~ (variant pos = HORDE_VARIANT /\ ksq = SQ_NONE) in
  let b := king_flank_attacks pos Us st in
  let close :=
    Z.lor (shift4 Us b)
          (Z.land (Z.land b (attackedBy2 st Them)) (bb_not (attackedBy st Us PAWN))) in
  let quiet :=
    shelter -! at1 SCORE_ZERO CloseEnemies (vidx (variant pos)) *! popcount close in
  (active ->
   evaluate_king X pos Us st
   = king_tropism pos Us st (king_danger_block X pos Us st shelter))
  /\ (~ active ->
      evaluate_king X pos Us st
      = if nz (Z.land (pieces_pt pos PAWN) (at1 0 KingFlank (file_of ksq)))
        then quiet else quiet -! PawnlessFlank)
  /\ (count pos QUEEN Them = 0 ->
      (1 - count pos QUEEN Them < kingAttackersCount st Them
       <-> 2 <= kingAttackersCount st Them))
  /\ (count pos QUEEN Them = 1 ->
      (1 - count pos QUEEN Them < kingAttackersCount st Them
       <-> 1 <= kingAttackersCount st Them))
  /\ (2 <= count pos QUEEN Them -> 0 <= kingAttackersCount st Them ->
      1 - count pos QUEEN Them < kingAttackersCount st Them).
Proof.
  intros Them ksq shelter active b close quiet.
  pose proof (king_danger_active_iff pos Us st) as Hact.
  fold Them ksq in Hact. fold active in Hact.
  repeat split; try lia.
  - intros H. apply Hact in H. unfold evaluate_king. now rewrite H.
  - intros H. unfold evaluate_king.
    destruct (king_danger_active pos Us st) eqn:E.
    + exfalso. apply H, Hact. reflexivity.
    + unfold king_tropism. fold Them ksq shelter b close quiet.
      now destruct (nz (Z.land (pieces_pt pos PAWN) (at1 0 KingFlank (file_of ksq)))).
Qed.

(** The Horde position above: the gate is closed and [evaluate_king<WHITE>]
    is the shelter (-100, 0) less [CloseEnemies], (7, 0), for each of the
    four squares of the tropism. *)
Lemma king_danger_gate_witness :
  let X := Sample.X_horde in
  let pos := Sample.pos_horde in
  let st := fst (run_pieces X pos (Evaluation_ctor Sample.zeroed) (seed_score X pos)) in
  evaluate_king X pos WHITE st = make_score (-128) 0.
Proof.
  intros X pos st.
  refine (eq_trans (proj1 (proj2 (king_danger_gate X pos WHITE st)) _) _).
  - intros [_ H]. apply H. split; reflexivity.
  - vm_compute. reflexivity.
Defined.

(** ** The driver: lazy exit and interpolation *)

Lemma lazy_test_iff pos v :
  Variant_eqb (variant pos) CHESS_VARIANT && (LazyThreshold <? Z.abs v) = true
  <-> (variant pos = CHESS_VARIANT /\ LazyThreshold < Z.abs v).
Proof. now rewrite andb_true_iff, Variant_eqb_eq, Z.ltb_lt. Qed.

(** C2.  Once [value] has passed the variant-end and the specialised-endgame
    tests, it takes the lazy [return] exactly when the variant is standard
    chess and the midscore v = (mg + eg) / 2 of the seed score (PSQ +
    imbalance + contempt + pawn score) has |v| > LazyThreshold = 1500; the
    value returned is then v with White to move and -v with Black to move,
    whatever the later sub-evaluations would compute, and in every other
    variant the lazy [return] is never taken. *)
Theorem lazy_exit_iff X pos garbage :
  is_variant_end pos = false ->
  specialized_eval_exists (me X pos) = false ->
  let score :=
    psq_score pos +! imbalance (me X pos) +! Contempt X +! pawns_score (pe X pos) in
  let v := cdiv (mg_value score + eg_value score) 2 in
  LazyThreshold = 1500
  /\ (fst (value_exit X pos garbage) = ReturnLazy
      <-> variant pos = CHESS_VARIANT /\ LazyThreshold < Z.abs v)
  /\ (fst (value_exit X pos garbage) = ReturnLazy ->
      (side_to_move pos = WHITE -> value X pos garbage = v)
      /\ (side_to_move pos = BLACK -> value X pos garbage = - v))
  /\ (variant pos <> CHESS_VARIANT ->
      fst (value_exit X pos garbage) <> ReturnLazy).
Proof.
  intros Hend Hspec score v.
  assert (Hiff : fst (value_exit X pos garbage) = ReturnLazy
                 <-> variant pos = CHESS_VARIANT /\ LazyThreshold < Z.abs v).
  { rewrite <- lazy_test_iff. unfold value_exit. rewrite Hend, Hspec.
    fold (seed_score X pos). unfold seed_score. fold score. fold v.
    destruct (Variant_eqb (variant pos) CHESS_VARIANT && (LazyThreshold <? Z.abs v));
      simpl; split; congruence. }
  split; [reflexivity|]. split; [exact Hiff|]. split.
  - intros Hlazy. apply Hiff, lazy_test_iff in Hlazy.
    unfold value, value_exit. rewrite Hend, Hspec.
    unfold seed_score. fold score. fold v. rewrite Hlazy. simpl.
    split; intros ->; reflexivity.
  - intros Hv Hlazy. apply Hiff in Hlazy. now apply Hv.
Qed.

(** The bishop ending with a seed score of (3000, 3100) and Black to move is
    valued lazily at -3050. *)
Lemma lazy_exit_iff_witness :
  let X := Sample.X_kbp in
  let pos := Sample.pos_kbp CHESS_VARIANT BLACK (make_score 3000 3100) in
  fst (value_exit X pos Sample.zeroed) = ReturnLazy
  /\ value X pos Sample.zeroed = -3050.
Proof.
  intros X pos.
  destruct (lazy_exit_iff X pos Sample.zeroed eq_refl eq_refl)
    as (_ & Hiff & Hval & _).
  assert (Hlazy : fst (value_exit X pos Sample.zeroed) = ReturnLazy).
  { apply Hiff. split; [reflexivity | vm_compute; reflexivity]. }
  split; [exact Hlazy|].
  exact (proj2 (Hval Hlazy) eq_refl).
Defined.

(** C1.  When [value] reaches the interpolation (no variant end, no
    specialised endgame, no lazy exit), it returns
    v = (mg * phase + eg * (128 - phase) * sf / 64) / 128 in C integer
    arithmetic, where (mg, eg) is the score accumulated by the main
    evaluation, phase the game phase of the material entry and sf the result
    of [evaluate_scale_factor]; White to move receives v, Black to move -v. *)
Theorem value_is_interpolation X pos garbage :
  is_variant_end pos = false ->
  specialized_eval_exists (me X pos) = false ->
  ~ (variant pos = CHESS_VARIANT
     /\ LazyThreshold
        < Z.abs (cdiv (mg_value (seed_score X pos) + eg_value (seed_score X pos)) 2)) ->
  let score := main_score X pos (Evaluation_ctor garbage) (seed_score X pos) in
  let mg := mg_value score in
  let eg := eg_value score in
  let phase := game_phase (me X pos) in
  let sf := evaluate_scale_factor X pos eg in
  let v := cdiv (mg * phase + cdiv (eg * (128 - phase) * sf) 64) 128 in
  fst (value_exit X pos garbage) = ReturnBlended
  /\ (side_to_move pos = WHITE -> value X pos garbage = v)
  /\ (side_to_move pos = BLACK -> value X pos garbage = - v).
Proof.
  intros Hend Hspec Hlazy score mg eg phase sf v.
  assert (Hl : Variant_eqb (variant pos) CHESS_VARIANT
               && (LazyThreshold
                   <? Z.abs (cdiv (mg_value (seed_score X pos)
                                   + eg_value (seed_score X pos)) 2)) = false).
  { apply not_true_is_false. intros H. apply Hlazy. now apply lazy_test_iff. }
  unfold value, value_exit. rewrite Hend, Hspec, Hl. simpl.
  fold score. unfold blend. fold eg mg phase sf.
  change PHASE_MIDGAME with 128. change SCALE_FACTOR_NORMAL with 64. fold v.
  repeat split; intros ->; reflexivity.
Qed.

(** The pawn ending with the candidate passer, a PSQ score of (50, 300),
    White to move: the main evaluation ends with the score (59, 138), the
    phase is 0 and the scale factor 64, so [value] is 138. *)
Lemma value_is_interpolation_witness :
  let X := Sample.X_candidate in
  let pos := Sample.position CHESS_VARIANT WHITE Sample.candidate
               (fun _ => false) false (fun _ _ => true) (make_score 50 300) in
  main_score X pos (Evaluation_ctor Sample.zeroed) (seed_score X pos)
    = make_score 59 138
  /\ value X pos Sample.zeroed = 138.
Proof.
  intros X pos. split; [vm_compute; reflexivity|].
  refine (proj1 (proj2 (value_is_interpolation X pos Sample.zeroed
                          eq_refl eq_refl _)) eq_refl).
  intros [_ H]. vm_compute in H. discriminate H.
Defined.

(** ** The attack maps: union and double attacks *)

Lemma piece_types_cases Pt :
  In Pt piece_types -> Pt = KNIGHT \/ Pt = BISHOP \/ Pt = ROOK \/ Pt = QUEEN.
Proof. simpl. intuition congruence. Qed.

(** What [initialize] does to the attack maps. *)
Lemma attackedBy_initialize_other X pos Us st c pt :
  c <> Us -> attackedBy (initialize X pos Us st) c pt = attackedBy st c pt.
Proof.
  intros Hc. unfold initialize.
  destruct (king_safety_enabled X pos Us);
    [destruct (relative_rank Us (square_KING pos Us) =? RANK_1)|];
    destruct Us, c, pt; try congruence; reflexivity.
Qed.

Lemma attackedBy2_initialize_other X pos Us st c :
  c <> Us -> attackedBy2 (initialize X pos Us st) c = attackedBy2 st c.
Proof.
  intros Hc. unfold initialize.
  destruct (king_safety_enabled X pos Us);
    [destruct (relative_rank Us (square_KING pos Us) =? RANK_1)|];
    destruct Us, c; try congruence; reflexivity.
Qed.

Lemma initialize_seeds X pos Us st :
  attackedBy2 (initialize X pos Us st) Us
  = Z.land (attackedBy (initialize X pos Us st) Us KING)
           (attackedBy (initialize X pos Us st) Us PAWN)
  /\ attackedBy (initialize X pos Us st) Us ALL_PIECES
     = Z.lor (attackedBy (initialize X pos Us st) Us KING)
             (attackedBy (initialize X pos Us st) Us PAWN).
Proof.
  unfold initialize.
  destruct (king_safety_enabled X pos Us);
    [destruct (relative_rank Us (square_KING pos Us) =? RANK_1)|];
    destruct Us; split; reflexivity.
Qed.

(** What the head of [evaluate_pieces] does to the attack maps. *)
Lemma attackedBy_pieces_entry Us Pt st c pt :
  In Pt piece_types ->
  c <> Us \/ (pt <> Pt /\ pt <> QUEEN_DIAGONAL) ->
  attackedBy (pieces_entry Us Pt st) c pt = attackedBy st c pt.
Proof.
  intros HPt H. apply piece_types_cases in HPt.
  destruct HPt as [->|[->|[->| ->]]]; destruct Us, c, pt; cbn;
    try reflexivity; exfalso; intuition congruence.
Qed.

Lemma attackedBy_pieces_entry_Pt Us Pt st :
  In Pt piece_types -> attackedBy (pieces_entry Us Pt st) Us Pt = 0.
Proof.
  intros HPt. apply piece_types_cases in HPt.
  destruct HPt as [->|[->|[->| ->]]]; destruct Us; reflexivity.
Qed.

Lemma attackedBy2_pieces_entry Us Pt st c :
  attackedBy2 (pieces_entry Us Pt st) c = attackedBy2 st c.
Proof. unfold pieces_entry. destruct (PieceType_eqb Pt QUEEN); reflexivity. Qed.

(** What one iteration of the loop does to the attack maps: only the merge
    touches them. *)
Lemma attackedBy_pieces_body X pos Us Pt s st score :
  attackedBy (fst (pieces_body X pos Us Pt s (st, score)))
  = attackedBy (merge_attacks X Us Pt s (piece_attacks X pos Us Pt s) st).
Proof.
  unfold pieces_body, king_ring_pressure.
  destruct (nz (Z.land (piece_attacks X pos Us Pt s) _));
    destruct (is_anti pos); reflexivity.
Qed.

Lemma attackedBy2_pieces_body X pos Us Pt s st score :
  attackedBy2 (fst (pieces_body X pos Us Pt s (st, score)))
  = attackedBy2 (merge_attacks X Us Pt s (piece_attacks X pos Us Pt s) st).
Proof.
  unfold pieces_body, king_ring_pressure.
  destruct (nz (Z.land (piece_attacks X pos Us Pt s) _));
    destruct (is_anti pos); reflexivity.
Qed.

Lemma merge_attacks_other X Us Pt s b st c pt :
  In Pt piece_types ->
  c <> Us \/ (pt <> Pt /\ pt <> ALL_PIECES /\ pt <> QUEEN_DIAGONAL) ->
  attackedBy (merge_attacks X Us Pt s b st) c pt = attackedBy st c pt.
Proof.
  intros HPt H. apply piece_types_cases in HPt.
  destruct HPt as [->|[->|[->| ->]]]; destruct Us, c, pt; cbn;
    try reflexivity; exfalso; intuition congruence.
Qed.

Lemma merge_attacks_Pt X Us Pt s b st :
  In Pt piece_types ->
  attackedBy (merge_attacks X Us Pt s b st) Us Pt
  = Z.lor (attackedBy st Us Pt) b.
Proof.
  intros HPt. apply piece_types_cases in HPt.
  destruct HPt as [->|[->|[->| ->]]]; destruct Us; reflexivity.
Qed.

Lemma merge_attacks_ALL X Us Pt s b st :
  In Pt piece_types ->
  attackedBy (merge_attacks X Us Pt s b st) Us ALL_PIECES
  = Z.lor (attackedBy st Us ALL_PIECES) (Z.lor (attackedBy st Us Pt) b).
Proof.
  intros HPt. apply piece_types_cases in HPt.
  destruct HPt as [->|[->|[->| ->]]]; destruct Us; reflexivity.
Qed.

Lemma merge_attacks_2 X Us Pt s b st :
  attackedBy2 (merge_attacks X Us Pt s b st) Us
  = Z.lor (attackedBy2 st Us) (Z.land (attackedBy st Us ALL_PIECES) b).
Proof.
  unfold merge_attacks. destruct (PieceType_eqb Pt QUEEN); destruct Us; reflexivity.
Qed.

Lemma merge_attacks_2_other X Us Pt s b st c :
  c <> Us -> attackedBy2 (merge_attacks X Us Pt s b st) c = attackedBy2 st c.
Proof.
  intros Hc. unfold merge_attacks.
  destruct (PieceType_eqb Pt QUEEN); destruct Us, c; try congruence; reflexivity.
Qed.

(** The loop of [evaluate_pieces]. *)
Lemma pieces_loop_other X pos Us Pt pl acc c pt :
  In Pt piece_types ->
  c <> Us \/ (pt <> Pt /\ pt <> ALL_PIECES /\ pt <> QUEEN_DIAGONAL) ->
  attackedBy (fst (pieces_loop X pos Us Pt pl acc)) c pt
  = attackedBy (fst acc) c pt.
Proof.
  intros HPt H. revert acc.
  induction pl as [|s pl IH]; intros [st score]; cbn [pieces_loop fst];
    [reflexivity|].
  destruct (s =? SQ_NONE); [reflexivity|].
  rewrite IH, attackedBy_pieces_body. now apply merge_attacks_other.
Qed.

Lemma pieces_loop_ALL X pos Us Pt pl acc A :
  In Pt piece_types ->
  attackedBy (fst acc) Us ALL_PIECES = Z.lor A (attackedBy (fst acc) Us Pt) ->
  attackedBy (fst (pieces_loop X pos Us Pt pl acc)) Us ALL_PIECES
  = Z.lor A (attackedBy (fst (pieces_loop X pos Us Pt pl acc)) Us Pt).
Proof.
  intros HPt. revert acc.
  induction pl as [|s pl IH]; intros [st score] H; cbn [pieces_loop fst] in *;
    [exact H|].
  destruct (s =? SQ_NONE); [exact H|].
  apply IH. rewrite attackedBy_pieces_body.
  rewrite merge_attacks_ALL, merge_attacks_Pt by assumption.
  rewrite H. bitwise.
Qed.

Lemma evaluate_pieces_merged X pos Us Pt st :
  In Pt piece_types ->
  merged Us Pt st (fst (evaluate_pieces X pos Us Pt st)).
Proof.
  intros HPt. unfold evaluate_pieces. split.
  - rewrite (pieces_loop_ALL X pos Us Pt _ _ (attackedBy st Us ALL_PIECES) HPt).
    + reflexivity.
    + simpl. rewrite attackedBy_pieces_entry_Pt by assumption.
      rewrite attackedBy_pieces_entry by
        (trivial; right; apply piece_types_cases in HPt;
         destruct HPt as [->|[->|[->| ->]]]; split; discriminate).
      now rewrite Z.lor_0_r.
  - intros pt H1 H2 H3.
    rewrite pieces_loop_other by (trivial; right; auto).
    simpl. apply attackedBy_pieces_entry; auto.
Qed.

Lemma evaluate_pieces_same X pos Us Pt st c :
  In Pt piece_types -> c <> Us ->
  same_attacks c st (fst (evaluate_pieces X pos Us Pt st)).
Proof.
  intros HPt Hc pt. unfold evaluate_pieces.
  rewrite pieces_loop_other by (trivial; now left).
  simpl. apply attackedBy_pieces_entry; auto.
Qed.

Lemma merged_then_same c Pt st st' st'' :
  merged c Pt st st' -> same_attacks c st' st'' -> merged c Pt st st''.
Proof.
  intros [H1 H2] Hs. split.
  - now rewrite !Hs.
  - intros pt Ha Hb Hc. rewrite Hs. now apply H2.
Qed.

(** After a state whose all-pieces map is the union of king and pawn
    attacks, four merges make it the union over the six piece types. *)
Lemma union_after_four_merges c s1 s2 s3 s4 s5 :
  attackedBy s1 c ALL_PIECES = Z.lor (attackedBy s1 c KING) (attackedBy s1 c PAWN) ->
  merged c KNIGHT s1 s2 -> merged c BISHOP s2 s3 ->
  merged c ROOK s3 s4 -> merged c QUEEN s4 s5 ->
  attackedBy s5 c ALL_PIECES = union_of_attacks s5 c.
Proof.
  intros H1 [N1 N2] [B1 B2] [R1 R2] [Q1 Q2].
  unfold union_of_attacks. simpl.
  rewrite Q1, R1, B1, N1, H1.
  rewrite (Q2 KING), (R2 KING), (B2 KING), (N2 KING) by discriminate.
  rewrite (Q2 PAWN), (R2 PAWN), (B2 PAWN), (N2 PAWN) by discriminate.
  rewrite (Q2 KNIGHT), (R2 KNIGHT), (B2 KNIGHT) by discriminate.
  rewrite (Q2 BISHOP), (R2 BISHOP) by discriminate.
  rewrite (Q2 ROOK) by discriminate.
  bitwise.
Qed.

Lemma run_pieces_fst X pos st score :
  fst (run_pieces X pos st score)
  = let st := initialize X pos BLACK (initialize X pos WHITE st) in
    let st := fst (evaluate_pieces X pos BLACK KNIGHT
                     (fst (evaluate_pieces X pos WHITE KNIGHT st))) in
    let st := fst (evaluate_pieces X pos BLACK BISHOP
                     (fst (evaluate_pieces X pos WHITE BISHOP st))) in
    let st := fst (evaluate_pieces X pos BLACK ROOK
                     (fst (evaluate_pieces X pos WHITE ROOK st))) in
    fst (evaluate_pieces X pos BLACK QUEEN
           (fst (evaluate_pieces X pos WHITE QUEEN st))).
Proof.
  unfold run_pieces. cbv zeta.
  repeat match goal with
         | |- context [let '(_, _) := ?e in _] => destruct e; cbn [fst]
         end.
  reflexivity.
Qed.

Lemma in_piece_types_KNIGHT : In KNIGHT piece_types.
Proof. simpl; auto. Qed.
Lemma in_piece_types_BISHOP : In BISHOP piece_types.
Proof. simpl; auto. Qed.
Lemma in_piece_types_ROOK : In ROOK piece_types.
Proof. simpl; auto. Qed.
Lemma in_piece_types_QUEEN : In QUEEN piece_types.
Proof. simpl; auto. Qed.

Create HintDb attacks.

#[local] Hint Resolve in_piece_types_KNIGHT in_piece_types_BISHOP
  in_piece_types_ROOK in_piece_types_QUEEN : attacks.

(** A pair of calls, White's then Black's, is a merge for either colour. *)
Lemma pair_merged X pos Pt st c :
  In Pt piece_types ->
  merged c Pt st
    (fst (evaluate_pieces X pos BLACK Pt (fst (evaluate_pieces X pos WHITE Pt st)))).
Proof.
  intros HPt. destruct c.
  - eapply merged_then_same.
    + now apply evaluate_pieces_merged.
    + apply evaluate_pieces_same; [assumption | discriminate].
  - pose proof (evaluate_pieces_same X pos WHITE Pt st BLACK HPt) as Hs.
    specialize (Hs ltac:(discriminate)).
    destruct (evaluate_pieces_merged X pos BLACK Pt
                (fst (evaluate_pieces X pos WHITE Pt st)) HPt) as [H1 H2].
    split.
    + rewrite H1, Hs. reflexivity.
    + intros pt Ha Hb Hc. rewrite H2 by assumption. apply Hs.
Qed.

(** C3.  For each colour c, after [initialize<c>] and the four
    [evaluate_pieces<c, Pt>] for Pt = Knight, Bishop, Rook, Queen,
    [attackedBy[c][ALL_PIECES]] is the union of [attackedBy[c][pt]] over
    Pawn, Knight, Bishop, Rook, Queen and King: both when the five calls for
    c run on their own and in the order in which [value] interleaves the two
    colours, whatever the object held before. *)
Theorem attacked_by_all_is_union X pos c st score :
  attackedBy (run_color X pos c st) c ALL_PIECES
  = union_of_attacks (run_color X pos c st) c
  /\ attackedBy (fst (run_pieces X pos st score)) c ALL_PIECES
     = union_of_attacks (fst (run_pieces X pos st score)) c.
Proof.
  split.
  - unfold run_color. cbv zeta.
    eapply union_after_four_merges;
      [ apply (proj2 (initialize_seeds X pos c st))
      | apply evaluate_pieces_merged; auto with attacks .. ].
  - rewrite run_pieces_fst. cbv zeta.
    eapply union_after_four_merges;
      [ | apply pair_merged; auto with attacks .. ].
    destruct c.
    + rewrite !(attackedBy_initialize_other X pos BLACK _ WHITE) by discriminate.
      apply (proj2 (initialize_seeds X pos WHITE st)).
    + apply (proj2 (initialize_seeds X pos BLACK _)).
Qed.

(** The states of [run_pieces] and of [evaluate_pieces] are states after
    [initialize]. *)
Lemma pieces_loop_after_initialize X pos c Us Pt pl acc :
  In Pt piece_types ->
  after_initialize X pos c (fst acc) ->
  after_initialize X pos c (fst (pieces_loop X pos Us Pt pl acc)).
Proof.
  intros HPt. revert acc.
  induction pl as [|s pl IH]; intros [st score] H; cbn [pieces_loop fst] in *;
    [exact H|].
  destruct (s =? SQ_NONE); [exact H|].
  apply IH. now apply ai_body.
Qed.

Lemma evaluate_pieces_after_initialize X pos c Us Pt st :
  In Pt piece_types ->
  after_initialize X pos c st ->
  after_initialize X pos c (fst (evaluate_pieces X pos Us Pt st)).
Proof.
  intros HPt H. unfold evaluate_pieces.
  apply pieces_loop_after_initialize; [assumption|].
  cbn [fst]. now apply ai_entry.
Qed.

Lemma run_pieces_after_initialize X pos c st score :
  after_initialize X pos c (fst (run_pieces X pos st score)).
Proof.
  rewrite run_pieces_fst. cbv zeta.
  repeat (apply evaluate_pieces_after_initialize; [auto with attacks|]).
  destruct c.
  - apply (ai_initialize_other X pos WHITE). apply ai_initialize.
  - apply ai_initialize.
Qed.

Lemma subset_after_merge a2 all pt b :
  bb_subset a2 all ->
  bb_subset (Z.lor a2 (Z.land all b)) (Z.lor all (Z.lor pt b)).
Proof.
  unfold bb_subset. intros H. rewrite <- H. bitwise.
Qed.

Lemma Color_eq_dec (a b : Color) : {a = b} + {a <> b}.
Proof. decide equality. Qed.

(** C10.  For each colour c, [attackedBy2[c]] is a subset of
    [attackedBy[c][ALL_PIECES]] at every point after [initialize<c>]:
    [initialize<c>] seeds the former with the intersection and the latter
    with the union of king and pawn attacks, and an iteration of the loop of
    [evaluate_pieces] adds to [attackedBy2[c]] only squares that are in
    [attackedBy[c][ALL_PIECES]] after it. *)
Theorem attackedBy2_within_all X pos c :
  (forall st0,
     let st := initialize X pos c st0 in
     attackedBy2 st c = Z.land (attackedBy st c KING) (attackedBy st c PAWN)
     /\ attackedBy st c ALL_PIECES
        = Z.lor (attackedBy st c KING) (attackedBy st c PAWN))
  /\ (forall Us Pt s st score,
        In Pt piece_types ->
        let st' := fst (pieces_body X pos Us Pt s (st, score)) in
        bb_subset (attackedBy2 st' c)
                  (Z.lor (attackedBy2 st c) (attackedBy st' c ALL_PIECES)))
  /\ (forall st,
        after_initialize X pos c st ->
        bb_subset (attackedBy2 st c) (attackedBy st c ALL_PIECES)).
Proof.
  split; [|split].
  - intros st0. apply initialize_seeds.
  - intros Us Pt s st score HPt st'. subst st'.
    rewrite attackedBy_pieces_body, attackedBy2_pieces_body.
    destruct (Color_eq_dec c Us) as [->|Hc].
    + rewrite merge_attacks_2, merge_attacks_ALL by assumption.
      unfold bb_subset. bitwise.
    + rewrite merge_attacks_2_other by assumption.
      unfold bb_subset. bitwise.
  - intros st H. induction H as [st|st H IH|Us Pt st HPt H IH|Us Pt s st score HPt H IH].
    + destruct (initialize_seeds X pos c st) as [-> ->].
      unfold bb_subset. bitwise.
    + rewrite attackedBy2_initialize_other, attackedBy_initialize_other
        by (destruct c; discriminate).
      exact IH.
    + rewrite attackedBy2_pieces_entry.
      rewrite attackedBy_pieces_entry; [exact IH | assumption |].
      right. apply piece_types_cases in HPt.
      destruct HPt as [->|[->|[->| ->]]]; split; discriminate.
    + rewrite attackedBy_pieces_body, attackedBy2_pieces_body.
      destruct (Color_eq_dec c Us) as [->|Hc].
      * rewrite merge_attacks_2, merge_attacks_ALL by assumption.
        now apply subset_after_merge.
      * rewrite merge_attacks_2_other by assumption.
        rewrite merge_attacks_other; [exact IH | assumption | now left].
Qed.

(** In the state that [value] reaches on the Horde position after the piece
    evaluation, Black's double attacks lie within Black's attacks. *)
Lemma attackedBy2_within_all_witness :
  let X := Sample.X_horde in
  let pos := Sample.pos_horde in
  let st := fst (run_pieces X pos (Evaluation_ctor Sample.zeroed) (seed_score X pos)) in
  attackedBy2 st BLACK <> 0
  /\ bb_subset (attackedBy2 st BLACK) (attackedBy st BLACK ALL_PIECES).
Proof.
  intros X pos st. split; [vm_compute; discriminate|].
  apply (proj2 (proj2 (attackedBy2_within_all X pos BLACK))).
  apply run_pieces_after_initialize.
Defined.

(** * Further properties of the evaluation *)

(** ** Space: the single popcount *)

Lemma evaluate_space_eq X pos Us st :
  evaluate_space X pos Us st
  = let bonus := space_bonus pos Us st in
    let weight := count pos ALL_PIECES Us - 2 * open_files (pe X pos) in
    if is_koth pos then
      make_score (cdiv (bonus * weight * weight) 22) 0
      +! KothSafeCenter
         *! popcount (Z.land (Z.land (Z.land (space_safe pos Us st)
                                             (space_behind pos Us))
                                     (Z.lor Rank4BB Rank5BB))
                             (Z.lor FileDBB FileEBB))
    else make_score (cdiv (bonus * weight * weight) 16) 0.
Proof. destruct Us; reflexivity. Qed.

(** Bitwise identities with [^], [~] and set difference as well. *)
Ltac bits :=
  apply Z.bits_inj'; intros ?i ?Hi;
  repeat (rewrite Z.lor_spec || rewrite Z.land_spec || rewrite Z.lxor_spec
          || rewrite Z.ldiff_spec || (rewrite Z.lnot_spec by assumption)
          || rewrite Z.bits_0);
  try btauto.

Lemma popcount_ge0 b : 0 <= popcount b.
Proof. destruct b; simpl; try lia. pose proof (popcount_pos_pos p); lia. Qed.

Lemma popcount_pos_lor p q :
  Pos.land p q = 0%N ->
  popcount_pos (Pos.lor p q) = popcount_pos p + popcount_pos q.
Proof.
  revert q. induction p as [p IH|p IH|]; intros [q|q|] H; cbn [Pos.lor popcount_pos];
    cbn [Pos.land] in H;
    try (destruct (Pos.land p q) eqn:E; cbn in H; try discriminate H;
         rewrite (IH q E); lia);
    try discriminate H; try lia.
Qed.

Lemma popcount_lor_disjoint a b :
  0 <= a -> 0 <= b -> Z.land a b = 0 ->
  popcount (Z.lor a b) = popcount a + popcount b.
Proof.
  destruct a as [|p|p], b as [|q|q]; intros Ha Hb H; try lia; try reflexivity.
  - simpl. lia.
  - simpl in *. apply popcount_pos_lor.
    destruct (Pos.land p q); [reflexivity | discriminate H].
Qed.

Lemma popcount_subset a M : 0 <= M -> popcount (Z.land a M) <= popcount M.
Proof.
  intros HM.
  assert (E : M = Z.lor (Z.land a M) (Z.ldiff M a)) by bits.
  rewrite E at 2. rewrite popcount_lor_disjoint.
  - pose proof (popcount_ge0 (Z.ldiff M a)). lia.
  - apply Z.land_nonneg. now right.
  - apply Z.ldiff_nonneg. now left.
  - bits.
Qed.

Lemma shl_masked a M n :
  Z.land (Z.shiftl M n) All64 = Z.shiftl M n ->
  shl (Z.land a M) n = Z.shiftl (Z.land a M) n.
Proof.
  intros H. unfold shl. rewrite Z.shiftl_land, <- Z.land_assoc, H. reflexivity.
Qed.

Lemma popcount_shiftl32 b : 0 <= b -> popcount (Z.shiftl b 32) = popcount b.
Proof. destruct b as [|p|p]; intros _; reflexivity. Qed.

Lemma low_bits_zero b n :
  0 <= n -> Z.land b (Z.ones n) = 0 -> Z.shiftl (Z.shiftr b n) n = b.
Proof.
  intros Hn H. rewrite <- Z.ldiff_ones_r by assumption.
  assert (E : Z.ldiff b (Z.ones n) = Z.lxor (Z.land b (Z.ones n)) b) by bits.
  rewrite E, H. apply Z.lxor_0_l.
Qed.

Lemma popcount_shiftr32 b :
  0 <= b -> Z.land b (Z.ones 32) = 0 -> popcount (Z.shiftr b 32) = popcount b.
Proof.
  intros Hb H. rewrite <- (low_bits_zero b 32) at 2 by (trivial; lia).
  symmetry. apply popcount_shiftl32. apply Z.shiftr_nonneg. exact Hb.
Qed.

Lemma space_safe_mask pos Us st :
  exists R, space_safe pos Us st = Z.land R (SpaceMask Us).
Proof.
  exists (Z.land (Z.land (bb_not (pieces_c_pt pos Us PAWN))
                         (bb_not (attackedBy st (opp Us) PAWN)))
                 (Z.lor (attackedBy st Us ALL_PIECES)
                        (bb_not (attackedBy st (opp Us) ALL_PIECES)))).
  unfold space_safe. bits.
Qed.

Lemma SpaceMask_nonneg Us : 0 <= SpaceMask Us.
Proof. destruct Us; vm_compute; discriminate. Qed.

Lemma popcount_SpaceMask Us : popcount (SpaceMask Us) = 12.
Proof. destruct Us; reflexivity. Qed.

Lemma space_safe_nonneg pos Us st : 0 <= space_safe pos Us st.
Proof.
  destruct (space_safe_mask pos Us st) as [R ->].
  apply Z.land_nonneg. right. apply SpaceMask_nonneg.
Qed.

Lemma space_bonus_popcount pos Us st :
  space_assert pos Us st = true
  /\ space_bonus pos Us st
     = popcount (space_safe pos Us st)
       + popcount (Z.land (space_behind pos Us) (space_safe pos Us st)).
Proof.
  unfold space_assert, space_bonus, to_unsigned.
  pose proof (space_safe_nonneg pos Us st) as Hs.
  destruct (space_safe_mask pos Us st) as [R E]. rewrite E in *.
  assert (Hb : 0 <= Z.land (space_behind pos Us) (Z.land R (SpaceMask Us)))
    by (apply Z.land_nonneg; now right).
  destruct Us; split.
  - apply Z.eqb_eq. unfold shr. rewrite Z.shiftr_land, <- Z.land_assoc.
    change (Z.land (Z.shiftr (SpaceMask WHITE) 32) 4294967295) with 0.
    apply Z.land_0_r.
  - rewrite shl_masked by reflexivity.
    rewrite popcount_lor_disjoint.
    + now rewrite popcount_shiftl32.
    + apply Z.shiftl_nonneg. exact Hs.
    + exact Hb.
    + rewrite Z.shiftl_land, (Z.land_assoc (space_behind pos WHITE)).
      apply land_masks_disjoint. reflexivity.
  - apply Z.eqb_eq. unfold shr. rewrite Z.shiftr_0_r, <- Z.land_assoc.
    change (Z.land (SpaceMask BLACK) 4294967295) with 0.
    apply Z.land_0_r.
  - unfold shr. rewrite popcount_lor_disjoint.
    + rewrite popcount_shiftr32; trivial.
      rewrite <- Z.land_assoc.
      change (Z.land (SpaceMask BLACK) (Z.ones 32)) with 0. apply Z.land_0_r.
    + apply Z.shiftr_nonneg. exact Hs.
    + exact Hb.
    + rewrite Z.shiftr_land, (Z.land_assoc (space_behind pos BLACK)).
      apply land_masks_disjoint. reflexivity.
Qed.

(** X1.  In [evaluate_space<Us>] the [assert] on the upper half of [safe]
    holds for every content of the attack maps, and the single [popcount]
    counts what its comment promises: the safe squares, and once more those
    safe squares that are at most three squares behind a friendly pawn.  The
    score is built from that [bonus] as the source has it. *)
Theorem space_single_popcount X pos Us st :
  space_assert pos Us st = true
  /\ space_bonus pos Us st
     = popcount (space_safe pos Us st)
       + popcount (Z.land (space_behind pos Us) (space_safe pos Us st))
  /\ evaluate_space X pos Us st
     = (let bonus := space_bonus pos Us st in
        let weight := count pos ALL_PIECES Us - 2 * open_files (pe X pos) in
        if is_koth pos then
          make_score (cdiv (bonus * weight * weight) 22) 0
          +! KothSafeCenter
             *! popcount (Z.land (Z.land (Z.land (space_safe pos Us st)
                                                 (space_behind pos Us))
                                         (Z.lor Rank4BB Rank5BB))
                                 (Z.lor FileDBB FileEBB))
        else make_score (cdiv (bonus * weight * weight) 16) 0).
Proof.
  destruct (space_bonus_popcount pos Us st) as [Ha Hb].
  split; [exact Ha|]. split; [exact Hb|]. apply evaluate_space_eq.
Qed.

Lemma cdiv_nonneg a b : 0 <= a -> 0 < b -> 0 <= cdiv a b.
Proof. intros. unfold cdiv. now apply Z.quot_pos. Qed.

(** X2.  The [bonus] of [evaluate_space<Us>] lies between 0 and 24 (the
    space mask has twelve squares, each counted at most twice), neither half
    of the returned score is negative, and outside King of the Hill the score
    is [(bonus * weight * weight / 16, 0)]: space never counts in the
    endgame. *)
Theorem space_score_bounds X pos Us st :
  0 <= space_bonus pos Us st <= 24
  /\ 0 <= mg_value (evaluate_space X pos Us st)
  /\ 0 <= eg_value (evaluate_space X pos Us st)
  /\ (is_koth pos = false ->
      evaluate_space X pos Us st
      = make_score
          (cdiv (space_bonus pos Us st
                 * (count pos ALL_PIECES Us - 2 * open_files (pe X pos))
                 * (count pos ALL_PIECES Us - 2 * open_files (pe X pos))) 16) 0).
Proof.
  assert (Hb : 0 <= space_bonus pos Us st <= 24).
  { rewrite (proj2 (space_bonus_popcount pos Us st)).
    pose proof (space_safe_nonneg pos Us st) as Hs.
    pose proof (popcount_ge0 (space_safe pos Us st)).
    pose proof (popcount_ge0 (Z.land (space_behind pos Us) (space_safe pos Us st))).
    pose proof (popcount_subset (space_behind pos Us) (space_safe pos Us st) Hs).
    destruct (space_safe_mask pos Us st) as [R E].
    pose proof (popcount_subset R (SpaceMask Us) (SpaceMask_nonneg Us)) as Hm.
    rewrite <- E, popcount_SpaceMask in Hm. lia. }
  split; [exact Hb|].
  rewrite evaluate_space_eq. cbv zeta.
  set (w := count pos ALL_PIECES Us - 2 * open_files (pe X pos)).
  assert (Hq : 0 <= space_bonus pos Us st * w * w) by nia.
  destruct (is_koth pos); cbn [mg_value eg_value score_add score_mul].
  - pose proof (cdiv_nonneg _ 22 Hq ltac:(lia)).
    pose proof (popcount_ge0
      (Z.land (Z.land (Z.land (space_safe pos Us st) (space_behind pos Us))
                      (Z.lor Rank4BB Rank5BB)) (Z.lor FileDBB FileEBB))) as Hp.
    repeat split; try discriminate.
    + change (mg_value KothSafeCenter) with 163. lia.
    + change (eg_value KothSafeCenter) with 207. lia.
  - pose proof (cdiv_nonneg _ 16 Hq ltac:(lia)).
    repeat split; trivial; lia.
Qed.

(** The flank squares and their shift, for either colour. *)
Lemma shift4_flank pos Us st :
  let b := king_flank_attacks pos Us st in
  0 <= b
  /\ 0 <= shift4 Us b
  /\ Z.land (shift4 Us b) b = 0
  /\ popcount (shift4 Us b) = popcount b
  /\ popcount b <= 20.
Proof.
  intros b. subst b. rewrite king_flank_attacks_mask.
  pose proof (file_of_range (square_KING pos Us)) as Hkf.
  pose proof (flank_camp_nonneg Us _ Hkf) as HM.
  set (a := attackedBy st (opp Us) ALL_PIECES).
  set (kf := file_of (square_KING pos Us)) in *.
  assert (H0 : 0 <= Z.land a (flank_camp Us kf))
    by (apply Z.land_nonneg; now right).
  assert (H20 : popcount (flank_camp Us kf) = 20).
  { destruct Us, (eight_cases kf Hkf) as [->|[->|[->|[->|[->|[->|[->| ->]]]]]]];
      reflexivity. }
  pose proof (popcount_subset a _ HM) as Hle. rewrite H20 in Hle.
  split; [exact H0|].
  destruct Us.
  - destruct (flank_camp_white _ Hkf) as [H1 H2]. repeat split; trivial.
    + unfold shift4, shl. apply Z.land_nonneg. right. vm_compute. discriminate.
    + now apply shift4_white_disjoint.
    + now apply shift4_white_popcount.
  - destruct (flank_camp_black _ Hkf) as [H1 H2]. repeat split; trivial.
    + unfold shift4, shr. now apply Z.shiftr_nonneg.
    + now apply shift4_black_disjoint.
    + now apply shift4_black_popcount.
Qed.

(** X3.  The [popcount] of the king tropism counts every flank square that
    the enemy attacks once, and a second time when the enemy attacks it twice
    and no pawn of ours defends it; there are at most 20 such squares.  The
    score after the tropism is the score before it less [CloseEnemies] times
    that count and, on a flank without pawns, less [PawnlessFlank]. *)
Theorem king_tropism_counts_twice pos Us st score :
  let b := king_flank_attacks pos Us st in
  let twice :=
    Z.land (Z.land b (attackedBy2 st (opp Us))) (bb_not (attackedBy st Us PAWN)) in
  let n := popcount b + popcount twice in
  popcount (close_enemies pos Us st) = n
  /\ 0 <= popcount twice <= popcount b
  /\ popcount b <= 20
  /\ king_tropism pos Us st score
     = let quiet := score -! at1 SCORE_ZERO CloseEnemies (vidx (variant pos)) *! n in
       if nz (Z.land (pieces_pt pos PAWN)
                     (at1 0 KingFlank (file_of (square_KING pos Us))))
       then quiet else quiet -! PawnlessFlank.
Proof.
  intros b twice n.
  destruct (shift4_flank pos Us st) as (Hb & Hs & Hd & Hp & H20). fold b in Hb, Hs, Hd, Hp, H20.
  assert (Et : twice = Z.land (Z.land (attackedBy2 st (opp Us))
                                      (bb_not (attackedBy st Us PAWN))) b)
    by (subst twice; bits).
  assert (Ht : 0 <= twice) by (rewrite Et; apply Z.land_nonneg; now right).
  assert (Hc : popcount (close_enemies pos Us st) = n).
  { unfold close_enemies. fold b. fold twice.
    rewrite popcount_lor_disjoint; trivial.
    - subst n. now rewrite Hp.
    - rewrite Et, (Z.land_comm _ b), Z.land_assoc, Hd. apply Z.land_0_l. }
  split; [exact Hc|]. split.
  - split; [apply popcount_ge0|]. rewrite Et. now apply popcount_subset.
  - split; [exact H20|].
    unfold king_tropism. fold b. fold twice.
    change (Z.lor (shift4 Us b) twice) with (close_enemies pos Us st).
    rewrite Hc. cbv zeta.
    now destruct (nz (Z.land (pieces_pt pos PAWN)
                             (at1 0 KingFlank (file_of (square_KING pos Us))))).
Qed.

(** ** King of the Hill: the distance to the centre *)

Lemma square_of_rank_and_file s : s = 8 * rank_of s + file_of s.
Proof.
  unfold rank_of, file_of. change 7 with (Z.ones 3).
  rewrite Z.land_ones, Z.shiftr_div_pow2 by lia.
  change (2 ^ 3) with 8. apply Z.div_mod. lia.
Qed.

Lemma distance_zero a b : distance a b = 0 -> a = b.
Proof.
  unfold distance, distance_file, distance_rank. intros H.
  rewrite (square_of_rank_and_file a), (square_of_rank_and_file b). lia.
Qed.

Lemma distance_nonneg a b : 0 <= distance a b.
Proof. unfold distance, distance_file, distance_rank. lia. Qed.

Lemma popcount_positive b : 0 < b -> 0 < popcount b.
Proof. destruct b; intros H; try lia. apply popcount_pos_pos. Qed.

Lemma occupied_square_counts b s :
  0 <= s -> Z.testbit b s = true -> 0 < popcount (Z.land b (SquareBB s)).
Proof.
  intros Hs Hb. apply popcount_positive.
  assert (H0 : 0 <= Z.land b (SquareBB s)).
  { apply Z.land_nonneg. right. unfold SquareBB. apply Z.shiftl_nonneg. lia. }
  assert (Hne : Z.land b (SquareBB s) <> 0).
  { intros E. pose proof (f_equal (fun z => Z.testbit z s) E) as T.
    cbv beta in T. rewrite Z.land_spec, Hb, Z.bits_0 in T.
    unfold SquareBB in T. rewrite Z.shiftl_spec, Z.sub_diag in T by assumption.
    discriminate T. }
  lia.
Qed.

Lemma koth_score_by_dist pos Us score :
  koth_score pos Us score
  = fold_left
      (fun score c =>
         score +! at1 SCORE_ZERO KothDistanceBonus (Z.min (koth_dist pos Us c - 1) 5))
      koth_center score.
Proof. reflexivity. Qed.

(** X4.  King of the Hill: for each of the four centre squares
    [assert(dist > 0)] holds when the king of [Us] stands on a square of
    [pos.pieces(Us)], and the index [min(dist - 1, 5)] into
    [KothDistanceBonus] lies between 0 and 5. *)
Theorem koth_dist_positive pos Us c :
  In c koth_center ->
  Z.testbit (pieces_c pos Us) (square_KING pos Us) = true ->
  0 < koth_dist pos Us c
  /\ 0 <= Z.min (koth_dist pos Us c - 1) 5 <= 5.
Proof.
  intros Hc Hk.
  assert (H : 0 < koth_dist pos Us c).
  { unfold koth_dist.
    pose proof (distance_nonneg (square_KING pos Us) c) as Hd.
    pose proof (popcount_ge0 (Z.land (attackers_to pos c) (pieces_c pos (opp Us)))).
    pose proof (popcount_ge0 (Z.land (pieces_c pos Us) (SquareBB c))).
    destruct (Z.eq_dec (distance (square_KING pos Us) c) 0) as [E|E]; [|lia].
    apply distance_zero in E. rewrite E in Hk.
    assert (0 <= c) by (destruct Hc as [<-|[<-|[<-|[<-|[]]]]]; discriminate).
    pose proof (occupied_square_counts _ c H1 Hk). lia. }
  split; [exact H | lia].
Qed.

(** The bishop ending as a King of the Hill position: White's king on e1
    is at a positive [dist] from e4. *)
Lemma koth_dist_positive_witness :
  0 < koth_dist (Sample.pos_kbp KOTH_VARIANT WHITE SCORE_ZERO) WHITE SQ_E4.
Proof.
  refine (proj1 (koth_dist_positive (Sample.pos_kbp KOTH_VARIANT WHITE SCORE_ZERO)
                   WHITE SQ_E4 _ _)).
  - left. reflexivity.
  - reflexivity.
Defined.

(** ** The king danger is a penalty *)








(** ** King safety that is switched off *)

Lemma fst_pieces_body X pos Us Pt s st score :
  fst (pieces_body X pos Us Pt s (st, score))
  = let b := piece_attacks X pos Us Pt s in
    let st1 := king_ring_pressure pos Us Pt b (merge_attacks X Us Pt s b st) in
    set_mobility st1 Us
      (mobility st1 Us
       +! at3 SCORE_ZERO MobilityBonus (vidx (variant pos)) (PieceType_idx Pt - 2)
              (popcount (Z.land b (mobilityArea st1 Us)))).
Proof. unfold pieces_body. destruct (is_anti pos); reflexivity. Qed.

Lemma pieces_loop_preserves X pos Us Pt (P : EvalState -> Prop) pl acc :
  (forall s st score, P st -> P (fst (pieces_body X pos Us Pt s (st, score)))) ->
  P (fst acc) -> P (fst (pieces_loop X pos Us Pt pl acc)).
Proof.
  intros Hbody. revert acc.
  induction pl as [|s pl IH]; intros [st score] H; cbn [pieces_loop fst] in *;
    [exact H|].
  destruct (s =? SQ_NONE); [exact H|]. apply IH. now apply Hbody.
Qed.

Lemma evaluate_pieces_preserves X pos Us Pt (P : EvalState -> Prop) st :
  (forall s st score, P st -> P (fst (pieces_body X pos Us Pt s (st, score)))) ->
  (forall st, P st -> P (pieces_entry Us Pt st)) ->
  P st -> P (fst (evaluate_pieces X pos Us Pt st)).
Proof.
  intros Hbody Hentry H. unfold evaluate_pieces.
  apply pieces_loop_preserves; [exact Hbody|]. cbn [fst]. now apply Hentry.
Qed.

Lemma run_pieces_preserves X pos (P : EvalState -> Prop) st score :
  (forall Us Pt s st score,
     In Pt piece_types -> P st -> P (fst (pieces_body X pos Us Pt s (st, score)))) ->
  (forall Us Pt st, In Pt piece_types -> P st -> P (pieces_entry Us Pt st)) ->
  P (initialize X pos BLACK (initialize X pos WHITE st)) ->
  P (fst (run_pieces X pos st score)).
Proof.
  intros Hbody Hentry H. rewrite run_pieces_fst. cbv zeta.
  repeat (apply evaluate_pieces_preserves;
          [intros; apply Hbody; [simpl; tauto | assumption]
          |intros; apply Hentry; [simpl; tauto | assumption]|]).
  exact H.
Qed.

(** The king ring is written by [initialize] only. *)
Lemma kingRing_pieces_body X pos Us Pt s st score c :
  kingRing (fst (pieces_body X pos Us Pt s (st, score))) c = kingRing st c.
Proof.
  rewrite fst_pieces_body. cbv zeta. unfold king_ring_pressure, merge_attacks.
  destruct (nz _); destruct (PieceType_eqb Pt QUEEN); reflexivity.
Qed.

Lemma kingRing_pieces_entry Us Pt st c :
  kingRing (pieces_entry Us Pt st) c = kingRing st c.
Proof. unfold pieces_entry. destruct (PieceType_eqb Pt QUEEN); reflexivity. Qed.

Lemma kingAttackersCount_pieces_entry Us Pt st c :
  kingAttackersCount (pieces_entry Us Pt st) c = kingAttackersCount st c.
Proof. unfold pieces_entry. destruct (PieceType_eqb Pt QUEEN); reflexivity. Qed.

(** A piece that meets no square of the enemy king ring leaves the attacker
    count alone; the count of the other colour is never written. *)
Lemma kingAttackersCount_pieces_body X pos Us Pt s st score c :
  c <> Us \/ kingRing st (opp Us) = 0 ->
  kingAttackersCount (fst (pieces_body X pos Us Pt s (st, score))) c
  = kingAttackersCount st c.
Proof.
  intros H. rewrite fst_pieces_body. cbv zeta. unfold king_ring_pressure.
  assert (Hk : kingRing (merge_attacks X Us Pt s (piece_attacks X pos Us Pt s) st)
                        (opp Us) = kingRing st (opp Us)).
  { unfold merge_attacks. destruct (PieceType_eqb Pt QUEEN); reflexivity. }
  assert (Hc : kingAttackersCount
                 (merge_attacks X Us Pt s (piece_attacks X pos Us Pt s) st) c
               = kingAttackersCount st c).
  { unfold merge_attacks. destruct (PieceType_eqb Pt QUEEN); reflexivity. }
  rewrite Hk.
  destruct H as [H|H].
  - destruct (nz _); cbn; rewrite <- Hc; destruct Us, c; try congruence; reflexivity.
  - rewrite H, Z.land_0_r. cbn. exact Hc.
Qed.

Lemma initialize_disabled_both X pos c st :
  king_safety_enabled X pos c = false ->
  kingRing (initialize X pos BLACK (initialize X pos WHITE st)) c = 0
  /\ kingAttackersCount (initialize X pos BLACK (initialize X pos WHITE st)) (opp c) = 0.
Proof.
  intros He. destruct c.
  - unfold initialize at 1 3.
    destruct (king_safety_enabled X pos BLACK);
      [destruct (relative_rank BLACK (square_KING pos BLACK) =? RANK_1)|];
      cbn; unfold initialize; rewrite He; split; reflexivity.
  - unfold initialize at 1 3. rewrite He. split; reflexivity.
Qed.

Lemma run_pieces_disabled X pos c st score :
  king_safety_enabled X pos c = false ->
  kingRing (fst (run_pieces X pos st score)) c = 0
  /\ kingAttackersCount (fst (run_pieces X pos st score)) (opp c) = 0.
Proof.
  intros Hd.
  apply (run_pieces_preserves X pos
           (fun st => kingRing st c = 0 /\ kingAttackersCount st (opp c) = 0)).
  - intros Us Pt s st0 sc HPt [H1 H2]. split.
    + now rewrite kingRing_pieces_body.
    + rewrite kingAttackersCount_pieces_body; [exact H2|].
      destruct Us, c; try (left; discriminate); now right.
  - intros Us Pt st0 HPt [H1 H2].
    now rewrite kingRing_pieces_entry, kingAttackersCount_pieces_entry.
  - now apply initialize_disabled_both.
Qed.

(** X6.  When [initialize<c>] does not set up the king safety of [c] (Anti,
    Extinction, or the enemy has less than a rook and a knight outside
    Crazyhouse), the king ring of [c] is still empty and the enemy's attacker
    count still 0 after the eight [evaluate_pieces] calls of [value]: no
    piece can raise the count against an empty ring. *)
Theorem disabled_king_safety_survives_pieces X pos c st score :
  variant pos = ANTI_VARIANT \/ variant pos = EXTINCTION_VARIANT
  \/ (non_pawn_material_c pos (opp c) < RookValueMg X + KnightValueMg X
      /\ variant pos <> CRAZYHOUSE_VARIANT) ->
  kingRing (fst (run_pieces X pos st score)) c = 0
  /\ kingAttackersCount (fst (run_pieces X pos st score)) (opp c) = 0.
Proof.
  intros Hd. apply king_safety_disabled_iff in Hd.
  now apply run_pieces_disabled.
Qed.

(** In the bishop ending Black has less than a rook and a knight: after
    the piece evaluation White's king ring is empty and Black's attacker
    count is 0. *)
Lemma disabled_king_safety_survives_pieces_witness :
  let X := Sample.X_kbp in
  let pos := Sample.pos_kbp CHESS_VARIANT WHITE SCORE_ZERO in
  let st := fst (run_pieces X pos (Evaluation_ctor Sample.zeroed) (seed_score X pos)) in
  kingRing st WHITE = 0 /\ kingAttackersCount st BLACK = 0.
Proof.
  intros X pos st.
  apply (disabled_king_safety_survives_pieces X pos WHITE).
  right; right. split; [vm_compute; reflexivity | discriminate].
Defined.

(** X7.  In the same situation, when the enemy has at most one queen, the
    king-danger block of [evaluate_king<c>] does not run after the piece
    evaluation: the function returns the shelter score with the tropism and
    pawnless-flank terms only. *)
Theorem disabled_king_safety_skips_danger X pos c st score :
  variant pos = ANTI_VARIANT \/ variant pos = EXTINCTION_VARIANT
  \/ (non_pawn_material_c pos (opp c) < RookValueMg X + KnightValueMg X
      /\ variant pos <> CRAZYHOUSE_VARIANT) ->
  count pos QUEEN (opp c) <= 1 ->
  let st' := fst (run_pieces X pos st score) in
  king_danger_active pos c st' = false
  /\ evaluate_king X pos c st'
     = king_tropism pos c st' (king_safety (pe X pos) c (square_KING pos c)).
Proof.
  intros Hd Hq st'.
  destruct (run_pieces_disabled X pos c st score
              (proj2 (king_safety_disabled_iff X pos c) Hd)) as [_ Hc].
  fold st' in Hc.
  assert (Ha : king_danger_active pos c st' = false).
  { unfold king_danger_active. rewrite Hc.
    destruct (Z.ltb_spec (1 - count pos QUEEN (opp c)) 0); [lia | reflexivity]. }
  split; [exact Ha|]. unfold evaluate_king. now rewrite Ha.
Qed.

(** In the bishop ending the king-danger block of White's king does not
    run. *)
Lemma disabled_king_safety_skips_danger_witness :
  let X := Sample.X_kbp in
  let pos := Sample.pos_kbp CHESS_VARIANT WHITE SCORE_ZERO in
  let st := fst (run_pieces X pos (Evaluation_ctor Sample.zeroed) (seed_score X pos)) in
  king_danger_active pos WHITE st = false.
Proof.
  intros X pos st.
  refine (proj1 (disabled_king_safety_skips_danger X pos WHITE _ _ _ _)).
  - right; right. split; [vm_compute; reflexivity | discriminate].
  - vm_compute. discriminate.
Defined.

(** ** Inclusions between the attack maps *)

Lemma bb_subset_bits a b :
  bb_subset a b
  <-> (forall i, 0 <= i -> Z.testbit a i = true -> Z.testbit b i = true).
Proof.
  unfold bb_subset. split.
  - intros H i Hi Ha. rewrite <- H, Z.land_spec in Ha.
    now apply andb_true_iff in Ha.
  - intros H. apply Z.bits_inj'. intros i Hi. rewrite Z.land_spec.
    specialize (H i Hi). destruct (Z.testbit a i); [|reflexivity].
    now rewrite H.
Qed.

(** Inclusions between combinations of [&] and [|], from inclusions. *)
Ltac subsets :=
  repeat match goal with
         | H : bb_subset _ _ |- _ => rewrite bb_subset_bits in H
         end;
  apply bb_subset_bits; intros ?i ?Hi;
  repeat match goal with
         | H : forall j, 0 <= j -> _ |- _ => specialize (H _ Hi)
         end;
  repeat (rewrite Z.land_spec in * || rewrite Z.lor_spec in * );
  repeat match goal with
         | |- context [Z.testbit ?x ?j] => destruct (Z.testbit x j)
         | H : context [Z.testbit ?x ?j] |- _ => destruct (Z.testbit x j)
         end;
  simpl in *; auto; try discriminate;
  repeat match goal with
         | H : true = true -> _ |- _ => specialize (H eq_refl)
         end;
  auto; try discriminate.

Lemma bb_subset_refl a : bb_subset a a.
Proof. apply Z.land_diag. Qed.

Lemma merge_attacks_QUEEN_DIAGONAL X Us s b st :
  attackedBy (merge_attacks X Us QUEEN s b st) Us QUEEN_DIAGONAL
  = Z.lor (attackedBy st Us QUEEN_DIAGONAL) (Z.land b (PseudoAttacks X BISHOP s)).
Proof. destruct Us; reflexivity. Qed.

Lemma in_QUEEN : In QUEEN piece_types.
Proof. simpl; tauto. Qed.

(** After [evaluate_pieces<Us, QUEEN>] the diagonal queen attacks are queen
    attacks. *)
Lemma queen_diagonal_within_queen X pos Us st :
  bb_subset (attackedBy (fst (evaluate_pieces X pos Us QUEEN st)) Us QUEEN_DIAGONAL)
            (attackedBy (fst (evaluate_pieces X pos Us QUEEN st)) Us QUEEN).
Proof.
  unfold evaluate_pieces.
  apply (pieces_loop_preserves X pos Us QUEEN
           (fun st => bb_subset (attackedBy st Us QUEEN_DIAGONAL)
                                (attackedBy st Us QUEEN))).
  - intros s st0 sc H. rewrite attackedBy_pieces_body.
    rewrite merge_attacks_QUEEN_DIAGONAL, merge_attacks_Pt by apply in_QUEEN.
    subsets.
  - cbn [fst]. destruct Us; apply bb_subset_refl.
Qed.

Lemma slot_within_union st c pt :
  In pt six_piece_types ->
  bb_subset (attackedBy st c pt) (union_of_attacks st c).
Proof.
  unfold union_of_attacks. cbn [fold_left]. rewrite Z.lor_0_l.
  intros [<-|[<-|[<-|[<-|[<-|[<-|[]]]]]]]; subsets.
Qed.

Lemma run_pieces_union X pos c st score :
  attackedBy (fst (run_pieces X pos st score)) c ALL_PIECES
  = union_of_attacks (fst (run_pieces X pos st score)) c.
Proof.
  rewrite run_pieces_fst. cbv zeta.
  eapply union_after_four_merges;
    [ | apply pair_merged; simpl; tauto .. ].
  destruct c.
  - rewrite !(attackedBy_initialize_other X pos BLACK _ WHITE) by discriminate.
    apply (proj2 (initialize_seeds X pos WHITE st)).
  - apply (proj2 (initialize_seeds X pos BLACK _)).
Qed.

Lemma run_pieces_queen_diagonal X pos c st score :
  bb_subset (attackedBy (fst (run_pieces X pos st score)) c QUEEN_DIAGONAL)
            (attackedBy (fst (run_pieces X pos st score)) c QUEEN).
Proof.
  rewrite run_pieces_fst. cbv zeta. destruct c.
  - rewrite !(evaluate_pieces_same X pos BLACK QUEEN _ WHITE in_QUEEN)
      by discriminate.
    apply queen_diagonal_within_queen.
  - apply queen_diagonal_within_queen.
Qed.

(** X8.  After the piece evaluation of [value], every slot
    [attackedBy[c][pt]] is a subset of [attackedBy[c][ALL_PIECES]], and the
    diagonal queen attacks [attackedBy[c][QUEEN_DIAGONAL]] are a subset of
    the queen attacks [attackedBy[c][QUEEN]], for any content the object had
    before. *)
Theorem attack_slots_are_nested X pos c st score :
  let st' := fst (run_pieces X pos st score) in
  (forall pt, bb_subset (attackedBy st' c pt) (attackedBy st' c ALL_PIECES))
  /\ bb_subset (attackedBy st' c QUEEN_DIAGONAL) (attackedBy st' c QUEEN).
Proof.
  intros st'.
  pose proof (run_pieces_queen_diagonal X pos c st score) as Hqd. fold st' in Hqd.
  pose proof (run_pieces_union X pos c st score) as Hu. fold st' in Hu.
  split; [|exact Hqd].
  assert (Hq : bb_subset (attackedBy st' c QUEEN) (attackedBy st' c ALL_PIECES))
    by (rewrite Hu; apply slot_within_union; simpl; tauto).
  intros pt. destruct pt;
    try (rewrite Hu; apply slot_within_union; simpl; tauto).
  - apply bb_subset_refl.
  - subsets.
Qed.

(** ** Double attacks *)

Lemma bb_subset_trans a b c : bb_subset a b -> bb_subset b c -> bb_subset a c.
Proof. intros H1 H2. subsets. Qed.

Lemma pieces_loop_2_other X pos Us Pt pl acc c :
  c <> Us ->
  attackedBy2 (fst (pieces_loop X pos Us Pt pl acc)) c = attackedBy2 (fst acc) c.
Proof.
  intros Hc.
  apply (pieces_loop_preserves X pos Us Pt
           (fun st => attackedBy2 st c = attackedBy2 (fst acc) c)); [|reflexivity].
  intros s st sc H. rewrite attackedBy2_pieces_body.
  now rewrite merge_attacks_2_other.
Qed.

Lemma evaluate_pieces_2_other X pos Us Pt st c :
  c <> Us ->
  attackedBy2 (fst (evaluate_pieces X pos Us Pt st)) c = attackedBy2 st c.
Proof.
  intros Hc. unfold evaluate_pieces. rewrite pieces_loop_2_other by assumption.
  apply attackedBy2_pieces_entry.
Qed.

Lemma evaluate_pieces_merged2 X pos Us Pt st :
  In Pt piece_types ->
  merged2 Us Pt st (fst (evaluate_pieces X pos Us Pt st)).
Proof.
  intros HPt. unfold merged2, evaluate_pieces.
  set (a0 := attackedBy2 st Us). set (A := attackedBy st Us ALL_PIECES).
  assert (H : bb_subset a0 (attackedBy2 (fst (pieces_loop X pos Us Pt
                 (squares_of pos Pt Us) (pieces_entry Us Pt st, SCORE_ZERO))) Us)
              /\ bb_subset A (attackedBy (fst (pieces_loop X pos Us Pt
                 (squares_of pos Pt Us) (pieces_entry Us Pt st, SCORE_ZERO))) Us ALL_PIECES)
              /\ bb_subset (Z.land A (attackedBy (fst (pieces_loop X pos Us Pt
                 (squares_of pos Pt Us) (pieces_entry Us Pt st, SCORE_ZERO))) Us Pt))
                           (attackedBy2 (fst (pieces_loop X pos Us Pt
                 (squares_of pos Pt Us) (pieces_entry Us Pt st, SCORE_ZERO))) Us)).
  { apply (pieces_loop_preserves X pos Us Pt
             (fun st => bb_subset a0 (attackedBy2 st Us)
                        /\ bb_subset A (attackedBy st Us ALL_PIECES)
                        /\ bb_subset (Z.land A (attackedBy st Us Pt))
                                     (attackedBy2 st Us))).
    - intros s st0 sc (H1 & H2 & H3).
      rewrite attackedBy_pieces_body, attackedBy2_pieces_body.
      rewrite merge_attacks_2, merge_attacks_ALL, merge_attacks_Pt by assumption.
      split; [|split]; subsets.
    - cbn [fst]. rewrite attackedBy2_pieces_entry.
      rewrite attackedBy_pieces_entry_Pt by assumption.
      rewrite attackedBy_pieces_entry
        by (trivial; right; apply piece_types_cases in HPt;
            destruct HPt as [->|[->|[->| ->]]]; split; discriminate).
      fold a0 A. rewrite Z.land_0_r.
      split; [|split]; try apply bb_subset_refl. apply Z.land_0_l. }
  destruct H as (H1 & _ & H3). split; assumption.
Qed.

Lemma pair_merged2 X pos Pt st c :
  In Pt piece_types ->
  merged2 c Pt st
    (fst (evaluate_pieces X pos BLACK Pt (fst (evaluate_pieces X pos WHITE Pt st)))).
Proof.
  intros HPt. unfold merged2. destruct c.
  - rewrite (evaluate_pieces_2_other X pos BLACK Pt _ WHITE) by discriminate.
    rewrite (evaluate_pieces_same X pos BLACK Pt _ WHITE HPt) by discriminate.
    now apply evaluate_pieces_merged2.
  - destruct (evaluate_pieces_merged2 X pos BLACK Pt
                (fst (evaluate_pieces X pos WHITE Pt st)) HPt) as [H1 H2].
    rewrite (evaluate_pieces_2_other X pos WHITE Pt st BLACK) in H1 by discriminate.
    rewrite (evaluate_pieces_same X pos WHITE Pt st BLACK HPt) in H2 by discriminate.
    split; assumption.
Qed.

Lemma double_attacks_after_four_merges c s1 s2 s3 s4 s5 :
  attackedBy s1 c ALL_PIECES = Z.lor (attackedBy s1 c KING) (attackedBy s1 c PAWN) ->
  bb_subset (Z.land (attackedBy s1 c KING) (attackedBy s1 c PAWN)) (attackedBy2 s1 c) ->
  merged c KNIGHT s1 s2 -> merged c BISHOP s2 s3 ->
  merged c ROOK s3 s4 -> merged c QUEEN s4 s5 ->
  merged2 c KNIGHT s1 s2 -> merged2 c BISHOP s2 s3 ->
  merged2 c ROOK s3 s4 -> merged2 c QUEEN s4 s5 ->
  forall pt1 pt2,
    In pt1 six_piece_types -> In pt2 six_piece_types -> pt1 <> pt2 ->
    bb_subset (Z.land (attackedBy s5 c pt1) (attackedBy s5 c pt2)) (attackedBy2 s5 c).
Proof.
  intros H1 H0 [N1 N2] [B1 B2] [R1 R2] [Q1 Q2] [Na Nb] [Ba Bb] [Ra Rb] [Qa Qb].
  assert (EK : attackedBy s1 c KING = attackedBy s5 c KING)
    by (now rewrite (Q2 KING), (R2 KING), (B2 KING), (N2 KING) by discriminate).
  assert (EP : attackedBy s1 c PAWN = attackedBy s5 c PAWN)
    by (now rewrite (Q2 PAWN), (R2 PAWN), (B2 PAWN), (N2 PAWN) by discriminate).
  assert (EN : attackedBy s2 c KNIGHT = attackedBy s5 c KNIGHT)
    by (now rewrite (Q2 KNIGHT), (R2 KNIGHT), (B2 KNIGHT) by discriminate).
  assert (EB : attackedBy s3 c BISHOP = attackedBy s5 c BISHOP)
    by (now rewrite (Q2 BISHOP), (R2 BISHOP) by discriminate).
  assert (ER : attackedBy s4 c ROOK = attackedBy s5 c ROOK)
    by (now rewrite (Q2 ROOK) by discriminate).
  rewrite R1, B1, N1, H1, EK, EP, EN, EB, ER in Qb.
  rewrite B1, N1, H1, EK, EP, EN, EB, ER in Rb.
  rewrite N1, H1, EK, EP, EN, EB in Bb.
  rewrite H1, EK, EP, EN in Nb.
  rewrite EK, EP in H0.
  clear - H0 Na Nb Ba Bb Ra Rb Qa Qb.
  set (K := attackedBy s5 c KING) in *. set (P := attackedBy s5 c PAWN) in *.
  set (N := attackedBy s5 c KNIGHT) in *. set (B := attackedBy s5 c BISHOP) in *.
  set (R := attackedBy s5 c ROOK) in *. set (Q := attackedBy s5 c QUEEN) in *.
  assert (F4 : bb_subset (Z.land (Z.lor (Z.lor (Z.lor (Z.lor K P) N) B) R) Q)
                         (attackedBy2 s5 c)) by exact Qb.
  assert (F3 : bb_subset (Z.land (Z.lor (Z.lor (Z.lor K P) N) B) R) (attackedBy2 s5 c))
    by (eapply bb_subset_trans; [exact Rb | exact Qa]).
  assert (F2 : bb_subset (Z.land (Z.lor (Z.lor K P) N) B) (attackedBy2 s5 c))
    by (eapply bb_subset_trans; [exact Bb|];
        eapply bb_subset_trans; [exact Ra | exact Qa]).
  assert (F1 : bb_subset (Z.land (Z.lor K P) N) (attackedBy2 s5 c))
    by (eapply bb_subset_trans; [exact Nb|];
        eapply bb_subset_trans; [exact Ba|];
        eapply bb_subset_trans; [exact Ra | exact Qa]).
  assert (F0 : bb_subset (Z.land K P) (attackedBy2 s5 c))
    by (eapply bb_subset_trans; [exact H0|];
        eapply bb_subset_trans; [exact Na|];
        eapply bb_subset_trans; [exact Ba|];
        eapply bb_subset_trans; [exact Ra | exact Qa]).
  clear - F0 F1 F2 F3 F4.
  set (D := attackedBy2 s5 c) in *.
  intros pt1 pt2 I1 I2 Hne.
  destruct I1 as [<-|[<-|[<-|[<-|[<-|[<-|[]]]]]]];
    destruct I2 as [<-|[<-|[<-|[<-|[<-|[<-|[]]]]]]];
    try (exfalso; apply Hne; reflexivity);
    fold K P N B R Q; clear Hne; subsets.
Qed.

(** X9.  After the piece evaluation of [value], a square attacked by pieces
    of two different types of colour [c] (pawn, knight, bishop, rook, queen,
    king) is in [attackedBy2[c]]. *)
Theorem two_attackers_are_in_attackedBy2 X pos c st score pt1 pt2 :
  In pt1 six_piece_types -> In pt2 six_piece_types -> pt1 <> pt2 ->
  let st' := fst (run_pieces X pos st score) in
  bb_subset (Z.land (attackedBy st' c pt1) (attackedBy st' c pt2)) (attackedBy2 st' c).
Proof.
  intros I1 I2 Hne st'. subst st'. revert pt1 pt2 I1 I2 Hne.
  rewrite run_pieces_fst. cbv zeta.
  eapply double_attacks_after_four_merges;
    [ | | apply pair_merged; simpl; tauto .. | | | | ];
    [ | | apply pair_merged2; simpl; tauto .. ].
  - destruct c.
    + rewrite !(attackedBy_initialize_other X pos BLACK _ WHITE) by discriminate.
      apply (proj2 (initialize_seeds X pos WHITE st)).
    + apply (proj2 (initialize_seeds X pos BLACK _)).
  - destruct c.
    + rewrite !(attackedBy_initialize_other X pos BLACK _ WHITE) by discriminate.
      rewrite (attackedBy2_initialize_other X pos BLACK _ WHITE) by discriminate.
      rewrite <- (proj1 (initialize_seeds X pos WHITE st)). apply bb_subset_refl.
    + rewrite <- (proj1 (initialize_seeds X pos BLACK _)). apply bb_subset_refl.
Qed.

(** In the bishop ending the squares attacked by White's king and by
    White's bishop are among White's double attacks. *)
Lemma two_attackers_are_in_attackedBy2_witness :
  let st' := fst (run_pieces Sample.X_kbp (Sample.pos_kbp CHESS_VARIANT WHITE SCORE_ZERO)
                         Sample.zeroed SCORE_ZERO) in
  bb_subset (Z.land (attackedBy st' WHITE KING) (attackedBy st' WHITE BISHOP))
            (attackedBy2 st' WHITE).
Proof.
  apply (two_attackers_are_in_attackedBy2 Sample.X_kbp
           (Sample.pos_kbp CHESS_VARIANT WHITE SCORE_ZERO) WHITE
           Sample.zeroed SCORE_ZERO KING BISHOP);
    [simpl; tauto | simpl; tauto | discriminate].
Defined.

(** ** The scale factor and the interpolation *)

Lemma drawish_scale_factor_values X pos eg strongSide sf r :
  0 <= count pos PAWN strongSide ->
  drawish_scale_factor X pos eg strongSide sf = Some r ->
  In r [9; 31; 46; 37; 44; 51]
  /\ is_atomic pos = false
  /\ (sf = SCALE_FACTOR_NORMAL \/ sf = SCALE_FACTOR_ONEPAWN X).
Proof.
  intros Hc. unfold drawish_scale_factor.
  destruct (is_atomic pos); [discriminate|].
  destruct ((sf =? SCALE_FACTOR_NORMAL) || (sf =? SCALE_FACTOR_ONEPAWN X)) eqn:Hsf;
    [|discriminate].
  assert (Hsf' : sf = SCALE_FACTOR_NORMAL \/ sf = SCALE_FACTOR_ONEPAWN X)
    by (apply orb_true_iff in Hsf; destruct Hsf as [H|H];
        apply Z.eqb_eq in H; auto).
  destruct (opposite_bishops pos).
  - destruct ((non_pawn_material_c pos WHITE =? BishopValueMg X)
              && (non_pawn_material_c pos BLACK =? BishopValueMg X)).
    + destruct (more_than_one (pieces_pt pos PAWN));
        intros [= <-]; simpl; tauto.
    + intros [= <-]; simpl; tauto.
  - destruct ((Z.abs eg <=? BishopValueEg X) && (count pos PAWN strongSide <=? 2)
              && negb (pawn_passed pos (opp strongSide)
                                   (square_KING pos (opp strongSide)))) eqn:Hb;
      [|discriminate].
    apply andb_true_iff in Hb. destruct Hb as [Hb _].
    apply andb_true_iff in Hb. destruct Hb as [_ Hb].
    apply Z.leb_le in Hb. intros [= <-].
    assert (H : count pos PAWN strongSide = 0 \/ count pos PAWN strongSide = 1
                \/ count pos PAWN strongSide = 2) by lia.
    destruct H as [-> |[-> | ->]]; simpl; tauto.
Qed.

(** X10.  When the pawn counts are not negative, [evaluate_scale_factor]
    returns the scale factor of the material entry for the strong side or one
    of 9, 31, 46, 37, 44, 51 and 10.  In Atomic it returns the material
    entry's factor; outside Horde a factor other than [SCALE_FACTOR_NORMAL]
    and [SCALE_FACTOR_ONEPAWN] is returned as it is. *)
Theorem scale_factor_values X pos eg :
  (forall c, 0 <= count pos PAWN c) ->
  let strongSide := if VALUE_DRAW <? eg then WHITE else BLACK in
  let sf := scale_factor (me X pos) strongSide in
  let r := evaluate_scale_factor X pos eg in
  (r = sf \/ In r [9; 31; 46; 37; 44; 51; 10])
  /\ (is_atomic pos = true -> r = sf)
  /\ (is_horde pos = false -> sf <> SCALE_FACTOR_NORMAL ->
      sf <> SCALE_FACTOR_ONEPAWN X -> r = sf).
Proof.
  intros Hc strongSide sf r. subst r. unfold evaluate_scale_factor.
  fold strongSide. fold sf.
  destruct (drawish_scale_factor X pos eg strongSide sf) as [r|] eqn:Hd.
  - destruct (drawish_scale_factor_values X pos eg strongSide sf r (Hc _) Hd)
      as (Hr & Ha & Hs).
    split; [|split].
    + right. simpl in Hr |- *. tauto.
    + intros Ha'. congruence.
    + intros _ H1 H2. tauto.
  - split; [|split].
    + destruct (is_horde pos && _ && _); [right; simpl; tauto | now left].
    + intros Ha. unfold is_horde, is_atomic, is_variant in *.
      destruct (variant pos); try discriminate. reflexivity.
    + intros Hh _ _. rewrite Hh. reflexivity.
Qed.

(** The bishop ending with an endgame value of 50. *)
Lemma scale_factor_values_witness :
  let X := Sample.X_kbp in
  let pos := Sample.pos_kbp CHESS_VARIANT WHITE SCORE_ZERO in
  evaluate_scale_factor X pos 50 = scale_factor (me X pos) WHITE
  \/ In (evaluate_scale_factor X pos 50) [9; 31; 46; 37; 44; 51; 10].
Proof.
  refine (proj1 (scale_factor_values Sample.X_kbp
                   (Sample.pos_kbp CHESS_VARIANT WHITE SCORE_ZERO) 50 _)).
  intros [|]; vm_compute; discriminate.
Defined.

Lemma scale_factor_range X pos eg :
  (forall c, 0 <= count pos PAWN c) ->
  (forall c, 0 <= scale_factor (me X pos) c <= SCALE_FACTOR_NORMAL) ->
  0 <= evaluate_scale_factor X pos eg <= SCALE_FACTOR_NORMAL.
Proof.
  intros Hc Hs. unfold evaluate_scale_factor.
  set (strongSide := if VALUE_DRAW <? eg then WHITE else BLACK).
  set (sf := scale_factor (me X pos) strongSide).
  assert (Hsf : 0 <= sf <= SCALE_FACTOR_NORMAL) by apply Hs.
  unfold SCALE_FACTOR_NORMAL in *.
  destruct (drawish_scale_factor X pos eg strongSide sf) as [r|] eqn:Hd.
  - destruct (drawish_scale_factor_values X pos eg strongSide sf r (Hc _) Hd)
      as (Hr & _ & _).
    simpl in Hr. lia.
  - destruct (is_horde pos && _ && _); lia.
Qed.

Lemma abs_quot_le a b m :
  0 < b -> Z.abs a <= b * m -> Z.abs (cdiv a b) <= m.
Proof.
  intros Hb Ha. unfold cdiv.
  rewrite <- Z.quot_abs by lia. rewrite (Z.abs_eq b) by lia.
  rewrite Z.quot_div_nonneg by lia.
  apply Z.div_le_upper_bound; lia.
Qed.

(** X11.  When the game phase lies in 0..128, the scale factors of the
    material entry in 0..64 and the pawn counts are not negative, the
    interpolated value is at most the larger of |mg| and |eg| in absolute
    value: the interpolation and its two truncating divisions never leave
    the range of the two halves of the score. *)
Theorem blend_within_envelope X pos score :
  (forall c, 0 <= count pos PAWN c) ->
  (forall c, 0 <= scale_factor (me X pos) c <= SCALE_FACTOR_NORMAL) ->
  0 <= game_phase (me X pos) <= PHASE_MIDGAME ->
  Z.abs (blend X pos score)
  <= Z.max (Z.abs (mg_value score)) (Z.abs (eg_value score)).
Proof.
  intros Hc Hs Hp. unfold blend.
  pose proof (scale_factor_range X pos (eg_value score) Hc Hs) as Hr.
  set (r := evaluate_scale_factor X pos (eg_value score)) in *.
  set (p := game_phase (me X pos)) in *.
  set (mg := mg_value score). set (eg := eg_value score).
  set (M := Z.max (Z.abs mg) (Z.abs eg)).
  unfold SCALE_FACTOR_NORMAL, PHASE_MIDGAME in *.
  assert (HM1 : Z.abs mg <= M) by lia.
  assert (HM2 : Z.abs eg <= M) by lia.
  assert (HM0 : 0 <= M) by lia.
  assert (Hq : Z.abs (cdiv (eg * (128 - p) * r) 64) <= M * (128 - p)).
  { apply abs_quot_le; [lia|].
    rewrite !Z.abs_mul. rewrite (Z.abs_eq (128 - p)), (Z.abs_eq r) by lia.
    assert (H1 : Z.abs eg * (128 - p) <= M * (128 - p))
      by (apply Z.mul_le_mono_nonneg_r; lia).
    assert (H0 : 0 <= Z.abs eg * (128 - p))
      by (apply Z.mul_nonneg_nonneg; lia).
    assert (H2 : Z.abs eg * (128 - p) * r <= M * (128 - p) * 64)
      by (apply Z.mul_le_mono_nonneg; lia).
    lia. }
  apply abs_quot_le; [lia|].
  assert (Hm : Z.abs (mg * p) <= M * p)
    by (rewrite Z.abs_mul, (Z.abs_eq p) by lia;
        apply Z.mul_le_mono_nonneg_r; lia).
  lia.
Qed.

(** The bishop ending with the score (100, -300): the value is at most 300
    in absolute value. *)
Lemma blend_within_envelope_witness :
  let X := Sample.X_kbp in
  let pos := Sample.pos_kbp CHESS_VARIANT WHITE SCORE_ZERO in
  Z.abs (blend X pos (make_score 100 (-300))) <= 300.
Proof.
  refine (blend_within_envelope Sample.X_kbp
            (Sample.pos_kbp CHESS_VARIANT WHITE SCORE_ZERO)
            (make_score 100 (-300)) _ _ _).
  - intros [|]; vm_compute; discriminate.
  - intros [|]; vm_compute; split; discriminate.
  - vm_compute; split; discriminate.
Defined.

(** ** What [evaluate_pieces] leaves alone, and the order of the calls *)

Lemma untouched_refl c st : untouched c st st.
Proof. repeat split. Qed.

Lemma untouched_trans c st1 st2 st3 :
  untouched c st1 st2 -> untouched c st2 st3 -> untouched c st1 st3.
Proof.
  intros (A1 & A2 & A3 & A4 & A5 & A6) (B1 & B2 & B3 & B4 & B5 & B6).
  unfold untouched. repeat split; intros; congruence.
Qed.

Lemma same_areas_refl st : same_areas st st.
Proof. intros c. split; reflexivity. Qed.

Lemma same_areas_trans st1 st2 st3 :
  same_areas st1 st2 -> same_areas st2 st3 -> same_areas st1 st3.
Proof.
  intros A B c. destruct (A c) as [A1 A2], (B c) as [B1 B2]. split; congruence.
Qed.

Lemma pieces_body_untouched X pos Us Pt s st score :
  untouched (opp Us) st (fst (pieces_body X pos Us Pt s (st, score)))
  /\ same_areas st (fst (pieces_body X pos Us Pt s (st, score))).
Proof.
  rewrite fst_pieces_body. cbv zeta. unfold king_ring_pressure, merge_attacks.
  destruct (nz _); destruct (PieceType_eqb Pt QUEEN); destruct Us;
    (split; [repeat split | intros c; split; reflexivity]).
Qed.

Lemma pieces_entry_untouched Us Pt st :
  untouched (opp Us) st (pieces_entry Us Pt st)
  /\ same_areas st (pieces_entry Us Pt st).
Proof.
  unfold pieces_entry.
  destruct (PieceType_eqb Pt QUEEN); destruct Us;
    (split; [repeat split | intros c; split; reflexivity]).
Qed.

Lemma evaluate_pieces_untouched X pos Us Pt st :
  untouched (opp Us) st (fst (evaluate_pieces X pos Us Pt st))
  /\ same_areas st (fst (evaluate_pieces X pos Us Pt st)).
Proof.
  apply (evaluate_pieces_preserves X pos Us Pt
           (fun st' => untouched (opp Us) st st' /\ same_areas st st')).
  - intros s st0 sc [H1 H2].
    destruct (pieces_body_untouched X pos Us Pt s st0 sc) as [B1 B2].
    split; [eapply untouched_trans | eapply same_areas_trans]; eassumption.
  - intros st0 [H1 H2].
    destruct (pieces_entry_untouched Us Pt st0) as [B1 B2].
    split; [eapply untouched_trans | eapply same_areas_trans]; eassumption.
  - split; [apply untouched_refl | apply same_areas_refl].
Qed.

Ltac same_view_cases U :=
  destruct U as ((U1 & U2 & U3 & U4 & U5 & U6) & U7 & U8 & U9).

Ltac same_view_solve :=
  cbn in *; unfold upd, upd2; cbn;
  repeat split; intros;
  repeat match goal with
         | H : _ = _ |- _ => rewrite H
         | H : forall pt : PieceType, _ = _ |- _ => rewrite !H
         end;
  reflexivity.

Lemma merge_attacks_same_view X Us Pt s b st1 st2 :
  same_view Us st1 st2 ->
  same_view Us (merge_attacks X Us Pt s b st1) (merge_attacks X Us Pt s b st2).
Proof.
  intros U. same_view_cases U.
  unfold same_view, untouched, merge_attacks.
  destruct (PieceType_eqb Pt QUEEN); destruct Us; same_view_solve.
Qed.

Lemma king_ring_pressure_same_view pos Us Pt b st1 st2 :
  same_view Us st1 st2 ->
  same_view Us (king_ring_pressure pos Us Pt b st1)
               (king_ring_pressure pos Us Pt b st2).
Proof.
  intros U. pose proof U as U'. same_view_cases U.
  unfold king_ring_pressure. rewrite U7.
  destruct (nz (Z.land b (kingRing st1 (opp Us)))); [|exact U'].
  unfold same_view, untouched.
  destruct Us; same_view_solve.
Qed.

Lemma set_mobility_same_view Us v st1 st2 :
  same_view Us st1 st2 ->
  same_view Us (set_mobility st1 Us v) (set_mobility st2 Us v).
Proof.
  intros U. same_view_cases U. unfold same_view, untouched.
  destruct Us; same_view_solve.
Qed.

Lemma minor_terms_same_view X pos Us Pt s b st1 st2 score :
  same_view Us st1 st2 ->
  minor_terms X pos Us Pt s b st2 score = minor_terms X pos Us Pt s b st1 score.
Proof.
  intros U. same_view_cases U. unfold minor_terms. now rewrite !U1.
Qed.

Lemma pieces_body_same_view X pos Us Pt s st1 st2 score :
  same_view Us st1 st2 ->
  same_view Us (fst (pieces_body X pos Us Pt s (st1, score)))
               (fst (pieces_body X pos Us Pt s (st2, score)))
  /\ snd (pieces_body X pos Us Pt s (st2, score))
     = snd (pieces_body X pos Us Pt s (st1, score)).
Proof.
  intros U.
  pose proof (king_ring_pressure_same_view pos Us Pt (piece_attacks X pos Us Pt s)
                _ _ (merge_attacks_same_view X Us Pt s
                       (piece_attacks X pos Us Pt s) _ _ U)) as V.
  split.
  - rewrite !fst_pieces_body. cbv zeta.
    pose proof V as V'. same_view_cases V'. rewrite U3, U8.
    now apply set_mobility_same_view.
  - unfold pieces_body.
    set (k1 := king_ring_pressure pos Us Pt _ (merge_attacks X Us Pt s _ st1)) in *.
    set (k2 := king_ring_pressure pos Us Pt _ (merge_attacks X Us Pt s _ st2)) in *.
    pose proof V as V'. same_view_cases V'. rewrite U3, U8.
    destruct (is_anti pos); [reflexivity|]. cbn [snd].
    rewrite (minor_terms_same_view X pos Us Pt s _ _ _ _
               (set_mobility_same_view Us _ _ _ V)).
    reflexivity.
Qed.

Lemma pieces_loop_same_view X pos Us Pt pl st1 st2 score :
  same_view Us st1 st2 ->
  same_view Us (fst (pieces_loop X pos Us Pt pl (st1, score)))
               (fst (pieces_loop X pos Us Pt pl (st2, score)))
  /\ snd (pieces_loop X pos Us Pt pl (st2, score))
     = snd (pieces_loop X pos Us Pt pl (st1, score)).
Proof.
  revert st1 st2 score.
  induction pl as [|s pl IH]; intros st1 st2 score U; cbn [pieces_loop].
  - split; [exact U | reflexivity].
  - destruct (s =? SQ_NONE); [split; [exact U | reflexivity]|].
    destruct (pieces_body_same_view X pos Us Pt s st1 st2 score U) as [V E].
    destruct (pieces_body X pos Us Pt s (st1, score)) as [t1 c1].
    destruct (pieces_body X pos Us Pt s (st2, score)) as [t2 c2].
    cbn [fst snd] in *. subst c2. now apply IH.
Qed.

Lemma pieces_entry_same_view Us Pt st1 st2 :
  same_view Us st1 st2 ->
  same_view Us (pieces_entry Us Pt st1) (pieces_entry Us Pt st2).
Proof.
  intros U. same_view_cases U. unfold same_view, untouched, pieces_entry.
  destruct (PieceType_eqb Pt QUEEN); destruct Us; same_view_solve.
Qed.

Lemma evaluate_pieces_same_view X pos Us Pt st1 st2 :
  same_view Us st1 st2 ->
  same_view Us (fst (evaluate_pieces X pos Us Pt st1))
               (fst (evaluate_pieces X pos Us Pt st2))
  /\ snd (evaluate_pieces X pos Us Pt st2) = snd (evaluate_pieces X pos Us Pt st1).
Proof.
  intros U. unfold evaluate_pieces.
  apply pieces_loop_same_view. now apply pieces_entry_same_view.
Qed.

Lemma evaluate_pieces_KING X pos Us Pt st :
  In Pt piece_types ->
  attackedBy (fst (evaluate_pieces X pos Us Pt st)) Us KING = attackedBy st Us KING.
Proof.
  intros HPt. apply (proj2 (evaluate_pieces_merged X pos Us Pt st HPt));
    try discriminate.
  apply piece_types_cases in HPt. destruct HPt as [->|[->|[->| ->]]]; discriminate.
Qed.

(** The call for the other colour does not change what the call for [Us]
    reads. *)
Lemma other_call_same_view X pos Us Pt st :
  In Pt piece_types ->
  same_view Us st (fst (evaluate_pieces X pos (opp Us) Pt st)).
Proof.
  intros HPt.
  destruct (evaluate_pieces_untouched X pos (opp Us) Pt st) as [U A].
  replace (opp (opp Us)) with Us in U by (now destruct Us).
  split; [exact U|]. split; [apply A|]. split; [apply A|].
  now apply evaluate_pieces_KING.
Qed.

Lemma same_view_sym Us st1 st2 : same_view Us st1 st2 -> same_view Us st2 st1.
Proof.
  intros U. same_view_cases U. unfold same_view, untouched.
  repeat split; intros; congruence.
Qed.

(** X12.  A call of [evaluate_pieces<Us, Pt>] writes no member of the other
    colour (attack maps, double attacks, mobility, attacker count, weight
    and zone count) and leaves the king rings and the mobility areas of both
    colours as they were. *)
Theorem evaluate_pieces_frame X pos Us Pt st :
  let st' := fst (evaluate_pieces X pos Us Pt st) in
  untouched (opp Us) st st' /\ same_areas st st'.
Proof. apply evaluate_pieces_untouched. Qed.

(** X13.  For each of the four piece types the calls of [evaluate_pieces]
    for White and for Black commute: either order leaves every member with
    the same content, and the score that each call returns does not depend on
    whether the other has run. *)
Theorem white_and_black_pieces_commute X pos Pt st :
  In Pt piece_types ->
  let w := evaluate_pieces X pos WHITE Pt st in
  let b := evaluate_pieces X pos BLACK Pt (fst w) in
  let b' := evaluate_pieces X pos BLACK Pt st in
  let w' := evaluate_pieces X pos WHITE Pt (fst b') in
  snd w' = snd w /\ snd b' = snd b /\ state_eq (fst b) (fst w').
Proof.
  intros HPt w b b' w'.
  destruct (evaluate_pieces_same_view X pos WHITE Pt st (fst b')
              (other_call_same_view X pos WHITE Pt st HPt)) as [VW EW].
  destruct (evaluate_pieces_same_view X pos BLACK Pt st (fst w)
              (other_call_same_view X pos BLACK Pt st HPt)) as [VB EB].
  fold w w' in VW, EW. fold b b' in VB, EB.
  destruct (evaluate_pieces_untouched X pos BLACK Pt (fst w)) as [UB AB].
  destruct (evaluate_pieces_untouched X pos WHITE Pt (fst b')) as [UW AW].
  destruct (evaluate_pieces_untouched X pos WHITE Pt st) as [_ Aw].
  destruct (evaluate_pieces_untouched X pos BLACK Pt st) as [_ Ab].
  fold b in UB, AB. fold w' in UW, AW. fold w in Aw. fold b' in Ab.
  cbn [opp] in UB, UW.
  split; [exact EW|]. split; [symmetry; exact EB|]. split.
  - intros [|].
    + apply untouched_trans with (fst w); [|apply VW].
      destruct UB as (B1 & B2 & B3 & B4 & B5 & B6).
      repeat split; intros; congruence.
    + apply untouched_trans with (fst b'); [|exact UW].
      destruct VB as ((B1 & B2 & B3 & B4 & B5 & B6) & _).
      repeat split; intros; congruence.
  - intros c.
    destruct (AB c) as [a1 a2], (AW c) as [a3 a4], (Aw c) as [a5 a6],
             (Ab c) as [a7 a8].
    split; congruence.
Qed.

(** In the bishop ending White's bishop scores the same after Black's
    bishop as before it. *)
Lemma white_and_black_pieces_commute_witness :
  let X := Sample.X_kbp in
  let pos := Sample.pos_kbp CHESS_VARIANT WHITE SCORE_ZERO in
  snd (evaluate_pieces X pos WHITE BISHOP
         (fst (evaluate_pieces X pos BLACK BISHOP Sample.zeroed)))
  = snd (evaluate_pieces X pos WHITE BISHOP Sample.zeroed).
Proof.
  refine (proj1 (white_and_black_pieces_commute Sample.X_kbp
                   (Sample.pos_kbp CHESS_VARIANT WHITE SCORE_ZERO) BISHOP
                   Sample.zeroed _)).
  simpl. tauto.
Defined.

(** ** The piece terms in Anti *)

Lemma pieces_loop_anti X pos Us Pt pl st score :
  is_anti pos = true ->
  snd (pieces_loop X pos Us Pt pl (st, score)) = score.
Proof.
  intros Ha. revert st.
  induction pl as [|s pl IH]; intros st; cbn [pieces_loop]; [reflexivity|].
  destruct (s =? SQ_NONE); [reflexivity|].
  unfold pieces_body. rewrite Ha. cbv zeta. apply IH.
Qed.

Lemma score_add_zero s : s +! (SCORE_ZERO -! SCORE_ZERO) = s.
Proof.
  destruct s as [m e]. unfold score_add, score_sub, SCORE_ZERO.
  cbn [mg_value eg_value]. f_equal; lia.
Qed.

Lemma evaluate_pieces_anti X pos Us Pt st :
  is_anti pos = true -> snd (evaluate_pieces X pos Us Pt st) = SCORE_ZERO.
Proof. intros Ha. unfold evaluate_pieces. now apply pieces_loop_anti. Qed.

(** X14.  In Anti every call of [evaluate_pieces] returns [SCORE_ZERO], so
    the eight calls of [value] leave [score] unchanged: the pieces count
    through [mobility] only. *)
Theorem anti_piece_terms_are_zero X pos st score :
  is_anti pos = true ->
  (forall Us Pt st, snd (evaluate_pieces X pos Us Pt st) = SCORE_ZERO)
  /\ snd (run_pieces X pos st score) = score.
Proof.
  intros Ha. split; [intros; now apply evaluate_pieces_anti|].
  unfold run_pieces. cbv zeta.
  repeat match goal with
         | |- context [let '(_, _) := ?e in _] =>
             let E := fresh "E" in
             pose proof (evaluate_pieces_anti X pos) as E;
             match e with
             | evaluate_pieces _ _ ?c ?pt ?s =>
                 specialize (E c pt s Ha); destruct e; cbn [snd] in E; subst
             end
         end.
  cbn [snd]. now rewrite !score_add_zero.
Qed.

(** The bishop ending as an Anti position: the score (7, 9) comes back
    unchanged. *)
Lemma anti_piece_terms_are_zero_witness :
  snd (run_pieces Sample.X_kbp (Sample.pos_kbp ANTI_VARIANT WHITE SCORE_ZERO)
         Sample.zeroed (make_score 7 9)) = make_score 7 9.
Proof.
  refine (proj2 (anti_piece_terms_are_zero Sample.X_kbp
                   (Sample.pos_kbp ANTI_VARIANT WHITE SCORE_ZERO)
                   Sample.zeroed (make_score 7 9) _)).
  reflexivity.
Defined.

(** ** The mobility area *)

Lemma mobilityArea_initialize X pos Us st c :
  mobilityArea (initialize X pos Us st) c
  = if Color_eqb c Us then
      if is_anti pos then All64
      else bb_not (Z.lor (Z.lor (Z.land (pieces_c_pt pos Us PAWN)
                                        (Z.lor (shift (down_of Us) (pieces pos))
                                               (match Us with
                                                | WHITE => Z.lor Rank2BB Rank3BB
                                                | BLACK => Z.lor Rank7BB Rank6BB
                                                end)))
                                (SquareBB (square_KING pos Us)))
                         (pawn_attacks (pe X pos) (opp Us)))
    else mobilityArea st c.
Proof.
  unfold initialize.
  destruct (king_safety_enabled X pos Us);
    [destruct (relative_rank Us (square_KING pos Us) =? RANK_1)|];
    destruct Us, c; reflexivity.
Qed.

Lemma run_pieces_mobilityArea X pos st score c :
  mobilityArea (fst (run_pieces X pos st score)) c
  = mobilityArea (initialize X pos c st) c.
Proof.
  apply (run_pieces_preserves X pos
           (fun st' => mobilityArea st' c = mobilityArea (initialize X pos c st) c)).
  - intros Us Pt s st0 sc _ H. rewrite <- H.
    apply (proj2 (pieces_body_untouched X pos Us Pt s st0 sc)).
  - intros Us Pt st0 _ H. rewrite <- H.
    apply (proj2 (pieces_entry_untouched Us Pt st0)).
  - rewrite !mobilityArea_initialize. destruct c; reflexivity.
Qed.

(** X15.  After the piece evaluation of [value] the mobility area of [c] is
    the whole board in Anti; in every other variant it holds neither the
    square of the own king, nor a square attacked by an enemy pawn, nor an
    own pawn on the second or third relative rank, nor an own pawn with a
    piece in front of it. *)
Theorem mobility_area_exclusions X pos c st score :
  let area := mobilityArea (fst (run_pieces X pos st score)) c in
  let LowRanks := match c with
                  | WHITE => Z.lor Rank2BB Rank3BB
                  | BLACK => Z.lor Rank7BB Rank6BB
                  end in
  (is_anti pos = true -> area = All64)
  /\ (is_anti pos = false ->
      Z.land area (SquareBB (square_KING pos c)) = 0
      /\ Z.land area (pawn_attacks (pe X pos) (opp c)) = 0
      /\ Z.land area (Z.land (pieces_c_pt pos c PAWN) LowRanks) = 0
      /\ Z.land area (Z.land (pieces_c_pt pos c PAWN)
                             (shift (down_of c) (pieces pos))) = 0).
Proof.
  intros area LowRanks. subst area.
  rewrite run_pieces_mobilityArea, mobilityArea_initialize.
  replace (Color_eqb c c) with true by (now destruct c).
  fold LowRanks.
  split; intros Ha; rewrite Ha; [reflexivity|].
  unfold bb_not.
  set (P := pieces_c_pt pos c PAWN). set (D := shift (down_of c) (pieces pos)).
  set (K := SquareBB (square_KING pos c)).
  set (A := pawn_attacks (pe X pos) (opp c)).
  repeat split; bits.
Qed.

(** ** The sign of the threats *)

Lemma score_nonneg_add a b : score_nonneg a -> score_nonneg b -> score_nonneg (a +! b).
Proof. intros [A1 A2] [B1 B2]. split; cbn [score_add mg_value eg_value]; lia. Qed.

Lemma score_nonneg_mul a i : score_nonneg a -> 0 <= i -> score_nonneg (a *! i).
Proof.
  intros [A1 A2] Hi. split; cbn [score_mul mg_value eg_value];
    apply Z.mul_nonneg_nonneg; assumption.
Qed.

Lemma score_nonneg_div a i : score_nonneg a -> 0 < i -> score_nonneg (a /! i).
Proof.
  intros [A1 A2] Hi. split; cbn [score_div mg_value eg_value]; unfold cdiv;
    apply Z.quot_pos; lia.
Qed.

Lemma score_nonneg_zero : score_nonneg SCORE_ZERO.
Proof. split; cbn; lia. Qed.

Lemma score_nonneg_at1 t i :
  Forall score_nonneg t -> score_nonneg (at1 SCORE_ZERO t i).
Proof.
  intros H. unfold at1. generalize (Z.to_nat i) as n.
  induction H as [|x t Hx Ht IH]; intros [|n]; cbn [nth];
    auto using score_nonneg_zero.
Qed.

Ltac score_table :=
  repeat constructor; cbn; lia.

Lemma squares_pos_ge p i s : In s (squares_pos p i) -> i <= s.
Proof.
  revert i. induction p as [p IH|p IH|]; intros i; cbn [squares_pos In].
  - intros [<-|H]; [lia|]. apply IH in H. lia.
  - intros H. apply IH in H. lia.
  - intros [<-|[]]. lia.
Qed.

Lemma squares_nonneg b s : In s (squares b) -> 0 <= s.
Proof. destruct b; cbn [squares In]; try tauto. apply squares_pos_ge. Qed.

Lemma relative_rank_nonneg c s : 0 <= s -> 0 <= relative_rank c s.
Proof.
  intros Hs. unfold relative_rank, relative_rank_r, rank_of.
  assert (0 <= Z.shiftr s 3) by (apply Z.shiftr_nonneg; lia).
  destruct c; [assumption|]. apply Z.lxor_nonneg. lia.
Qed.

Lemma fold_left_invariant {A B : Type} (P : A -> Prop) (f : A -> B -> A) l a :
  (forall a b, In b l -> P a -> P (f a b)) -> P a -> P (fold_left f l a).
Proof.
  revert a. induction l as [|b l IH]; intros a Hf Ha; cbn [fold_left]; [exact Ha|].
  apply IH; [intros; apply Hf; [right|]; assumption|].
  apply Hf; [now left | exact Ha].
Qed.

Lemma threat_by_nonneg pos Table Us b score :
  Forall score_nonneg Table -> score_nonneg score ->
  score_nonneg (threat_by pos Table Us b score).
Proof.
  intros HT Hs. unfold threat_by.
  apply fold_left_invariant; [|exact Hs].
  intros sc s Hin Hsc. cbv zeta.
  assert (H1 : score_nonneg
                 (sc +! at1 SCORE_ZERO Table
                          (PieceType_idx (type_of (piece_on pos s)))))
    by (apply score_nonneg_add; [exact Hsc | now apply score_nonneg_at1]).
  destruct (negb _); [|exact H1].
  apply score_nonneg_add; [exact H1|].
  apply score_nonneg_mul; [split; cbn; lia|].
  apply relative_rank_nonneg. eapply squares_nonneg; eassumption.
Qed.

Lemma horde_wall_min_nonneg pos Us st : 0 <= horde_wall_min pos Us st.
Proof.
  unfold horde_wall_min. destruct (nz _); [lia|].
  apply fold_left_invariant; [|lia].
  intros m f _ Hm. cbv zeta.
  pose proof (popcount_ge0 (Z.land (pieces_c_pt pos (opp Us) PAWN) (file_bb f))).
  pose proof (popcount_ge0 (Z.land (pieces_c_pt pos (opp Us) PAWN) (FileBB (f - 1)))).
  pose proof (popcount_ge0 (Z.land (pieces_c_pt pos (opp Us) PAWN) (FileBB (f + 1)))).
  destruct (FILE_A <? f); destruct (f <? FILE_H); lia.
Qed.

Lemma standard_threats_nonneg X pos Us st :
  0 <= weak_unopposed (pe X pos) (opp Us) ->
  0 <= count pos PAWN (opp Us) ->
  score_nonneg (standard_threats X pos Us st).
Proof.
  intros Hw Hc. unfold standard_threats. cbv zeta.
  repeat match goal with
         | |- score_nonneg (_ +! _) => apply score_nonneg_add
         | |- score_nonneg (_ *! _) => apply score_nonneg_mul
         | |- score_nonneg (_ /! _) => apply score_nonneg_div
         | |- score_nonneg (threat_by _ _ _ _ _) => apply threat_by_nonneg
         | |- score_nonneg (at1 SCORE_ZERO _ _) => apply score_nonneg_at1
         | |- score_nonneg (if ?b then _ else _) => destruct b
         | |- score_nonneg SCORE_ZERO => apply score_nonneg_zero
         | |- 0 <= popcount _ => apply popcount_ge0
         | |- Forall score_nonneg _ => score_table
         | |- score_nonneg (make_score _ _) => split; cbn; lia
         | |- score_nonneg ?c => is_const c; split; cbn; lia
         | |- 0 < 1 + horde_wall_min _ _ _ =>
             pose proof (horde_wall_min_nonneg pos Us st); lia
         | |- 0 < (if ?b then _ else _) => destruct b; lia
         | |- 0 <= _ => assumption
         end.
Qed.

(** X16.  Outside Anti and Losers, with non-negative counts of the enemy's
    pawns and of the enemy's weak unopposed pawns, neither half of
    [evaluate_threats<Us>] is negative, and in Atomic the function returns
    [SCORE_ZERO]: every term of the standard branch is a bonus. *)
Theorem threats_are_a_bonus X pos Us st :
  0 <= weak_unopposed (pe X pos) (opp Us) ->
  0 <= count pos PAWN (opp Us) ->
  is_anti pos = false -> is_losers pos = false ->
  0 <= mg_value (evaluate_threats X pos Us st)
  /\ 0 <= eg_value (evaluate_threats X pos Us st)
  /\ (is_atomic pos = true -> evaluate_threats X pos Us st = SCORE_ZERO).
Proof.
  intros Hw Hc Ha Hl. unfold evaluate_threats. rewrite Ha, Hl.
  destruct (is_atomic pos).
  - split; [|split]; [apply score_nonneg_zero | apply score_nonneg_zero
                     | reflexivity].
  - destruct (standard_threats_nonneg X pos Us st Hw Hc) as [H1 H2].
    split; [exact H1|]. split; [exact H2|]. discriminate.
Qed.

(** The Horde position after the piece evaluation: Black's threats against
    the white pawns are worth (238, 176). *)
Lemma threats_are_a_bonus_witness :
  let X := Sample.X_horde in
  let pos := Sample.pos_horde in
  let st := fst (run_pieces X pos (Evaluation_ctor Sample.zeroed) (seed_score X pos)) in
  evaluate_threats X pos BLACK st = make_score 238 176
  /\ 0 <= mg_value (evaluate_threats X pos BLACK st)
  /\ 0 <= eg_value (evaluate_threats X pos BLACK st).
Proof.
  intros X pos st. split; [vm_compute; reflexivity|].
  destruct (threats_are_a_bonus X pos BLACK st) as (H1 & H2 & _);
    [vm_compute; discriminate | vm_compute; discriminate
    | reflexivity | reflexivity |].
  split; [exact H1 | exact H2].
Defined.

(** ** The side to move *)

Section SideToMove.

Variable X : Extern.
Variable pos : Position.
Variable c : Color.

Local Abbreviation pos' := (with_side_to_move pos c).

Hypothesis Hm : Material_probe X pos' = Material_probe X pos.
Hypothesis Hp : Pawns_probe X pos' = Pawns_probe X pos.
Hypothesis Hh : is_house pos = false.

Lemma me_stm : me X pos' = me X pos.
Proof. exact Hm. Qed.

Lemma pe_stm : pe X pos' = pe X pos.
Proof. exact Hp. Qed.

Lemma all_king_attacks_stm Us : all_king_attacks pos' Us = all_king_attacks pos Us.
Proof. reflexivity. Qed.

Lemma king_safety_enabled_stm Us :
  king_safety_enabled X pos' Us = king_safety_enabled X pos Us.
Proof. reflexivity. Qed.

Lemma initialize_stm Us st : initialize X pos' Us st = initialize X pos Us st.
Proof.
  unfold initialize. rewrite pe_stm, king_safety_enabled_stm. reflexivity.
Qed.

Lemma piece_attacks_stm Us Pt s :
  piece_attacks X pos' Us Pt s = piece_attacks X pos Us Pt s.
Proof. reflexivity. Qed.

Lemma king_ring_pressure_stm Us Pt b st :
  king_ring_pressure pos' Us Pt b st = king_ring_pressure pos Us Pt b st.
Proof. reflexivity. Qed.

Lemma minor_terms_stm Us Pt s b st score :
  minor_terms X pos' Us Pt s b st score = minor_terms X pos Us Pt s b st score.
Proof. unfold minor_terms. rewrite pe_stm. reflexivity. Qed.

Lemma rook_terms_stm Us s mob score :
  rook_terms X pos' Us s mob score = rook_terms X pos Us s mob score.
Proof. unfold rook_terms. rewrite pe_stm. reflexivity. Qed.

Lemma queen_terms_stm Us s score :
  queen_terms pos' Us s score = queen_terms pos Us s score.
Proof. reflexivity. Qed.

Lemma pieces_body_stm Us Pt s acc :
  pieces_body X pos' Us Pt s acc = pieces_body X pos Us Pt s acc.
Proof.
  unfold pieces_body. destruct acc as [st score].
  rewrite piece_attacks_stm, king_ring_pressure_stm.
  cbv zeta.
  rewrite minor_terms_stm, rook_terms_stm, queen_terms_stm.
  reflexivity.
Qed.

Lemma pieces_loop_stm Us Pt pl acc :
  pieces_loop X pos' Us Pt pl acc = pieces_loop X pos Us Pt pl acc.
Proof.
  revert acc. induction pl as [|s pl IH]; intros acc; cbn [pieces_loop];
    [reflexivity|].
  destruct (s =? SQ_NONE); [reflexivity|].
  rewrite pieces_body_stm. apply IH.
Qed.

Lemma evaluate_pieces_stm Us Pt st :
  evaluate_pieces X pos' Us Pt st = evaluate_pieces X pos Us Pt st.
Proof. unfold evaluate_pieces. rewrite pieces_loop_stm. reflexivity. Qed.

Lemma run_pieces_stm st score :
  run_pieces X pos' st score = run_pieces X pos st score.
Proof.
  unfold run_pieces. rewrite !initialize_stm. cbv zeta.
  repeat (rewrite evaluate_pieces_stm;
          match goal with
          | |- context [let '(_, _) := ?e in _] => destruct e
          end).
  reflexivity.
Qed.

Lemma king_danger_active_stm Us st :
  king_danger_active pos' Us st = king_danger_active pos Us st.
Proof. reflexivity. Qed.

Lemma king_weak_stm Us st : king_weak pos' Us st = king_weak pos Us st.
Proof. reflexivity. Qed.

Lemma hand_squares_stm Us pt : hand_squares pos' Us pt = hand_squares pos Us pt.
Proof. reflexivity. Qed.

Lemma safe_check_stm Us st pt penalty line safe dropSafe acc :
  safe_check pos' Us st pt penalty line safe dropSafe acc
  = safe_check pos Us st pt penalty line safe dropSafe acc.
Proof. reflexivity. Qed.

Lemma king_checks_stm Us st weak :
  king_checks X pos' Us st weak = king_checks X pos Us st weak.
Proof. unfold king_checks. rewrite !safe_check_stm. reflexivity. Qed.

Lemma is_house_stm : is_house pos' = false.
Proof. exact Hh. Qed.

Lemma king_danger_block_stm Us st score :
  king_danger_block X pos' Us st score = king_danger_block X pos Us st score.
Proof.
  unfold king_danger_block.
  rewrite king_weak_stm, king_checks_stm.
  destruct (king_checks X pos Us st (king_weak pos Us st)) as [kd uc].
  rewrite is_house_stm, Hh. reflexivity.
Qed.

Lemma king_tropism_stm Us st score :
  king_tropism pos' Us st score = king_tropism pos Us st score.
Proof. reflexivity. Qed.

Lemma evaluate_king_stm Us st :
  evaluate_king X pos' Us st = evaluate_king X pos Us st.
Proof.
  unfold evaluate_king.
  rewrite pe_stm, king_danger_active_stm, king_danger_block_stm, king_tropism_stm.
  reflexivity.
Qed.

Lemma king_race_score_stm Us st :
  king_race_score X pos' Us st = king_race_score X pos Us st.
Proof. reflexivity. Qed.

Lemma koth_score_stm Us score : koth_score pos' Us score = koth_score pos Us score.
Proof. reflexivity. Qed.

Lemma passer_king_proximity_stm Us rr blockSq ebonus :
  passer_king_proximity pos' Us rr blockSq ebonus
  = passer_king_proximity pos Us rr blockSq ebonus.
Proof. reflexivity. Qed.

Lemma passer_free_k_stm Us st s blockSq :
  passer_free_k X pos' Us st s blockSq = passer_free_k X pos Us st s blockSq.
Proof. reflexivity. Qed.

Lemma passer_bonus_stm Us st s :
  passer_bonus X pos' Us st s = passer_bonus X pos Us st s.
Proof.
  unfold passer_bonus.
  rewrite passer_king_proximity_stm, passer_free_k_stm. reflexivity.
Qed.

Lemma passer_scaled_down_stm Us s :
  passer_scaled_down X pos' Us s = passer_scaled_down X pos Us s.
Proof. reflexivity. Qed.

Lemma passer_final_bonus_stm Us st s :
  passer_final_bonus X pos' Us st s = passer_final_bonus X pos Us st s.
Proof.
  unfold passer_final_bonus.
  rewrite passer_bonus_stm, passer_scaled_down_stm. reflexivity.
Qed.

Lemma passed_pawn_body_stm Us st score s :
  passed_pawn_body X pos' Us st score s = passed_pawn_body X pos Us st score s.
Proof.
  unfold passed_pawn_body. rewrite passer_final_bonus_stm. reflexivity.
Qed.

Lemma fold_left_ext {A B : Type} (f g : A -> B -> A) l a :
  (forall a b, f a b = g a b) -> fold_left f l a = fold_left g l a.
Proof.
  intros H. revert a. induction l as [|b l IH]; intros a; cbn [fold_left];
    [reflexivity|].
  rewrite H. apply IH.
Qed.

Lemma evaluate_passed_pawns_stm Us st :
  evaluate_passed_pawns X pos' Us st = evaluate_passed_pawns X pos Us st.
Proof.
  unfold evaluate_passed_pawns.
  rewrite king_race_score_stm, koth_score_stm, pe_stm.
  rewrite (fold_left_ext _ _ _ _ (passed_pawn_body_stm Us st)).
  reflexivity.
Qed.

Lemma evaluate_space_stm Us st :
  evaluate_space X pos' Us st = evaluate_space X pos Us st.
Proof. unfold evaluate_space. rewrite pe_stm. reflexivity. Qed.

Lemma initiative_bonus_stm : initiative_bonus X pos' = initiative_bonus X pos.
Proof. unfold initiative_bonus. rewrite pe_stm. reflexivity. Qed.

Lemma evaluate_initiative_stm eg :
  evaluate_initiative X pos' eg = evaluate_initiative X pos eg.
Proof. unfold evaluate_initiative. rewrite initiative_bonus_stm. reflexivity. Qed.

Lemma drawish_scale_factor_stm eg strongSide sf :
  drawish_scale_factor X pos' eg strongSide sf
  = drawish_scale_factor X pos eg strongSide sf.
Proof. reflexivity. Qed.

Lemma evaluate_scale_factor_stm eg :
  evaluate_scale_factor X pos' eg = evaluate_scale_factor X pos eg.
Proof.
  unfold evaluate_scale_factor.
  rewrite me_stm, drawish_scale_factor_stm. reflexivity.
Qed.

Lemma forced_capture_threats_stm Attacks Threats pieceCount Us st :
  forced_capture_threats pos' Attacks Threats pieceCount Us st
  = forced_capture_threats pos Attacks Threats pieceCount Us st.
Proof. reflexivity. Qed.

Lemma threat_by_stm Table Us b score :
  threat_by pos' Table Us b score = threat_by pos Table Us b score.
Proof. reflexivity. Qed.

Lemma horde_wall_min_stm Us st : horde_wall_min pos' Us st = horde_wall_min pos Us st.
Proof. reflexivity. Qed.

Lemma standard_threats_stm Us st :
  standard_threats X pos' Us st = standard_threats X pos Us st.
Proof.
  unfold standard_threats.
  rewrite pe_stm, !threat_by_stm, horde_wall_min_stm. reflexivity.
Qed.

Lemma evaluate_threats_stm Us st :
  evaluate_threats X pos' Us st = evaluate_threats X pos Us st.
Proof.
  unfold evaluate_threats.
  rewrite !forced_capture_threats_stm, standard_threats_stm. reflexivity.
Qed.

Lemma seed_score_stm : seed_score X pos' = seed_score X pos.
Proof. unfold seed_score. rewrite me_stm, pe_stm. reflexivity. Qed.

Lemma main_score_stm st score :
  main_score X pos' st score = main_score X pos st score.
Proof.
  unfold main_score. rewrite run_pieces_stm.
  destruct (run_pieces X pos st score) as [st1 sc1].
  rewrite !evaluate_king_stm, !evaluate_threats_stm, !evaluate_passed_pawns_stm,
    !evaluate_space_stm.
  cbv zeta. rewrite evaluate_initiative_stm. reflexivity.
Qed.

Lemma blend_stm score : blend X pos' score = blend X pos score.
Proof.
  unfold blend. rewrite evaluate_scale_factor_stm, me_stm. reflexivity.
Qed.

End SideToMove.

(** X17.  Outside Crazyhouse, for a position that is not a variant end and
    has no specialised evaluation, changing the side to move and nothing else
    (same answers of the position and of the two hash tables) negates
    [value] and keeps the [return] statement taken: the side to move is read
    for the final sign only. *)
Theorem value_flips_with_side_to_move X pos garbage :
  let pos' := with_side_to_move pos (opp (side_to_move pos)) in
  Material_probe X pos' = Material_probe X pos ->
  Pawns_probe X pos' = Pawns_probe X pos ->
  is_house pos = false ->
  is_variant_end pos = false ->
  specialized_eval_exists (me X pos) = false ->
  value X pos' garbage = - value X pos garbage
  /\ fst (value_exit X pos' garbage) = fst (value_exit X pos garbage).
Proof.
  intros pos' Hm Hp Hh Hve Hsp. subst pos'.
  set (c := opp (side_to_move pos)) in *.
  unfold value, value_exit.
  change (is_variant_end (with_side_to_move pos c)) with (is_variant_end pos).
  rewrite Hve.
  rewrite (me_stm X pos c Hm), Hsp.
  rewrite seed_score_stm, main_score_stm, blend_stm by assumption.
  change (variant (with_side_to_move pos c)) with (variant pos).
  change (side_to_move (with_side_to_move pos c)) with c.
  cbv zeta. subst c.
  destruct (Variant_eqb (variant pos) CHESS_VARIANT && _); cbn [fst snd];
    (split; [|reflexivity]); destruct (side_to_move pos); cbn [opp Color_eqb]; lia.
Qed.

(** The bishop ending with a PSQ score of (400, 600): 209 with White to
    move and -209 with Black to move. *)
Lemma value_flips_with_side_to_move_witness :
  let X := Sample.X_kbp in
  let pos := Sample.pos_kbp CHESS_VARIANT WHITE (make_score 400 600) in
  value X pos Sample.zeroed = 209
  /\ value X (with_side_to_move pos BLACK) Sample.zeroed = -209.
Proof.
  intros X pos.
  assert (H : value X (with_side_to_move pos BLACK) Sample.zeroed
              = - value X pos Sample.zeroed)
    by (refine (proj1 (value_flips_with_side_to_move X pos Sample.zeroed
                         _ _ _ _ _)); reflexivity).
  assert (H0 : value X pos Sample.zeroed = 209) by (vm_compute; reflexivity).
  split; [exact H0|]. rewrite H, H0. reflexivity.
Defined.

(** ** The members the constructor leaves uninitialised *)

Ltac same_known_cases U :=
  destruct U as (K1 & K2 & K3 & K4 & K5 & K6 & K7).

(** What [initialize<Us>] writes does not depend on the state it finds. *)
Lemma initialize_determined X pos Us st1 st2 :
  (forall pt, seeded Us pt ->
     attackedBy (initialize X pos Us st2) Us pt
     = attackedBy (initialize X pos Us st1) Us pt)
  /\ attackedBy2 (initialize X pos Us st2) Us = attackedBy2 (initialize X pos Us st1) Us
  /\ mobilityArea (initialize X pos Us st2) Us
     = mobilityArea (initialize X pos Us st1) Us
  /\ kingRing (initialize X pos Us st2) Us = kingRing (initialize X pos Us st1) Us
  /\ kingAttackersCount (initialize X pos Us st2) (opp Us)
     = kingAttackersCount (initialize X pos Us st1) (opp Us)
  /\ (king_safety_enabled X pos Us = true ->
      kingAttackersWeight (initialize X pos Us st2) (opp Us)
      = kingAttackersWeight (initialize X pos Us st1) (opp Us)
      /\ kingAdjacentZoneAttacksCount (initialize X pos Us st2) (opp Us)
         = kingAdjacentZoneAttacksCount (initialize X pos Us st1) (opp Us)).
Proof.
  unfold seeded, initialize.
  destruct (king_safety_enabled X pos Us);
    [destruct (relative_rank Us (square_KING pos Us) =? RANK_1)|];
    destruct Us;
    (split; [intros pt [-> |[-> | ->]]; reflexivity|]);
    do 4 (split; [reflexivity|]);
    intros E; try discriminate E; split; reflexivity.
Qed.

(** What [initialize<Us>] leaves alone. *)
Lemma initialize_frame X pos Us st :
  (forall c pt, c <> Us ->
     attackedBy (initialize X pos Us st) c pt = attackedBy st c pt)
  /\ (forall c, c <> Us -> attackedBy2 (initialize X pos Us st) c = attackedBy2 st c)
  /\ (forall c, mobility (initialize X pos Us st) c = mobility st c)
  /\ (forall c, c <> Us ->
        mobilityArea (initialize X pos Us st) c = mobilityArea st c)
  /\ (forall c, c <> Us -> kingRing (initialize X pos Us st) c = kingRing st c)
  /\ (forall c, c <> opp Us ->
        kingAttackersCount (initialize X pos Us st) c = kingAttackersCount st c)
  /\ (forall c, c <> opp Us ->
        kingAttackersWeight (initialize X pos Us st) c = kingAttackersWeight st c
        /\ kingAdjacentZoneAttacksCount (initialize X pos Us st) c
           = kingAdjacentZoneAttacksCount st c).
Proof.
  unfold initialize.
  destruct (king_safety_enabled X pos Us);
    [destruct (relative_rank Us (square_KING pos Us) =? RANK_1)|];
    destruct Us;
    do 6 (split; [intros [|]; intros; cbn [opp] in *; try congruence;
                  reflexivity|]);
    intros [|]; intros; cbn [opp] in *; try congruence; split; reflexivity.
Qed.

Lemma initialize_same_known X pos st1 st2 :
  (forall c, mobility st2 c = mobility st1 c) ->
  same_known (king_safety_enabled X pos) seeded
    (initialize X pos BLACK (initialize X pos WHITE st1))
    (initialize X pos BLACK (initialize X pos WHITE st2)).
Proof.
  intros Hmob.
  destruct (initialize_determined X pos WHITE st1 st2)
    as (W1 & W2 & W3 & W4 & W5 & W6).
  destruct (initialize_determined X pos BLACK (initialize X pos WHITE st1)
              (initialize X pos WHITE st2)) as (B1 & B2 & B3 & B4 & B5 & B6).
  destruct (initialize_frame X pos WHITE st1) as (_ & _ & M1 & _).
  destruct (initialize_frame X pos WHITE st2) as (_ & _ & M2 & _).
  destruct (initialize_frame X pos BLACK (initialize X pos WHITE st1))
    as (F1 & F2 & F3 & F4 & F5 & F6 & F7).
  destruct (initialize_frame X pos BLACK (initialize X pos WHITE st2))
    as (G1 & G2 & G3 & G4 & G5 & G6 & G7).
  cbn [opp] in *.
  assert (HWB : WHITE <> BLACK) by discriminate.
  assert (HBW : BLACK <> WHITE) by discriminate.
  unfold same_known. repeat split.
  - intros [|] pt Hpt.
    + rewrite F1, G1 by assumption. now apply W1.
    + now apply B1.
  - intros [|]; [rewrite F2, G2 by assumption|]; assumption.
  - intros c. now rewrite F3, G3, M1, M2.
  - intros [|]; [rewrite F4, G4 by assumption|]; assumption.
  - intros [|]; [rewrite F5, G5 by assumption|]; assumption.
  - intros [|]; [|rewrite F6, G6 by assumption]; assumption.
  - destruct c; cbn [opp] in *.
    + now apply B6.
    + rewrite (proj1 (F7 BLACK HBW)), (proj1 (G7 BLACK HBW)). now apply W6.
  - destruct c; cbn [opp] in *.
    + now apply B6.
    + rewrite (proj2 (F7 BLACK HBW)), (proj2 (G7 BLACK HBW)). now apply W6.
Qed.

Ltac split_ifs :=
  repeat match goal with
         | |- context [if ?b then _ else _] => destruct b
         end.

Ltac known_fields :=
  cbn [attackedBy attackedBy2 mobility mobilityArea kingRing kingAttackersCount
       kingAttackersWeight kingAdjacentZoneAttacksCount
       set_attackedBy set_attackedBy2 set_mobility set_mobilityArea set_kingRing
       set_kingAttackersCount set_kingAttackersWeight
       set_kingAdjacentZoneAttacksCount];
  unfold upd, upd2.

Lemma pieces_entry_same_known en P Us Pt st1 st2 :
  same_known en P st1 st2 ->
  same_known en (with_slot P Us Pt) (pieces_entry Us Pt st1) (pieces_entry Us Pt st2).
Proof.
  intros U. same_known_cases U. unfold pieces_entry, with_slot, same_known.
  destruct (PieceType_eqb Pt QUEEN) eqn:EQ; known_fields;
    (split; [|repeat split; intros; auto; now apply K7]);
    intros c pt [HP|[-> [-> |[-> ->]]]];
    try (split_ifs; try reflexivity; now apply K1);
    try (destruct Us, Pt; try discriminate EQ; reflexivity);
    try (destruct Us; try discriminate EQ; reflexivity).
Qed.

Lemma merge_attacks_same_known X en P Us Pt s b st1 st2 :
  same_known en P st1 st2 ->
  P Us Pt -> P Us ALL_PIECES -> (Pt = QUEEN -> P Us QUEEN_DIAGONAL) ->
  same_known en P (merge_attacks X Us Pt s b st1) (merge_attacks X Us Pt s b st2).
Proof.
  intros U HPt HALL HQD. same_known_cases U.
  pose proof (K1 _ _ HPt) as EPt. pose proof (K1 _ _ HALL) as EALL.
  unfold merge_attacks, same_known.
  destruct (PieceType_eqb Pt QUEEN) eqn:EQ.
  - apply PieceType_eqb_eq in EQ. pose proof (K1 _ _ (HQD EQ)) as EQD.
    known_fields.
    split; [|repeat split; intros; split_ifs; rewrite ?EALL, ?K2; auto;
             now apply K7].
    intros c pt HP. split_ifs; rewrite ?EPt, ?EALL, ?EQD, ?K2; auto.
  - known_fields.
    split; [|repeat split; intros; split_ifs; rewrite ?EALL, ?K2; auto;
             now apply K7].
    intros c pt HP. split_ifs; rewrite ?EPt, ?EALL, ?K2; auto.
Qed.

Lemma king_ring_pressure_same_known pos en P Us Pt b st1 st2 :
  same_known en P st1 st2 ->
  P (opp Us) KING ->
  same_known en P (king_ring_pressure pos Us Pt b st1)
                  (king_ring_pressure pos Us Pt b st2).
Proof.
  intros U HK. pose proof U as U'. same_known_cases U.
  pose proof (K1 _ _ HK) as EK.
  unfold king_ring_pressure. rewrite K5.
  destruct (nz (Z.land b (kingRing st1 (opp Us)))); [|exact U'].
  unfold same_known. known_fields.
  do 5 (split; [intros; auto|]).
  split.
  - intros c. split_ifs; rewrite ?K6; reflexivity.
  - intros c E. destruct (K7 c E) as [E1 E2].
    destruct Us, c; cbn [Color_eqb opp] in *;
      try (destruct (K7 WHITE E) as [E3 E4]);
      try (destruct (K7 BLACK E) as [E5 E6]);
      rewrite ?E1, ?E2, ?EK; split; reflexivity.
Qed.

Lemma set_mobility_same_known en P Us v st1 st2 :
  same_known en P st1 st2 ->
  same_known en P (set_mobility st1 Us v) (set_mobility st2 Us v).
Proof.
  intros U. same_known_cases U. unfold same_known. known_fields.
  do 2 (split; [intros; auto|]).
  split; [intros c; split_ifs; auto|].
  repeat split; intros; auto; now apply K7.
Qed.

Lemma pieces_body_same_known X pos P Us Pt s st1 st2 score :
  same_known (king_safety_enabled X pos) P st1 st2 ->
  P Us Pt -> P Us ALL_PIECES -> P Us PAWN -> P (opp Us) KING ->
  (Pt = QUEEN -> P Us QUEEN_DIAGONAL) ->
  same_known (king_safety_enabled X pos) P
    (fst (pieces_body X pos Us Pt s (st1, score)))
    (fst (pieces_body X pos Us Pt s (st2, score)))
  /\ snd (pieces_body X pos Us Pt s (st2, score))
     = snd (pieces_body X pos Us Pt s (st1, score)).
Proof.
  intros U HPt HALL HPAWN HK HQD.
  pose proof (king_ring_pressure_same_known pos _ P Us Pt
                (piece_attacks X pos Us Pt s) _ _
                (merge_attacks_same_known X _ P Us Pt s
                   (piece_attacks X pos Us Pt s) _ _ U HPt HALL HQD) HK) as V.
  split.
  - rewrite !fst_pieces_body. cbv zeta.
    pose proof V as V'. same_known_cases V'. rewrite K3, K4.
    now apply set_mobility_same_known.
  - unfold pieces_body.
    set (k1 := king_ring_pressure pos Us Pt _ (merge_attacks X Us Pt s _ st1)) in *.
    set (k2 := king_ring_pressure pos Us Pt _ (merge_attacks X Us Pt s _ st2)) in *.
    pose proof V as V'. same_known_cases V'. rewrite K3, K4.
    destruct (is_anti pos); [reflexivity|]. cbn [snd].
    unfold minor_terms. known_fields. rewrite (K1 _ _ HPAWN). reflexivity.
Qed.

Lemma pieces_loop_same_known X pos P Us Pt pl st1 st2 score :
  same_known (king_safety_enabled X pos) P st1 st2 ->
  P Us Pt -> P Us ALL_PIECES -> P Us PAWN -> P (opp Us) KING ->
  (Pt = QUEEN -> P Us QUEEN_DIAGONAL) ->
  same_known (king_safety_enabled X pos) P
    (fst (pieces_loop X pos Us Pt pl (st1, score)))
    (fst (pieces_loop X pos Us Pt pl (st2, score)))
  /\ snd (pieces_loop X pos Us Pt pl (st2, score))
     = snd (pieces_loop X pos Us Pt pl (st1, score)).
Proof.
  intros U HPt HALL HPAWN HK HQD. revert st1 st2 score U.
  induction pl as [|s pl IH]; intros st1 st2 score U; cbn [pieces_loop].
  - split; [exact U | reflexivity].
  - destruct (s =? SQ_NONE); [split; [exact U | reflexivity]|].
    destruct (pieces_body_same_known X pos P Us Pt s st1 st2 score
                U HPt HALL HPAWN HK HQD) as [V E].
    destruct (pieces_body X pos Us Pt s (st1, score)) as [t1 c1].
    destruct (pieces_body X pos Us Pt s (st2, score)) as [t2 c2].
    cbn [fst snd] in *. subst c2. now apply IH.
Qed.

Lemma evaluate_pieces_same_known X pos P Us Pt st1 st2 :
  same_known (king_safety_enabled X pos) P st1 st2 ->
  P Us ALL_PIECES -> P Us PAWN -> P (opp Us) KING ->
  same_known (king_safety_enabled X pos) (with_slot P Us Pt)
    (fst (evaluate_pieces X pos Us Pt st1))
    (fst (evaluate_pieces X pos Us Pt st2))
  /\ snd (evaluate_pieces X pos Us Pt st2) = snd (evaluate_pieces X pos Us Pt st1).
Proof.
  intros U HALL HPAWN HK. unfold evaluate_pieces.
  apply pieces_loop_same_known.
  - now apply pieces_entry_same_known.
  - right. auto.
  - now left.
  - now left.
  - now left.
  - intros ->. right. auto.
Qed.

Lemma same_known_weaken en (P Q : Color -> PieceType -> Prop) st1 st2 :
  (forall c pt, Q c pt -> P c pt) ->
  same_known en P st1 st2 -> same_known en Q st1 st2.
Proof.
  intros H U. same_known_cases U. unfold same_known.
  repeat split; intros; auto; now apply K7.
Qed.

Ltac known_step U Us Pt :=
  match goal with
  | |- context [evaluate_pieces ?X ?pos Us Pt ?s2] =>
      match type of U with
      | same_known _ ?P ?s1 s2 =>
          let U' := fresh "U" in
          let E := fresh "E" in
          destruct (evaluate_pieces_same_known X pos P Us Pt s1 s2 U) as [U' E];
          [unfold with_slot, seeded; tauto ..|];
          destruct (evaluate_pieces X pos Us Pt s1);
          destruct (evaluate_pieces X pos Us Pt s2);
          cbn [fst snd] in U', E; subst; clear U
      end
  end.

Lemma run_pieces_same_known X pos st1 st2 score :
  (forall c, mobility st2 c = mobility st1 c) ->
  same_known (king_safety_enabled X pos) (fun _ _ => True)
    (fst (run_pieces X pos st1 score)) (fst (run_pieces X pos st2 score))
  /\ snd (run_pieces X pos st2 score) = snd (run_pieces X pos st1 score).
Proof.
  intros Hmob. pose proof (initialize_same_known X pos st1 st2 Hmob) as U.
  unfold run_pieces. cbv zeta.
  known_step U WHITE KNIGHT. known_step U0 BLACK KNIGHT.
  known_step U WHITE BISHOP. known_step U0 BLACK BISHOP.
  known_step U WHITE ROOK. known_step U0 BLACK ROOK.
  known_step U WHITE QUEEN. known_step U0 BLACK QUEEN.
  cbn [fst snd]. split; [|reflexivity].
  revert U. apply same_known_weaken.
  intros c pt _. unfold with_slot, seeded. destruct c, pt; tauto.
Qed.

(** The evaluation terms read the members through the cells on which two
    runs agree. *)
Section Known.

Variable X : Extern.
Variable pos : Position.
Variables st1 st2 : EvalState.

Hypothesis A : forall c pt, attackedBy st2 c pt = attackedBy st1 c pt.
Hypothesis A2 : forall c, attackedBy2 st2 c = attackedBy2 st1 c.
Hypothesis MA : forall c, mobilityArea st2 c = mobilityArea st1 c.
Hypothesis KR : forall c, kingRing st2 c = kingRing st1 c.
Hypothesis KC : forall c, kingAttackersCount st2 c = kingAttackersCount st1 c.

Lemma evaluate_space_known Us :
  evaluate_space X pos Us st2 = evaluate_space X pos Us st1.
Proof. unfold evaluate_space. rewrite !A. reflexivity. Qed.

Lemma king_weak_known Us : king_weak pos Us st2 = king_weak pos Us st1.
Proof. unfold king_weak. rewrite !A, !A2. reflexivity. Qed.

Lemma safe_check_known Us pt penalty line safe dropSafe acc :
  safe_check pos Us st2 pt penalty line safe dropSafe acc
  = safe_check pos Us st1 pt penalty line safe dropSafe acc.
Proof. unfold safe_check. rewrite !A. reflexivity. Qed.

Lemma king_checks_known Us weak :
  king_checks X pos Us st2 weak = king_checks X pos Us st1 weak.
Proof.
  unfold king_checks. rewrite !safe_check_known, !A, !A2, !MA. reflexivity.
Qed.

Lemma king_danger_active_known Us :
  king_danger_active pos Us st2 = king_danger_active pos Us st1.
Proof. unfold king_danger_active. rewrite KC. reflexivity. Qed.

Lemma king_danger_block_known Us score :
  kingAttackersWeight st2 (opp Us) = kingAttackersWeight st1 (opp Us) ->
  kingAdjacentZoneAttacksCount st2 (opp Us)
  = kingAdjacentZoneAttacksCount st1 (opp Us) ->
  king_danger_block X pos Us st2 score = king_danger_block X pos Us st1 score.
Proof.
  intros W Z. unfold king_danger_block.
  rewrite king_weak_known, king_checks_known, !A, !KR, !KC, W, Z.
  reflexivity.
Qed.

Lemma king_tropism_known Us score :
  king_tropism pos Us st2 score = king_tropism pos Us st1 score.
Proof.
  unfold king_tropism, king_flank_attacks. rewrite !A, !A2. reflexivity.
Qed.

Lemma evaluate_king_known Us :
  (king_danger_active pos Us st1 = true ->
   kingAttackersWeight st2 (opp Us) = kingAttackersWeight st1 (opp Us)
   /\ kingAdjacentZoneAttacksCount st2 (opp Us)
      = kingAdjacentZoneAttacksCount st1 (opp Us)) ->
  evaluate_king X pos Us st2 = evaluate_king X pos Us st1.
Proof.
  intros W. unfold evaluate_king.
  rewrite king_danger_active_known, !king_tropism_known.
  destruct (king_danger_active pos Us st1); [|reflexivity].
  destruct (W eq_refl) as [W1 W2].
  now rewrite king_danger_block_known.
Qed.

Lemma king_race_score_known Us :
  king_race_score X pos Us st2 = king_race_score X pos Us st1.
Proof. unfold king_race_score. rewrite !A. reflexivity. Qed.

Lemma passer_free_k_known Us s blockSq :
  passer_free_k X pos Us st2 s blockSq = passer_free_k X pos Us st1 s blockSq.
Proof. unfold passer_free_k. rewrite !A. reflexivity. Qed.

Lemma passer_bonus_known Us s :
  passer_bonus X pos Us st2 s = passer_bonus X pos Us st1 s.
Proof. unfold passer_bonus. rewrite passer_free_k_known. reflexivity. Qed.

Lemma passer_final_bonus_known Us s :
  passer_final_bonus X pos Us st2 s = passer_final_bonus X pos Us st1 s.
Proof. unfold passer_final_bonus. rewrite passer_bonus_known. reflexivity. Qed.

Lemma passed_pawn_body_known Us score s :
  passed_pawn_body X pos Us st2 score s = passed_pawn_body X pos Us st1 score s.
Proof.
  unfold passed_pawn_body. rewrite passer_final_bonus_known, !A. reflexivity.
Qed.

Lemma evaluate_passed_pawns_known Us :
  evaluate_passed_pawns X pos Us st2 = evaluate_passed_pawns X pos Us st1.
Proof.
  unfold evaluate_passed_pawns. rewrite king_race_score_known.
  rewrite (fold_left_ext _ _ _ _ (passed_pawn_body_known Us)).
  reflexivity.
Qed.

Lemma forced_capture_threats_known Attacks Threats pieceCount Us :
  forced_capture_threats pos Attacks Threats pieceCount Us st2
  = forced_capture_threats pos Attacks Threats pieceCount Us st1.
Proof.
  unfold forced_capture_threats. rewrite !A2.
  rewrite !(A _ ALL_PIECES), !(A _ KNIGHT), !(A _ BISHOP), !(A _ ROOK),
    !(A _ QUEEN), !(A _ KING).
  cbv zeta.
  destruct (nz (Z.land (attackedBy st1 Us ALL_PIECES) (pieces_c pos (opp Us))));
    [|reflexivity].
  erewrite fold_left_ext; [reflexivity|].
  intros a b. cbv beta. now rewrite A.
Qed.

Lemma horde_wall_min_known Us : horde_wall_min pos Us st2 = horde_wall_min pos Us st1.
Proof. unfold horde_wall_min. rewrite !A. reflexivity. Qed.

Lemma standard_threats_known Us :
  standard_threats X pos Us st2 = standard_threats X pos Us st1.
Proof.
  unfold standard_threats. rewrite horde_wall_min_known, !A, !A2. reflexivity.
Qed.

Lemma evaluate_threats_known Us :
  evaluate_threats X pos Us st2 = evaluate_threats X pos Us st1.
Proof.
  unfold evaluate_threats.
  rewrite !forced_capture_threats_known, standard_threats_known. reflexivity.
Qed.

End Known.

Lemma danger_needs_enabled X pos Us st score :
  count pos QUEEN (opp Us) <= 1 ->
  king_danger_active pos Us (fst (run_pieces X pos st score)) = true ->
  king_safety_enabled X pos Us = true.
Proof.
  intros Hq Ha. destruct (king_safety_enabled X pos Us) eqn:He; [reflexivity|].
  destruct (run_pieces_disabled X pos Us st score He) as [_ Hc].
  unfold king_danger_active in Ha. rewrite Hc in Ha.
  apply andb_true_iff in Ha. destruct Ha as [Ha _]. apply Z.ltb_lt in Ha. lia.
Qed.

Lemma main_score_known X pos g1 g2 score :
  (is_anti pos = false -> is_extinction pos = false -> is_race pos = false ->
   forall Us, king_safety_enabled X pos Us = false -> count pos QUEEN (opp Us) <= 1) ->
  main_score X pos (Evaluation_ctor g2) score
  = main_score X pos (Evaluation_ctor g1) score.
Proof.
  intros Hq. unfold main_score.
  destruct (run_pieces_same_known X pos (Evaluation_ctor g1) (Evaluation_ctor g2)
              score (fun c => eq_refl)) as [U E].
  pose proof (fun Us => danger_needs_enabled X pos Us (Evaluation_ctor g1) score)
    as Hd.
  destruct (run_pieces X pos (Evaluation_ctor g1) score) as [st1 s1].
  destruct (run_pieces X pos (Evaluation_ctor g2) score) as [st2 s2].
  cbn [fst snd] in *. subst s2. same_known_cases U.
  assert (A : forall c pt, attackedBy st2 c pt = attackedBy st1 c pt)
    by (intros; now apply K1).
  rewrite !K3.
  rewrite !(evaluate_threats_known X pos st1 st2 A K2).
  rewrite !(evaluate_passed_pawns_known X pos st1 st2 A).
  rewrite !(evaluate_space_known X pos st1 st2 A).
  destruct (is_anti pos) eqn:Ea; [reflexivity|].
  destruct (is_extinction pos) eqn:Ee; [reflexivity|].
  destruct (is_race pos) eqn:Er; [reflexivity|].
  assert (W : forall Us, king_danger_active pos Us st1 = true ->
                kingAttackersWeight st2 (opp Us) = kingAttackersWeight st1 (opp Us)
                /\ kingAdjacentZoneAttacksCount st2 (opp Us)
                   = kingAdjacentZoneAttacksCount st1 (opp Us)).
  { intros Us Ha. apply K7.
    replace (opp (opp Us)) with Us by (now destruct Us).
    destruct (king_safety_enabled X pos Us) eqn:He; [reflexivity|].
    pose proof (Hd Us (Hq eq_refl eq_refl eq_refl Us He) Ha). congruence. }
  rewrite !(evaluate_king_known X pos st1 st2 A K2 K4 K5 K6 _ (W _)).
  reflexivity.
Qed.

(** X18.  [value] does not depend on the content of the members that the
    constructor leaves uninitialised, provided that, where [evaluate_king] is
    called, a side whose king safety is not set up faces at most one enemy
    queen: every other member is written before it is read, and the weight
    and the zone count are read inside the king-danger block only. *)
Theorem value_ignores_uninitialised_members X pos g1 g2 :
  (is_anti pos = false -> is_extinction pos = false -> is_race pos = false ->
   forall Us, king_safety_enabled X pos Us = false -> count pos QUEEN (opp Us) <= 1) ->
  value_exit X pos g1 = value_exit X pos g2.
Proof.
  intros Hq. unfold value_exit.
  now rewrite (main_score_known X pos g2 g1 _ Hq).
Qed.

(** The bishop ending: the value is the same whether the members start
    zeroed or with White's double attacks set on every square. *)
Lemma value_ignores_uninitialised_members_witness :
  let X := Sample.X_kbp in
  let pos := Sample.pos_kbp CHESS_VARIANT WHITE SCORE_ZERO in
  value_exit X pos Sample.zeroed
  = value_exit X pos (set_attackedBy2 Sample.zeroed WHITE All64).
Proof.
  apply (value_ignores_uninitialised_members Sample.X_kbp
           (Sample.pos_kbp CHESS_VARIANT WHITE SCORE_ZERO)).
  intros _ _ _ [|] _; vm_compute; discriminate.
Defined.
